(** * youtube-channel-fetcher: the fetcher, its two front ends and the router

    A shallow embedding of
      - [lib/fetcher.js]        class [YouTubeChannelFetcher]
      - [lib/youtube-videos.js] [fetchYoutubeVideos], [streamYoutubeVideos]
      - [lib/api-videos.js]     the routes [GET /] and [GET /stream]
    and the properties of the specification that are about them.

    Conventions of the model.
      - A JavaScript string is a [string]; its length is the number of
        its characters.
      - A JavaScript object is a finite map from property names to values
        ([gmap string JSVal]); the spread [{...a, ...b}] is [b ∪ a].
      - An [async] function is a computation [M A] over the [World]: the
        trace of what the process did so far, the counter of the stream
        route, and the instant at which the client goes away.  A computation
        returns, throws, or stays pending on a call that upstream never
        answers.
      - The YouTube API is scripted: each call is given the reply it will
        receive.  The request that the code sends is recorded in the trace.
      - Console output of the fetcher is not part of the model. *)

From stdpp Require Import gmap strings list fin_maps pretty.

Set Warnings "-register-all".
Open Scope string_scope.

(** ** String methods *)

Module JsString.

(** [s.startsWith(prefix)] *)
Definition startsWith (s prefix : string) : bool := String.prefix prefix s.

(** [s.includes(sub)] *)
Fixpoint includes (s sub : string) : bool :=
  String.prefix sub s ||
  match s with
  | EmptyString => false
  | String _ rest => includes rest sub
  end.

(** [s.split(sep)] for a separator that is not empty.  [skip] counts the
    characters of a separator just found that are still to be passed,
    [cur] is the piece being read. *)
Fixpoint split_go (sep : string) (skip : nat) (cur s : string) : list string :=
  match s with
  | EmptyString => [cur]
  | String c rest =>
      match skip with
      | S k => split_go sep k cur rest
      | O =>
          if String.prefix sep s
          then cur :: split_go sep (String.length sep - 1) "" rest
          else split_go sep 0 (cur +:+ String c "") rest
      end
  end.

Definition split (s sep : string) : list string := split_go sep 0 "" s.

(** [s.substring(start)] *)
Definition substring (s : string) (start : nat) : string :=
  String.substring start (String.length s - start) s.

(** [parts.join(sep)] on strings *)
Fixpoint join (sep : string) (parts : list string) : string :=
  match parts with
  | [] => ""
  | [p] => p
  | p :: rest => p +:+ sep +:+ join sep rest
  end.

End JsString.

(** ** Values, errors and results *)

Inductive JSVal : Type :=
  | VUndef
  | VNull
  | VBool (b : bool)
  | VNum (n : Z)
  | VStr (s : string)
  | VArr (elems : list JSVal)
  | VObj (props : gmap string JSVal).

Abbreviation JSObject := (gmap string JSVal).

Inductive JSError : Type :=
  | Error (message : string)
  | TypeError (message : string).

Definition message (e : JSError) : string :=
  match e with
  | Error m => m
  | TypeError m => m
  end.

(** A synchronous expression either has a value or throws. *)
Inductive Result (A : Type) : Type :=
  | Ok (a : A)
  | Throw (e : JSError).
Arguments Ok {A} a.
Arguments Throw {A} e.

Definition rbind {A B} (r : Result A) (k : A -> Result B) : Result B :=
  match r with
  | Ok a => k a
  | Throw e => Throw e
  end.

Declare Scope result_scope.
Delimit Scope result_scope with result.
Notation "'let?' x ':=' r 'in' k" := (rbind r (fun x => k))
  (at level 10, x name, r at level 100, k at level 200) : result_scope.

Fixpoint mapR {A B} (f : A -> Result B) (l : list A) : Result (list B) :=
  match l with
  | [] => Ok []
  | a :: rest =>
      rbind (f a) (fun b => rbind (mapR f rest) (fun bs => Ok (b :: bs)))
  end.

Module Js.

(** Truthiness, as [if (v)], [!!v], [a && b] and [a || b] see it. *)
Definition truthy (v : JSVal) : bool :=
  match v with
  | VUndef | VNull => false
  | VBool b => b
  | VNum n => negb (n =? 0)%Z
  | VStr s => negb (String.eqb s "")
  | VArr _ | VObj _ => true
  end.

(** [a === b].  Two objects or two arrays that come from different
    replies are never the same reference. *)
Definition strict_eq (a b : JSVal) : bool :=
  match a, b with
  | VUndef, VUndef | VNull, VNull => true
  | VBool x, VBool y => Bool.eqb x y
  | VNum x, VNum y => (x =? y)%Z
  | VStr x, VStr y => String.eqb x y
  | _, _ => false
  end.

(** String conversion of a template literal, [`${v}`]. *)
Fixpoint toStr (v : JSVal) : string :=
  match v with
  | VUndef => "undefined"
  | VNull => "null"
  | VBool true => "true"
  | VBool false => "false"
  | VNum n => pretty n
  | VStr s => s
  | VArr elems =>
      JsString.join ","
        (map (fun e => match e with
                       | VUndef | VNull => ""
                       | _ => toStr e
                       end) elems)
  | VObj _ => "[object Object]"
  end.

(** One element of [array.join(",")]: [undefined] and [null] give the
    empty string. *)
Definition joinStr (v : JSVal) : string :=
  match v with
  | VUndef | VNull => ""
  | _ => toStr v
  end.

(** [o.k] on an object. *)
Definition field (o : JSObject) (k : string) : JSVal := default VUndef (o !! k).

(** [v.k] on a value, for the property names this program reads (none of
    them is [length], an index or a method of a primitive): a [TypeError]
    on [undefined] and [null], the property of an object, and [undefined]
    on every other value. *)
Definition prop (v : JSVal) (k : string) : Result JSVal :=
  match v with
  | VUndef =>
      Throw (TypeError ("Cannot read properties of undefined (reading '" +:+ k +:+ "')"))
  | VNull =>
      Throw (TypeError ("Cannot read properties of null (reading '" +:+ k +:+ "')"))
  | VObj o => Ok (field o k)
  | _ => Ok VUndef
  end.

(** [{...v}]: the own properties of an object; [undefined] and [null]
    spread to nothing. *)
Definition spread (v : option JSObject) : JSObject := default ∅ v.

End Js.

(** ** The world of one request, and asynchronous computations *)

(** [response.data] of a list endpoint. *)
Module Response.
Record Data : Type := {
  items : option (list JSObject);
  nextPageToken : JSVal;
}.
End Response.
Abbreviation ListData := Response.Data.

(** What upstream does with one call: the promise resolves, rejects, or
    never settles. *)
Inductive Reply : Type :=
  | Resolve (data : ListData)
  | Reject (e : JSError)
  | NoReply.

Inductive Request : Type :=
  | SearchList (params : JSObject)
  | ChannelsList (params : JSObject)
  | VideosList (params : JSObject).

(** What a recording callback was handed, see [Spy]. *)
Inductive Notification : Type :=
  | Progress (info : JSObject)
  | Videos (batch : list JSObject).

Inductive Action : Type :=
  | Call (request : Request)
  | Timer (ms : Z)
  | ConsoleLog (text : string)
  | Handed (n : Notification)
  | ResJson (status : Z) (body : JSVal)
  | ResWriteHead (status : Z) (headers : JSObject)
  | ResWrite (event : JSObject)
  | ResEnd.

(** [trace]: the effects so far, oldest first.  [videoCount]: the counter
    of the stream route.  [clientLeaves]: [Some n] when the client closes
    the connection while the process is suspended for the [n]-th time from
    now (counting from 0), [None] when it stays. *)
Record World : Type := {
  trace : list Action;
  videoCount : nat;
  clientLeaves : option nat;
}.

Inductive Outcome (A : Type) : Type :=
  | Returned (a : A)
  | Thrown (e : JSError)
  | Pending.
Arguments Returned {A} a.
Arguments Thrown {A} e.
Arguments Pending {A}.

Definition M (A : Type) : Type := World -> Outcome A * World.

Definition ret {A} (a : A) : M A := fun w => (Returned a, w).

Definition bind {A B} (m : M A) (k : A -> M B) : M B :=
  fun w =>
    match m w with
    | (Returned a, w') => k a w'
    | (Thrown e, w') => (Thrown e, w')
    | (Pending, w') => (Pending, w')
    end.

Definition throw {A} (e : JSError) : M A := fun w => (Thrown e, w).

Definition pending {A} : M A := fun w => (Pending, w).

(** [try { m } catch (error) { handler error }] *)
Definition try_catch {A} (m : M A) (handler : JSError -> M A) : M A :=
  fun w =>
    match m w with
    | (Thrown e, w') => handler e w'
    | settled => settled
    end.

Definition lift {A} (r : Result A) : M A :=
  match r with
  | Ok a => ret a
  | Throw e => throw e
  end.

Definition emit (a : Action) : M unit :=
  fun w =>
    (Returned tt,
     {| trace := trace w ++ [a];
        videoCount := videoCount w;
        clientLeaves := clientLeaves w |}).

Declare Scope async_scope.
Delimit Scope async_scope with async.
Bind Scope async_scope with M.
Notation "x <- m ;; k" := (bind m (fun x => k))
  (at level 100, m at next level, k at level 200, right associativity) : async_scope.
Notation "m ;; k" := (bind m (fun _ => k))
  (at level 100, k at level 200, right associativity) : async_scope.
Open Scope async_scope.

Definition outcome {A} (r : Outcome A * World) : Outcome A := fst r.
Definition world {A} (r : Outcome A * World) : World := snd r.

(** The value of a run that returned, [otherwise] for the others. *)
Definition value {A} (otherwise : A) (r : Outcome A * World) : A :=
  match outcome r with
  | Returned a => a
  | _ => otherwise
  end.

(** The listener of the stream route, [req.on("close", ...)]
    (api-videos.js 77-80): it writes one line to the console. *)
Definition on_close : M unit :=
  emit (ConsoleLog "Client disconnected from stream").

(** One turn of the event loop while the request waits for upstream or for
    a timer: the close event of the client, if it is due, is dispatched to
    its listener. *)
Definition suspend : M unit :=
  fun w =>
    match clientLeaves w with
    | None => (Returned tt, w)
    | Some (S n) =>
        (Returned tt,
         {| trace := trace w; videoCount := videoCount w; clientLeaves := Some n |})
    | Some O =>
        on_close
          {| trace := trace w; videoCount := videoCount w; clientLeaves := None |}
    end.

(** [await] of a promise of the API client. *)
Definition await (reply : Reply) : M ListData :=
  suspend ;;
  match reply with
  | Resolve data => ret data
  | Reject e => throw e
  | NoReply => pending
  end.

(** ** lib/fetcher.js: class YouTubeChannelFetcher *)

Module Fetcher.
Import JsString Js.

(** The three endpoints of [this.youtube]: the request goes out, then
    the caller awaits the reply. *)
Definition youtube_search_list (reply : Reply) (params : JSObject) : M ListData :=
  emit (Call (SearchList params)) ;; await reply.

Definition youtube_channels_list (reply : Reply) (params : JSObject) : M ListData :=
  emit (Call (ChannelsList params)) ;; await reply.

Definition youtube_videos_list (reply : Reply) (params : JSObject) : M ListData :=
  emit (Call (VideosList params)) ;; await reply.

(** [parts[i]] followed by a method call: [undefined] has no methods. *)
Definition at_index (parts : list string) (i : nat) : Result string :=
  match parts !! i with
  | Some part => Ok part
  | None => Throw (TypeError "Cannot read properties of undefined (reading 'split')")
  end.

(** [input.split(marker)[1].split("?")[0].split("/")[0]] *)
Definition path_component (input marker : string) : Result string :=
  (let? after := at_index (split input marker) 1 in
   let? path := at_index (split after "?") 0 in
   at_index (split path "/") 0)%result.

(** Lines 24-45 of [getChannelId]: the URL is either resolved on the
    spot or reduced to the text to search for. *)
Inductive Resolution : Type :=
  | Resolved (channelId : string)
  | Query (channelIdentifier : string).

Definition channelIdentifier (input : string) : Result Resolution :=
  if includes input "youtube.com/channel/" then
    (let? channelIdentifier := path_component input "youtube.com/channel/" in
     if startsWith channelIdentifier "UC"
     then Ok (Resolved channelIdentifier)
     else Ok (Query channelIdentifier))%result
  else if includes input "youtube.com/c/" || includes input "youtube.com/@" then
    (let? channelIdentifier := path_component input "youtube.com/" in
     if startsWith channelIdentifier "@"
     then Ok (Query (substring channelIdentifier 1))
     else Ok (Query channelIdentifier))%result
  else Ok (Query input).

(** [input.startsWith] on something that is not a string. *)
Definition not_a_string (input : JSVal) : JSError :=
  match input with
  | VUndef => TypeError "Cannot read properties of undefined (reading 'startsWith')"
  | VNull => TypeError "Cannot read properties of null (reading 'startsWith')"
  | _ => TypeError "input.startsWith is not a function"
  end.

Definition getChannelId (reply : Reply) (input : JSVal) : M JSVal :=
  try_catch
    (match input with
     | VStr input =>
         if startsWith input "UC" && (String.length input =? 24)%nat then
           ret (VStr input)
         else
           resolution <- lift (channelIdentifier input) ;;
           match resolution with
           | Resolved channelId => ret (VStr channelId)
           | Query channelIdentifier =>
               response <-
                 youtube_search_list reply
                   (<["part" := VStr "snippet"]>
                      (<["q" := VStr channelIdentifier]>
                         (<["type" := VStr "channel"]>
                            (<["maxResults" := VNum 1]> ∅)))) ;;
               match Response.items response with
               | Some (first :: _) =>
                   lift (prop (field first "id") "channelId")
               | _ => throw (Error ("Channel not found: " +:+ input))
               end
           end
     | _ => throw (not_a_string input)
     end)
    (fun error => throw error).

Definition getChannelInfo (reply : Reply) (channelId : JSVal) : M JSObject :=
  try_catch
    (response <-
       youtube_channels_list reply
         (<["part" := VStr "snippet,statistics"]> (<["id" := channelId]> ∅)) ;;
     match Response.items response with
     | Some (channel :: _) =>
         lift
           (let snippet := field channel "snippet" in
            let statistics := field channel "statistics" in
            let? title := prop snippet "title" in
            let? description := prop snippet "description" in
            let? thumbnails := prop snippet "thumbnails" in
            let? default_ := prop thumbnails "default" in
            let? url := prop default_ "url" in
            let? subscriberCount := prop statistics "subscriberCount" in
            let? videoCount := prop statistics "videoCount" in
            let? viewCount := prop statistics "viewCount" in
            Ok (<["id" := field channel "id"]>
                  (<["title" := title]>
                     (<["description" := description]>
                        (<["thumbnail" := url]>
                           (<["subscriberCount" := subscriberCount]>
                              (<["videoCount" := videoCount]>
                                 (<["viewCount" := viewCount]> ∅))))))))%result
     | _ => throw (Error ("Channel not found: " +:+ toStr channelId))
     end)
    (fun error => throw error).

(** The callback of [response.data.items.map] in [getVideoDetails]. *)
Definition videoDetail (video : JSObject) : Result JSObject :=
  (let snippet := field video "snippet" in
   let contentDetails := field video "contentDetails" in
   let statistics := field video "statistics" in
   let? title := prop snippet "title" in
   let? description := prop snippet "description" in
   let? publishedAt := prop snippet "publishedAt" in
   let? thumbnails := prop snippet "thumbnails" in
   let? default_ := prop thumbnails "default" in
   let? url := prop default_ "url" in
   let? duration := prop contentDetails "duration" in
   let? viewCount := prop statistics "viewCount" in
   let? likeCount := prop statistics "likeCount" in
   let? commentCount := prop statistics "commentCount" in
   let? tags := prop snippet "tags" in
   Ok (<["id" := field video "id"]>
         (<["title" := title]>
            (<["description" := description]>
               (<["publishedAt" := publishedAt]>
                  (<["thumbnail" := url]>
                     (<["duration" := duration]>
                        (<["viewCount" := viewCount]>
                           (<["likeCount" := likeCount]>
                              (<["commentCount" := commentCount]>
                                 (<["tags" := if truthy tags then tags else VArr []]>
                                    ∅)))))))))))%result.

Definition getVideoDetails (reply : Reply) (videoIds : string) : M (list JSObject) :=
  try_catch
    (response <-
       youtube_videos_list reply
         (<["part" := VStr "snippet,statistics,contentDetails"]>
            (<["id" := VStr videoIds]> ∅)) ;;
     match Response.items response with
     | Some videos => lift (mapR videoDetail videos)
     | None =>
         throw (TypeError "Cannot read properties of undefined (reading 'map')")
     end)
    (fun error => throw error).

(** [delay(ms)]: a timer, awaited. *)
Definition delay (ms : Z) : M unit := emit (Timer ms) ;; suspend.

(** The destructured [options], with the defaults of the two signatures.
    [getAllChannelVideos] does not read the two callbacks. *)
Record Options : Type := {
  maxResults : Z;
  order : JSVal;
  publishedAfter : JSVal;
  publishedBefore : JSVal;
  includeDetails : bool;
  onProgress : JSObject -> M unit;
  onVideos : list JSObject -> M unit;
}.

Definition default_options : Options := {|
  maxResults := 50;
  order := VStr "date";
  publishedAfter := VNull;
  publishedBefore := VNull;
  includeDetails := true;
  onProgress := fun _ => ret tt;
  onVideos := fun _ => ret tt;
|}.

Definition searchParams (channelId : JSVal) (options : Options) (nextPageToken : JSVal)
  : JSObject :=
  let searchParams :=
    <["part" := VStr "snippet"]>
      (<["channelId" := channelId]>
         (<["type" := VStr "video"]>
            (<["order" := order options]>
               (<["maxResults" := VNum (Z.min (maxResults options) 50)]>
                  (<["pageToken" := nextPageToken]> ∅))))) in
  let searchParams :=
    if truthy (publishedAfter options)
    then <["publishedAfter" := publishedAfter options]> searchParams
    else searchParams in
  if truthy (publishedBefore options)
  then <["publishedBefore" := publishedBefore options]> searchParams
  else searchParams.

(** [video.id.videoId] *)
Definition videoId (video : JSObject) : Result JSVal :=
  prop (field video "id") "videoId".

(** [videoDetails.find((detail) => detail.id === video.id.videoId)] *)
Fixpoint find_detail (videoDetails : list JSObject) (video : JSObject)
  : Result (option JSObject) :=
  match videoDetails with
  | [] => Ok None
  | detail :: rest =>
      (let? id := videoId video in
       if strict_eq (field detail "id") id
       then Ok (Some detail)
       else find_detail rest video)%result
  end.

(** The callback of [videos.map] that merges: [{...video, ...details}]. *)
Definition merge (videoDetails : list JSObject) (video : JSObject) : Result JSObject :=
  (let? details := find_detail videoDetails video in
   Ok (spread details ∪ video))%result.

(** The body of [if (includeDetails)], the same text in both loops
    (155-169 and 247-261). *)
Definition withDetails (reply : Reply) (videos : list JSObject) : M (list JSObject) :=
  ids <- lift (mapR videoId videos) ;;
  let videoIds := join "," (map joinStr ids) in
  videoDetails <- getVideoDetails reply videoIds ;;
  lift (mapR (merge videoDetails) videos).

(** The replies to the calls of one turn of the loop. *)
Record Page : Type := {
  search_reply : Reply;
  details_reply : Reply;
}.

(** The page past the end of the script: upstream stays silent. *)
Definition silence : Page := {| search_reply := NoReply; details_reply := NoReply |}.

Definition progress_info (pageCount : nat) (allVideos : list JSObject)
    (nextPageToken : JSVal) : JSObject :=
  <["page" := VNum (Z.of_nat pageCount)]>
    (<["totalFetched" := VNum (Z.of_nat (length allVideos))]>
       (<["hasMore" := VBool (truthy nextPageToken)]> ∅)).

(** One turn of the [do ... while] of [streamAllChannelVideos]
    (123-186), [pageCount] already incremented.  It gives the new
    [allVideos] and [nextPageToken]. *)
Definition streamPage (channelId : JSVal) (options : Options) (page : Page)
    (allVideos : list JSObject) (nextPageToken : JSVal) (pageCount : nat)
  : M (list JSObject * JSVal) :=
  onProgress options (progress_info pageCount allVideos nextPageToken) ;;
  response <-
    youtube_search_list (search_reply page)
      (searchParams channelId options nextPageToken) ;;
  allVideos <-
    match Response.items response with
    | Some ((_ :: _) as videos) =>
        videos <-
          (if includeDetails options
           then withDetails (details_reply page) videos
           else ret videos) ;;
        let allVideos := (allVideos ++ videos)%list in
        onVideos options videos ;;
        ret allVideos
    | _ => ret allVideos
    end ;;
  let nextPageToken := Response.nextPageToken response in
  (if truthy nextPageToken then delay 100 else ret tt) ;;
  ret (allVideos, nextPageToken).

Fixpoint streamLoop (channelId : JSVal) (options : Options) (pages : list Page)
    (allVideos : list JSObject) (nextPageToken : JSVal) (pageCount : nat)
  : M (list JSObject) :=
  match pages with
  | [] =>
      streamPage channelId options silence allVideos nextPageToken (S pageCount) ;;
      pending
  | page :: rest =>
      turn <- streamPage channelId options page allVideos nextPageToken (S pageCount) ;;
      if truthy (snd turn)
      then streamLoop channelId options rest (fst turn) (snd turn) (S pageCount)
      else ret (fst turn)
  end.

Definition streamAllChannelVideos (pages : list Page) (channelId : JSVal)
    (options : Options) : M (list JSObject) :=
  try_catch
    (streamLoop channelId options pages [] VNull 0)
    (fun error => throw error).

(** One turn of the [do ... while] of [getAllChannelVideos] (222-274). *)
Definition fetchPage (channelId : JSVal) (options : Options) (page : Page)
    (allVideos : list JSObject) (nextPageToken : JSVal)
  : M (list JSObject * JSVal) :=
  response <-
    youtube_search_list (search_reply page)
      (searchParams channelId options nextPageToken) ;;
  allVideos <-
    match Response.items response with
    | Some ((_ :: _) as videos) =>
        videos <-
          (if includeDetails options
           then withDetails (details_reply page) videos
           else ret videos) ;;
        ret (allVideos ++ videos)%list
    | _ => ret allVideos
    end ;;
  let nextPageToken := Response.nextPageToken response in
  (if truthy nextPageToken then delay 100 else ret tt) ;;
  ret (allVideos, nextPageToken).

Fixpoint fetchLoop (channelId : JSVal) (options : Options) (pages : list Page)
    (allVideos : list JSObject) (nextPageToken : JSVal) : M (list JSObject) :=
  match pages with
  | [] =>
      fetchPage channelId options silence allVideos nextPageToken ;;
      pending
  | page :: rest =>
      turn <- fetchPage channelId options page allVideos nextPageToken ;;
      if truthy (snd turn)
      then fetchLoop channelId options rest (fst turn) (snd turn)
      else ret (fst turn)
  end.

Definition getAllChannelVideos (pages : list Page) (channelId : JSVal)
    (options : Options) : M (list JSObject) :=
  try_catch
    (fetchLoop channelId options pages [] VNull)
    (fun error => throw error).

End Fetcher.

(** ** lib/youtube-videos.js *)

Module Lib.
Import JsString Js Fetcher.

(** The replies of the API during one session: to the channel search of
    [getChannelId] (if it is made), to [getChannelInfo], and to the
    turns of the loop. *)
Record Upstream : Type := {
  channel_search : Reply;
  channel_lookup : Reply;
  video_pages : list Page;
}.

(** [videos.forEach(f)] *)
Fixpoint forEach {A} (f : A -> M unit) (l : list A) : M unit :=
  match l with
  | [] => ret tt
  | a :: rest => f a ;; forEach f rest
  end.

(** The value is [None] where the JavaScript function gives
    [undefined]. *)
Definition fetchYoutubeVideos (upstream : Upstream) (channelInput : JSVal)
  : M (option (list JSObject)) :=
  try_catch
    (channelId <- getChannelId (channel_search upstream) channelInput ;;
     channelInfo <- getChannelInfo (channel_lookup upstream) channelId ;;
     videos <-
       getAllChannelVideos (video_pages upstream) channelId
         {| maxResults := 50;
            order := VStr "date";
            publishedAfter := publishedAfter default_options;
            publishedBefore := publishedBefore default_options;
            includeDetails := true;
            onProgress := onProgress default_options;
            onVideos := onVideos default_options |} ;;
     ret (Some videos))
    (fun error => ret None).

(** The [try] block of [streamYoutubeVideos] (138-195). *)
Definition streamSession (upstream : Upstream) (channelInput : JSVal)
    (onProgress : JSObject -> M unit) (onVideo : JSObject -> M unit)
    (onComplete : JSObject -> M unit) : M unit :=
  onProgress
    (<["stage" := VStr "channel_lookup"]>
       (<["message" := VStr ("Looking up channel: " +:+ toStr channelInput)]> ∅)) ;;
  channelId <- getChannelId (channel_search upstream) channelInput ;;
  onProgress
    (<["stage" := VStr "channel_info"]>
       (<["message" := VStr "Fetching channel information..."]> ∅)) ;;
  channelInfo <- getChannelInfo (channel_lookup upstream) channelId ;;
  onProgress
    (<["stage" := VStr "channel_ready"]>
       (<["message" := VStr ("Channel found: " +:+ toStr (field channelInfo "title"))]>
          (<["channelInfo" := VObj channelInfo]> ∅))) ;;
  onProgress
    (<["stage" := VStr "videos_start"]>
       (<["message" := VStr "Starting video fetch..."]> ∅)) ;;
  streamAllChannelVideos (video_pages upstream) channelId
    {| maxResults := 50;
       order := VStr "date";
       publishedAfter := publishedAfter default_options;
       publishedBefore := publishedBefore default_options;
       includeDetails := true;
       Fetcher.onProgress := fun progress =>
         onProgress
           (progress ∪
              <["stage" := VStr "videos_progress"]>
                (<["message" :=
                     VStr ("Fetching page " +:+ toStr (field progress "page") +:+
                           "... (" +:+ toStr (field progress "totalFetched") +:+
                           " videos so far)")]> ∅));
       onVideos := fun videos => forEach onVideo videos |} ;;
  onComplete
    (<["message" := VStr "All videos fetched successfully"]>
       (<["channelInfo" := VObj channelInfo]> ∅)).

Definition streamYoutubeVideos (upstream : Upstream) (channelInput : JSVal)
    (onProgress : JSObject -> M unit) (onVideo : JSObject -> M unit)
    (onComplete : JSObject -> M unit) (onError : JSError -> M unit) : M unit :=
  try_catch
    (streamSession upstream channelInput onProgress onVideo onComplete)
    (fun error => onError error).

End Lib.

(** ** lib/api-videos.js *)

Module Router.
Import Js Fetcher Lib.

Definition set_videoCount (n : nat) : M unit :=
  fun w =>
    (Returned tt,
     {| trace := trace w; videoCount := n; clientLeaves := clientLeaves w |}).

Definition get_videoCount : M nat := fun w => (Returned (videoCount w), w).

(** [res.json(videos)]; the status is 200 unless [res.status] set it. *)
Definition get_videos (upstream : Upstream) (channel : JSVal) : M unit :=
  videos <- fetchYoutubeVideos upstream channel ;;
  emit (ResJson 200
          match videos with
          | Some videos => VArr (map VObj videos)
          | None => VUndef
          end).

Definition sse_headers : JSObject :=
  <["Content-Type" := VStr "text/event-stream"]>
    (<["Cache-Control" := VStr "no-cache"]>
       (<["Connection" := VStr "keep-alive"]>
          (<["Access-Control-Allow-Origin" := VStr "*"]>
             (<["Access-Control-Allow-Headers" := VStr "Cache-Control"]> ∅)))).

Definition write_progress (progress : JSObject) : M unit :=
  emit (ResWrite (progress ∪ {["type" := VStr "progress"]})).

Definition write_video (video : JSObject) : M unit :=
  n <- get_videoCount ;;
  set_videoCount (S n) ;;
  videoCount <- get_videoCount ;;
  emit (ResWrite
          (<["type" := VStr "video"]>
             (<["video" := VObj video]>
                (<["count" := VNum (Z.of_nat videoCount)]> ∅)))).

Definition write_complete (result : JSObject) : M unit :=
  videoCount <- get_videoCount ;;
  emit (ResWrite
          (<["totalVideos" := VNum (Z.of_nat videoCount)]>
             (result ∪ {["type" := VStr "complete"]}))) ;;
  emit ResEnd.

Definition write_error (error : JSError) : M unit :=
  emit (ResWrite
          (<["type" := VStr "error"]>
             (<["message" := VStr (message error)]> ∅))) ;;
  emit ResEnd.

(** Lines 19-36 of the stream route: the headers, the first event, and
    [let videoCount = 0]. *)
Definition open_stream : M unit :=
  emit (ResWriteHead 200 sse_headers) ;;
  emit (ResWrite
          (<["type" := VStr "connected"]>
             (<["message" := VStr "Stream started"]> ∅))) ;;
  set_videoCount 0.

(** The listener [on_close] is registered as soon as
    [streamYoutubeVideos] has run up to its first suspension, before any
    event can be dispatched: [suspend] hands the close event to it. *)
Definition get_stream (upstream : Upstream) (channelInput : JSVal) : M unit :=
  if negb (truthy channelInput) then
    emit (ResJson 400 (VObj {["error" := VStr "Channel parameter is required"]}))
  else
    open_stream ;;
    streamYoutubeVideos upstream channelInput
      write_progress write_video write_complete write_error.

End Router.

(** ** Recording callbacks

    The callbacks a test would pass to [streamAllChannelVideos] to see what
    it is handed and when: each one notes its argument in the trace. *)

Module Spy.
Import Fetcher.

Definition onProgress (info : JSObject) : M unit := emit (Handed (Progress info)).
Definition onVideos (batch : list JSObject) : M unit := emit (Handed (Videos batch)).

Definition options (base : Options) : Options := {|
  maxResults := maxResults base;
  order := order base;
  publishedAfter := publishedAfter base;
  publishedBefore := publishedBefore base;
  includeDetails := includeDetails base;
  Fetcher.onProgress := onProgress;
  Fetcher.onVideos := onVideos;
|}.

End Spy.

(** A fresh request. *)
Definition start (clientLeaves : option nat) : World :=
  {| trace := []; videoCount := 0; clientLeaves := clientLeaves |}.

(** ** Sample data, in the shape of the YouTube Data API v3 *)

Module Sample.
Import Fetcher Lib.

(** An item of [search.list]. *)
Definition search_item (id : string) : JSObject :=
  <["kind" := VStr "youtube#searchResult"]>
    (<["id" := VObj (<["kind" := VStr "youtube#video"]> (<["videoId" := VStr id]> ∅))]>
       (<["snippet" :=
            VObj (<["title" := VStr ("Video " +:+ id)]>
                    (<["publishedAt" := VStr "2024-01-01T00:00:00Z"]> ∅))]> ∅)).

(** An item of [videos.list]. *)
Definition video_resource (id : string) : JSObject :=
  <["id" := VStr id]>
    (<["snippet" :=
         VObj (<["title" := VStr ("Video " +:+ id)]>
                 (<["description" := VStr ""]>
                    (<["publishedAt" := VStr "2024-01-01T00:00:00Z"]>
                       (<["thumbnails" :=
                            VObj {["default" := VObj {["url" := VStr "https://i.ytimg.com/x.jpg"]}]}]>
                          ∅))))]>
       (<["contentDetails" := VObj {["duration" := VStr "PT1M"]}]>
          (<["statistics" :=
               VObj (<["viewCount" := VStr "10"]>
                       (<["likeCount" := VStr "2"]>
                          (<["commentCount" := VStr "0"]> ∅)))]> ∅))).

(** A page whose search lists [ids], whose detail batch lists
    [detailed], and whose reply carries [token]. *)
Definition page (ids detailed : list string) (token : JSVal) : Page :=
  {| search_reply :=
       Resolve {| Response.items := Some (map search_item ids);
                  Response.nextPageToken := token |};
     details_reply :=
       Resolve {| Response.items := Some (map video_resource detailed);
                  Response.nextPageToken := VUndef |} |}.

(** The ids ["v<from>"], ..., ["v<from+count-1>"]. *)
Definition ids (from count : nat) : list string :=
  map (fun i => "v" +:+ pretty i) (seq from count).

Definition channel_item (id : string) : JSObject :=
  <["id" := VStr id]>
    (<["snippet" :=
         VObj (<["title" := VStr "A channel"]>
                 (<["description" := VStr ""]>
                    (<["thumbnails" :=
                         VObj {["default" := VObj {["url" := VStr "https://yt3.ggpht.com/c.jpg"]}]}]>
                       ∅)))]>
       (<["statistics" :=
            VObj (<["subscriberCount" := VStr "1000"]>
                    (<["videoCount" := VStr "73"]>
                       (<["viewCount" := VStr "123456"]> ∅)))]> ∅)).

Definition channel_reply (id : string) : Reply :=
  Resolve {| Response.items := Some [channel_item id]; Response.nextPageToken := VUndef |}.

Definition no_items : Reply :=
  Resolve {| Response.items := Some []; Response.nextPageToken := VUndef |}.

(** A channel whose videos come on three pages of one. *)
Definition three_pages : Upstream :=
  {| channel_search := no_items;
     channel_lookup := channel_reply "UCBJycsmduvYEL83R_U4JriQ";
     video_pages :=
       [ page ["a"] ["a"] (VStr "CAEQAA");
         page ["b"] ["b"] (VStr "CAIQAA");
         page ["c"] ["c"] VUndef ] |}.

(** A channel of 73 videos served 50 to a page. *)
Definition pages73 : list Page :=
  [ page (ids 0 50) (ids 0 50) (VStr "CDIQAA");
    page (ids 50 23) (ids 50 23) VUndef ].

End Sample.

(** * Properties *)

(** ** Strings *)

Section StringFacts.
Import JsString.

Lemma append_cons (c : Ascii.ascii) (s t : string) :
  String c s +:+ t = String c (s +:+ t).
Proof. reflexivity. Qed.

Lemma append_empty_l (s : string) : "" +:+ s = s.
Proof. reflexivity. Qed.

Lemma append_empty_r (s : string) : s +:+ "" = s.
Proof. induction s as [|c s IH]; [done | by rewrite append_cons, IH]. Qed.

Lemma append_assoc (a b c : string) : (a +:+ b) +:+ c = a +:+ (b +:+ c).
Proof.
  induction a as [|x a IH]; [done | by rewrite !append_cons, IH].
Qed.

Lemma append_snoc (a : string) (c : Ascii.ascii) (b : string) :
  (a +:+ String c "") +:+ b = a +:+ String c b.
Proof. by rewrite append_assoc. Qed.

Lemma prefix_empty (s : string) : String.prefix "" s = true.
Proof. by destruct s. Qed.

Lemma prefix_append (s t : string) : String.prefix s (s +:+ t) = true.
Proof.
  induction s as [|c s IH]; [by destruct t |].
  rewrite append_cons. cbn [String.prefix].
  destruct (Ascii.ascii_dec c c); [exact IH | congruence].
Qed.

(** The characters of a separator just found are passed over. *)
Lemma split_go_skip (sep a cur rest : string) :
  split_go sep (String.length a) cur (a +:+ rest) = split_go sep 0 cur rest.
Proof.
  induction a as [|c a IH]; [by destruct rest |].
  by rewrite append_cons.
Qed.

(** Without an occurrence of the separator there is one piece. *)
Lemma split_go_none (sep s cur : string) :
  includes s sep = false -> split_go sep 0 cur s = [cur +:+ s].
Proof.
  revert cur. induction s as [|c s IH]; intros cur H.
  - by rewrite append_empty_r.
  - simpl in H. apply orb_false_iff in H as [Hp Hs].
    destruct sep as [|d sep]; [done |].
    simpl in Hp. simpl. rewrite Hp.
    rewrite IH by done. by rewrite append_snoc.
Qed.

(** [sep] does not begin at any position of [pre] in [pre +:+ after]. *)
Fixpoint no_match_before (sep pre after : string) : bool :=
  match pre with
  | EmptyString => true
  | String _ rest =>
      negb (String.prefix sep (pre +:+ after)) && no_match_before sep rest after
  end.

(** Where the separator does not begin, the characters join the piece
    being read. *)
Lemma split_go_pass (sep a b cur : string) :
  no_match_before sep a b = true ->
  split_go sep 0 cur (a +:+ b) = split_go sep 0 (cur +:+ a) b.
Proof.
  revert cur. induction a as [|c a IH]; intros cur H.
  - by rewrite append_empty_r, append_empty_l.
  - cbn [no_match_before] in H. apply andb_true_iff in H as [Hp Hn].
    apply negb_true_iff in Hp. rewrite append_cons in *.
    cbn [split_go]. rewrite Hp. rewrite IH by done.
    by rewrite append_snoc.
Qed.

(** The first piece ends where the separator first occurs. *)
Lemma split_go_first (sep pre rest cur : string) :
  sep <> "" ->
  no_match_before sep pre (sep +:+ rest) = true ->
  split_go sep 0 cur (pre +:+ (sep +:+ rest))
  = (cur +:+ pre) :: split_go sep 0 "" rest.
Proof.
  intros Hsep. revert cur. induction pre as [|c pre IH]; intros cur H.
  - rewrite append_empty_r, append_empty_l.
    destruct sep as [|d sep]; [done |].
    rewrite append_cons. cbn [split_go].
    rewrite <- append_cons, (prefix_append (String d sep) rest).
    replace (String.length (String d sep) - 1) with (String.length sep)
      by (simpl; lia).
    by rewrite split_go_skip.
  - cbn [no_match_before] in H. apply andb_true_iff in H as [Hp Hn].
    apply negb_true_iff in Hp.
    rewrite append_cons in *.
    cbn [split_go]. rewrite Hp. rewrite IH by done.
    by rewrite append_snoc.
Qed.

(** A separator of one character: where it does not occur it does not
    begin. *)
Lemma no_match_before_char (c : Ascii.ascii) (a after : string) :
  includes a (String c "") = false ->
  no_match_before (String c "") a after = true.
Proof.
  induction a as [|x a IH]; intros H; [done |].
  simpl in H. apply orb_false_iff in H as [Hp Hs].
  cbn [no_match_before]. rewrite IH by done.
  rewrite append_cons. simpl in *.
  destruct (Ascii.ascii_dec c x); [| done].
  by rewrite prefix_empty in Hp.
Qed.

(** The first piece of a split begins with what was read so far. *)
Lemma split_go_head (sep s cur : string) :
  exists x more, split_go sep 0 cur s = (cur +:+ x) :: more.
Proof.
  revert cur. induction s as [|c s IH]; intros cur; cbn [split_go].
  - exists "", []. by rewrite append_empty_r.
  - destruct sep as [|d sep].
    + exists "", (split_go "" 0 "" s). by rewrite append_empty_r.
    + destruct (String.prefix (String d sep) (String c s)).
      * eexists "", _. by rewrite append_empty_r.
      * destruct (IH (cur +:+ String c "")) as (x & more & ->).
        exists (String c x), more. by rewrite append_snoc.
Qed.

End StringFacts.

(** ** Computations *)

Section Computations.

(** Waiting may add to the trace and takes nothing from it. *)
Lemma suspend_trace (w : World) :
  exists more, trace (world (suspend w)) = (trace w ++ more)%list.
Proof.
  unfold suspend. destruct (clientLeaves w) as [[|n] |].
  - by eexists.
  - exists []. by rewrite app_nil_r.
  - exists []. by rewrite app_nil_r.
Qed.

Lemma await_trace (reply : Reply) (w : World) :
  exists more, trace (world (await reply w)) = (trace w ++ more)%list.
Proof.
  destruct (suspend_trace w) as (more & H). exists more.
  unfold await, bind.
  destruct (suspend w) as [[[] | e |] w'] eqn:Hs; cbn [world snd] in *;
    [by destruct reply | done | done].
Qed.

Lemma bind_returned {A B} (m : M A) (k : A -> M B) (w : World) b w' :
  bind m k w = (Returned b, w') ->
  exists a w1, m w = (Returned a, w1) /\ k a w1 = (Returned b, w').
Proof.
  unfold bind. destruct (m w) as [[a | e |] w1]; intros H; [| done | done].
  by exists a, w1.
Qed.

(** [catch (error) { throw error; }] changes nothing. *)
Lemma try_rethrow {A} (m : M A) (w : World) :
  try_catch m (fun error => throw error) w = m w.
Proof. unfold try_catch. by destruct (m w) as [[a | e |] w1]. Qed.

Lemma lift_returned {A} (r : Result A) (w : World) a w' :
  lift r w = (Returned a, w') -> r = Ok a /\ w' = w.
Proof. destruct r; cbn; intros [= -> ->]; done. Qed.

Lemma await_returned (reply : Reply) (w : World) data w' :
  await reply w = (Returned data, w') ->
  reply = Resolve data /\ w' = world (suspend w).
Proof.
  intros H. apply bind_returned in H as ([] & w1 & Hs & H).
  rewrite Hs. destruct reply; cbn in H; [| done | done].
  by injection H as -> ->.
Qed.

Lemma mapR_Forall2 {A B} (f : A -> Result B) (l : list A) (l' : list B) :
  mapR f l = Ok l' -> Forall2 (fun a b => f a = Ok b) l l'.
Proof.
  revert l'. induction l as [|a l IH]; intros l' H; simpl in H.
  - injection H as <-. constructor.
  - destruct (f a) as [b |] eqn:Hf; [| done]. simpl in H.
    destruct (mapR f l) as [bs |]; [| done]. simpl in H.
    injection H as <-. constructor; [done | by apply IH].
Qed.

(** The world after a turn of the event loop. *)
Definition resumed (w : World) : World := world (suspend w).

Lemma suspend_total (w : World) : suspend w = (Returned tt, resumed w).
Proof. unfold resumed, suspend. by destruct (clientLeaves w) as [[|n] |]. Qed.

Lemma suspend_videoCount (w : World) :
  videoCount (world (suspend w)) = videoCount w.
Proof. unfold suspend. by destruct (clientLeaves w) as [[|n] |]. Qed.

Lemma outcome_bind {A B} (m : M A) (k : A -> M B) (w : World) :
  outcome (bind m k w)
  = match outcome (m w) with
    | Returned a => outcome (k a (world (m w)))
    | Thrown e => Thrown e
    | Pending => Pending
    end.
Proof. unfold bind. by destruct (m w) as [[a | e |] w1]. Qed.

Lemma world_bind {A B} (m : M A) (k : A -> M B) (w : World) :
  world (bind m k w)
  = match outcome (m w) with
    | Returned a => world (k a (world (m w)))
    | _ => world (m w)
    end.
Proof. unfold bind. by destruct (m w) as [[a | e |] w1]. Qed.

Lemma bind_assoc {A B C} (m : M A) (f : A -> M B) (g : B -> M C) (w : World) :
  bind (bind m f) g w = bind m (fun a => bind (f a) g) w.
Proof. unfold bind. by destruct (m w) as [[a | e |] w1]. Qed.

Lemma run_eta {A} (r : Outcome A * World) : r = (outcome r, world r).
Proof. by destruct r. Qed.

(** The world with one more action. *)
Definition added (a : Action) (w : World) : World := world (emit a w).

Lemma emit_run (a : Action) (w : World) : emit a w = (Returned tt, added a w).
Proof. reflexivity. Qed.

Lemma ret_run {A} (a : A) (w : World) : ret a w = (Returned a, w).
Proof. reflexivity. Qed.

Lemma throw_run {A} (e : JSError) (w : World) : @throw A e w = (Thrown e, w).
Proof. reflexivity. Qed.

Lemma pending_run {A} (w : World) : @pending A w = (Pending, w).
Proof. reflexivity. Qed.

Lemma lift_ok {A} (a : A) (w : World) : lift (Ok a) w = (Returned a, w).
Proof. reflexivity. Qed.

Lemma lift_throw {A} (e : JSError) (w : World) : lift (@Throw A e) w = (Thrown e, w).
Proof. reflexivity. Qed.

Definition returned {A} (r : Outcome A * World) : bool :=
  match outcome r with
  | Returned _ => true
  | _ => false
  end.

Lemma returned_value {A} (otherwise : A) (r : Outcome A * World) :
  returned r = true -> r = (Returned (value otherwise r), world r).
Proof. unfold returned, value. by destruct r as [[a | e |] w]. Qed.

End Computations.

(** ** What a computation does to the world

    [I w w'] relates the world before a computation to the world after
    it.  When [I] is a preorder that holds across a turn of the event loop
    and across the actions called [quiet], it holds across every
    computation of the fetcher that only does quiet actions. *)

(** [I] is a preorder that holds across a turn of the event loop and
    across the actions that it calls [quiet]. *)
Class Observing (I : World -> World -> Prop) : Type := {
  quiet : Action -> Prop;
  observing_refl : forall w, I w w;
  observing_trans : forall w1 w2 w3, I w1 w2 -> I w2 w3 -> I w1 w3;
  observing_emit : forall a w, quiet a -> I w (world (emit a w));
  observing_suspend : forall w, I w (world (suspend w));
}.

Section Steps.
Import Fetcher.

Context (I : World -> World -> Prop) `{Hobserving : !Observing I}.

Let I_refl := observing_refl (I := I).
Let I_trans := observing_trans (I := I).
Let I_emit := observing_emit (I := I).
Let I_suspend := observing_suspend (I := I).

Definition steps {A} (m : M A) : Prop := forall w, I w (world (m w)).

Lemma steps_ret {A} (a : A) : steps (ret a).
Proof. intros w. apply I_refl. Qed.

Lemma steps_throw {A} (e : JSError) : steps (@throw A e).
Proof. intros w. apply I_refl. Qed.

Lemma steps_pending {A} : steps (@pending A).
Proof. intros w. apply I_refl. Qed.

Lemma steps_lift {A} (r : Result A) : steps (lift r).
Proof. destruct r; [apply steps_ret | apply steps_throw]. Qed.

Lemma steps_bind {A B} (m : M A) (k : A -> M B) :
  steps m -> (forall a, steps (k a)) -> steps (bind m k).
Proof.
  intros Hm Hk w. rewrite world_bind. specialize (Hm w).
  destruct (outcome (m w)); [| done | done].
  eapply I_trans; [exact Hm | apply Hk].
Qed.

Lemma steps_try_catch {A} (m : M A) (handler : JSError -> M A) :
  steps m -> (forall e, steps (handler e)) -> steps (try_catch m handler).
Proof.
  intros Hm Hh w. unfold try_catch. specialize (Hm w).
  destruct (m w) as [[a | e |] w1]; [done | | done].
  eapply I_trans; [exact Hm | apply Hh].
Qed.

Lemma steps_emit (a : Action) : quiet a -> steps (emit a).
Proof. intros Ha w. by apply I_emit. Qed.

Lemma steps_await (reply : Reply) : steps (await reply).
Proof.
  apply steps_bind; [exact I_suspend |].
  intros []. destruct reply; [apply steps_ret | apply steps_throw | apply steps_pending].
Qed.

Hypothesis quiet_videos_list : forall params, quiet (Call (VideosList params)).
Hypothesis quiet_timer : forall ms, quiet (Timer ms).

Lemma steps_getVideoDetails (reply : Reply) (videoIds : string) :
  steps (getVideoDetails reply videoIds).
Proof.
  apply steps_try_catch; [| intros e; apply steps_throw].
  apply steps_bind.
  - apply steps_bind; [by apply steps_emit | intros; apply steps_await].
  - intros response. destruct (Response.items response);
      [apply steps_lift | apply steps_throw].
Qed.

Lemma steps_withDetails (reply : Reply) (videos : list JSObject) :
  steps (withDetails reply videos).
Proof.
  apply steps_bind; [apply steps_lift |]. intros ids.
  apply steps_bind; [apply steps_getVideoDetails |]. intros batch.
  apply steps_lift.
Qed.

Lemma steps_delay (ms : Z) : steps (delay ms).
Proof. apply steps_bind; [by apply steps_emit | intros; exact I_suspend]. Qed.

(** What follows the search call in a turn of [getAllChannelVideos]. *)
Lemma steps_fetchPage_rest (options : Options) (page : Page)
    (allVideos : list JSObject) (response : ListData) :
  steps
    (allVideos <-
       match Response.items response with
       | Some ((_ :: _) as videos) =>
           videos <-
             (if includeDetails options
              then withDetails (details_reply page) videos
              else ret videos) ;;
           ret (allVideos ++ videos)%list
       | _ => ret allVideos
       end ;;
     let nextPageToken := Response.nextPageToken response in
     (if Js.truthy nextPageToken then delay 100 else ret tt) ;;
     ret (allVideos, nextPageToken)).
Proof.
  apply steps_bind.
  - destruct (Response.items response) as [[|video videos] |];
      try apply steps_ret.
    apply steps_bind; [| intros; apply steps_ret].
    destruct (includeDetails options); [apply steps_withDetails | apply steps_ret].
  - intros all'. apply steps_bind; [| intros; apply steps_ret].
    destruct (Js.truthy _); [apply steps_delay | apply steps_ret].
Qed.

Hypothesis quiet_call : forall request, quiet (Call request).

Lemma steps_search_list (reply : Reply) (params : JSObject) :
  steps (youtube_search_list reply params).
Proof. apply steps_bind; [by apply steps_emit | intros; apply steps_await]. Qed.

Lemma steps_getChannelId (reply : Reply) (input : JSVal) :
  steps (getChannelId reply input).
Proof.
  apply steps_try_catch; [| intros e; apply steps_throw].
  destruct input; try apply steps_throw.
  destruct (_ && _); [apply steps_ret |].
  apply steps_bind; [apply steps_lift |]. intros [channelId | query];
    [apply steps_ret |].
  apply steps_bind; [apply steps_search_list |]. intros response.
  destruct (Response.items response) as [[|first rest] |];
    [apply steps_throw | apply steps_lift | apply steps_throw].
Qed.

Lemma steps_getChannelInfo (reply : Reply) (channelId : JSVal) :
  steps (getChannelInfo reply channelId).
Proof.
  apply steps_try_catch; [| intros e; apply steps_throw].
  apply steps_bind.
  - apply steps_bind; [by apply steps_emit | intros; apply steps_await].
  - intros response.
    destruct (Response.items response) as [[|channel rest] |];
      [apply steps_throw | apply steps_lift | apply steps_throw].
Qed.

(** The streaming loop, for callbacks that keep to [I]. *)
Section Streaming.
Variable options : Options.
Hypothesis steps_onProgress :
  forall pageCount allVideos nextPageToken,
    steps (onProgress options (progress_info pageCount allVideos nextPageToken)).
Hypothesis steps_onVideos : forall videos, steps (onVideos options videos).

Lemma steps_streamPage (channelId : JSVal) (page : Page)
    (allVideos : list JSObject) (nextPageToken : JSVal) (pageCount : nat) :
  steps (streamPage channelId options page allVideos nextPageToken pageCount).
Proof.
  apply steps_bind; [apply steps_onProgress |]. intros _.
  apply steps_bind; [apply steps_search_list |]. intros response.
  apply steps_bind.
  - destruct (Response.items response) as [[|video videos] |];
      try apply steps_ret.
    apply steps_bind.
    + destruct (includeDetails options);
        [by apply steps_withDetails | apply steps_ret].
    + intros merged. apply steps_bind; [apply steps_onVideos |].
      intros; apply steps_ret.
  - intros all'. apply steps_bind; [| intros; apply steps_ret].
    destruct (Js.truthy _); [by apply steps_delay | apply steps_ret].
Qed.

Lemma steps_streamLoop (channelId : JSVal) (pages : list Page)
    (allVideos : list JSObject) (nextPageToken : JSVal) (pageCount : nat) :
  steps (streamLoop channelId options pages allVideos nextPageToken pageCount).
Proof.
  revert allVideos nextPageToken pageCount.
  induction pages as [|page rest IH]; intros allVideos nextPageToken pageCount;
    cbn [streamLoop].
  - apply steps_bind; [apply steps_streamPage | intros; apply steps_pending].
  - apply steps_bind; [apply steps_streamPage |]. intros turn.
    destruct (Js.truthy _); [apply IH | apply steps_ret].
Qed.

Lemma steps_streamAllChannelVideos (pages : list Page) (channelId : JSVal) :
  steps (streamAllChannelVideos pages channelId options).
Proof.
  apply steps_try_catch; [apply steps_streamLoop | intros; apply steps_throw].
Qed.

End Streaming.

End Steps.

(** ** Two runs side by side

    [R] relates the worlds of two runs.  When the same action and the same
    turn of the event loop keep two worlds related, the two runs of a
    computation of the fetcher from related worlds have the same outcome
    and end in related worlds. *)

Class Simulating (R : World -> World -> Prop) : Prop := {
  simulating_emit :
    forall a w w', R w w' -> R (world (emit a w)) (world (emit a w'));
  simulating_suspend :
    forall w w', R w w' -> R (world (suspend w)) (world (suspend w'));
}.

Section Related.
Import Fetcher.

Context (R : World -> World -> Prop) `{Hsimulating : !Simulating R}.

Definition related {A} (m m' : M A) : Prop :=
  forall w w',
    R w w' ->
    outcome (m w) = outcome (m' w') /\ R (world (m w)) (world (m' w')).

Lemma related_ret {A} (a : A) : related (ret a) (ret a).
Proof. by intros w w' H. Qed.

Lemma related_throw {A} (e : JSError) : related (@throw A e) (throw e).
Proof. by intros w w' H. Qed.

Lemma related_pending {A} : related (@pending A) pending.
Proof. by intros w w' H. Qed.

Lemma related_lift {A} (r : Result A) : related (lift r) (lift r).
Proof. destruct r; [apply related_ret | apply related_throw]. Qed.

Lemma related_bind {A B} (m m' : M A) (k k' : A -> M B) :
  related m m' -> (forall a, related (k a) (k' a)) ->
  related (bind m k) (bind m' k').
Proof.
  intros Hm Hk w w' H. rewrite !outcome_bind, !world_bind.
  destruct (Hm w w' H) as [-> H']. destruct (outcome (m' w')); [| done | done].
  by apply Hk.
Qed.

Lemma related_try_catch {A} (m m' : M A) (handler handler' : JSError -> M A) :
  related m m' -> (forall e, related (handler e) (handler' e)) ->
  related (try_catch m handler) (try_catch m' handler').
Proof.
  intros Hm Hh w w' H. unfold try_catch. destruct (Hm w w' H) as [Ho H'].
  rewrite (run_eta (m w)), (run_eta (m' w')), Ho.
  destruct (outcome (m' w')); [done | | done]. by apply Hh.
Qed.

Lemma related_emit (a : Action) : related (emit a) (emit a).
Proof. intros w w' H. split; [done | by apply simulating_emit]. Qed.

Lemma related_suspend : related suspend suspend.
Proof.
  intros w w' H. rewrite (suspend_total w), (suspend_total w').
  split; [done | by apply simulating_suspend].
Qed.

Lemma related_await (reply : Reply) : related (await reply) (await reply).
Proof.
  apply related_bind; [apply related_suspend |]. intros [].
  destruct reply; [apply related_ret | apply related_throw | apply related_pending].
Qed.

Lemma related_search_list (reply : Reply) (params : JSObject) :
  related (youtube_search_list reply params) (youtube_search_list reply params).
Proof. apply related_bind; [apply related_emit | intros; apply related_await]. Qed.

Lemma related_getVideoDetails (reply : Reply) (videoIds : string) :
  related (getVideoDetails reply videoIds) (getVideoDetails reply videoIds).
Proof.
  apply related_try_catch; [| intros; apply related_throw].
  apply related_bind.
  - apply related_bind; [apply related_emit | intros; apply related_await].
  - intros response. destruct (Response.items response);
      [apply related_lift | apply related_throw].
Qed.

Lemma related_withDetails (reply : Reply) (videos : list JSObject) :
  related (withDetails reply videos) (withDetails reply videos).
Proof.
  apply related_bind; [apply related_lift |]. intros ids.
  apply related_bind; [apply related_getVideoDetails |]. intros batch.
  apply related_lift.
Qed.

Lemma related_delay (ms : Z) : related (delay ms) (delay ms).
Proof. apply related_bind; [apply related_emit | intros; apply related_suspend]. Qed.

Lemma related_getChannelId (reply : Reply) (input : JSVal) :
  related (getChannelId reply input) (getChannelId reply input).
Proof.
  apply related_try_catch; [| intros; apply related_throw].
  destruct input; try apply related_throw.
  destruct (_ && _); [apply related_ret |].
  apply related_bind; [apply related_lift |]. intros [channelId | query];
    [apply related_ret |].
  apply related_bind; [apply related_search_list |]. intros response.
  destruct (Response.items response) as [[|first rest] |];
    [apply related_throw | apply related_lift | apply related_throw].
Qed.

Lemma related_getChannelInfo (reply : Reply) (channelId : JSVal) :
  related (getChannelInfo reply channelId) (getChannelInfo reply channelId).
Proof.
  apply related_try_catch; [| intros; apply related_throw].
  apply related_bind.
  - apply related_bind; [apply related_emit | intros; apply related_await].
  - intros response.
    destruct (Response.items response) as [[|channel rest] |];
      [apply related_throw | apply related_lift | apply related_throw].
Qed.

(** A step of the first run that the second run does not make. *)
Lemma related_left {B} (m : M unit) (k k' : M B) :
  (forall w, outcome (m w) = Returned tt) ->
  (forall w w', R w w' -> R (world (m w)) w') ->
  related k k' ->
  related (m ;; k) k'.
Proof.
  intros Hm HR Hk w w' H. rewrite outcome_bind, world_bind, Hm.
  apply Hk. by apply HR.
Qed.

(** The streaming loop, for callbacks that keep two runs related. *)
Section Streaming.
Variable options : Options.
Hypothesis related_onProgress :
  forall info, related (onProgress options info) (onProgress options info).
Hypothesis related_onVideos :
  forall videos, related (onVideos options videos) (onVideos options videos).

Lemma related_streamPage (channelId : JSVal) (page : Page)
    (allVideos : list JSObject) (nextPageToken : JSVal) (pageCount : nat) :
  related
    (streamPage channelId options page allVideos nextPageToken pageCount)
    (streamPage channelId options page allVideos nextPageToken pageCount).
Proof.
  apply related_bind; [apply related_onProgress |]. intros _.
  apply related_bind; [apply related_search_list |]. intros response.
  apply related_bind.
  - destruct (Response.items response) as [[|video videos] |];
      try apply related_ret.
    apply related_bind.
    + destruct (includeDetails options);
        [apply related_withDetails | apply related_ret].
    + intros merged. apply related_bind; [apply related_onVideos |].
      intros; apply related_ret.
  - intros all'. apply related_bind; [| intros; apply related_ret].
    destruct (Js.truthy _); [apply related_delay | apply related_ret].
Qed.

Lemma related_streamLoop (channelId : JSVal) (pages : list Page)
    (allVideos : list JSObject) (nextPageToken : JSVal) (pageCount : nat) :
  related
    (streamLoop channelId options pages allVideos nextPageToken pageCount)
    (streamLoop channelId options pages allVideos nextPageToken pageCount).
Proof.
  revert allVideos nextPageToken pageCount.
  induction pages as [|page rest IH]; intros allVideos nextPageToken pageCount;
    cbn [streamLoop].
  - apply related_bind; [apply related_streamPage | intros; apply related_pending].
  - apply related_bind; [apply related_streamPage |]. intros turn.
    destruct (Js.truthy _); [apply IH | apply related_ret].
Qed.

Lemma related_streamAllChannelVideos (pages : list Page) (channelId : JSVal) :
  related
    (streamAllChannelVideos pages channelId options)
    (streamAllChannelVideos pages channelId options).
Proof.
  apply related_try_catch; [apply related_streamLoop | intros; apply related_throw].
Qed.

End Streaming.

End Related.

(** The structure of a computation decides what it does to the world. *)
Ltac steps_auto :=
  repeat
    match goal with
    | |- forall _, _ => intros ?
    | |- steps _ (if ?b then _ else _) => destruct b
    | |- steps _ (match ?x with _ => _ end) => destruct x
    | |- steps ?I _ =>
        first
          [ apply (steps_ret I) | apply (steps_throw I) | apply (steps_pending I)
          | apply (steps_lift I) | apply (steps_await I)
          | (apply (steps_delay I); done)
          | (apply (steps_withDetails I); done)
          | (apply (steps_getVideoDetails I); done)
          | (apply (steps_emit I); done)
          | apply (steps_try_catch I) | apply (steps_bind I) ]
    end.

(** Runs the part of a computation that does not depend on the replies. *)
Ltac run :=
  repeat first
    [ rewrite suspend_total
    | rewrite outcome_bind
    | rewrite world_bind
    | rewrite emit_run
    | rewrite ret_run
    | rewrite throw_run
    | rewrite pending_run
    | rewrite lift_ok
    | rewrite lift_throw
    | progress cbn [outcome world fst snd] ].

(** ** The channel resolver *)

Section Resolver.
Import JsString Js Fetcher.

(** The canonical shape of a channel id: the prefix [UC] and 24
    characters in all. *)
Definition canonical (s : string) : bool :=
  startsWith s "UC" && (String.length s =? 24)%nat.

(** The channel path segment of a URL. *)
Definition channel_path : string := "youtube.com/channel/".

(** The parameters of the channel search for [q]. *)
Definition channel_query (q : string) : JSObject :=
  <["part" := VStr "snippet"]>
    (<["q" := VStr q]>
       (<["type" := VStr "channel"]>
          (<["maxResults" := VNum 1]> ∅))).

(** C7. An input of the canonical shape (prefix [UC], 24 characters) is
    returned as it is and the world is left as it was: no call goes out,
    whatever upstream would have replied.  Resolving the same id a second
    time gives the same id and again changes nothing. *)
Theorem canonical_id_is_returned_unchanged
    (reply reply' : Reply) (input : string) (w : World) :
  startsWith input "UC" = true ->
  String.length input = 24 ->
  getChannelId reply (VStr input) w = (Returned (VStr input), w)
  /\ getChannelId reply' (VStr input) (world (getChannelId reply (VStr input) w))
     = (Returned (VStr input), w).
Proof.
  intros Hprefix Hlength.
  assert (Hrun : forall r, getChannelId r (VStr input) w = (Returned (VStr input), w)).
  { intros r. unfold getChannelId, try_catch.
    by rewrite Hprefix, Hlength. }
  split; [apply Hrun |]. by rewrite !Hrun.
Qed.

Lemma canonical_id_is_returned_unchanged_example :
  getChannelId NoReply (VStr "UCBJycsmduvYEL83R_U4JriQ") (start None)
  = (Returned (VStr "UCBJycsmduvYEL83R_U4JriQ"), start None)
  /\ getChannelId (Reject (Error "quota"))
       (VStr "UCBJycsmduvYEL83R_U4JriQ")
       (world (getChannelId NoReply (VStr "UCBJycsmduvYEL83R_U4JriQ") (start None)))
     = (Returned (VStr "UCBJycsmduvYEL83R_U4JriQ"), start None).
Proof.
  apply (canonical_id_is_returned_unchanged NoReply (Reject (Error "quota"))
           "UCBJycsmduvYEL83R_U4JriQ" (start None)); reflexivity.
Defined.

(** The piece before a query string or a further slash. *)
Lemma split_component (a tail : string) :
  includes a "?" = false ->
  includes a "/" = false ->
  tail = "" \/ startsWith tail "?" = true \/ startsWith tail "/" = true ->
  exists path more more',
    split (a +:+ tail) "?" = path :: more /\ split path "/" = a :: more'.
Proof.
  intros Hq Hs Htail. unfold split.
  assert (Hone : split_go "/" 0 "" a = [a]) by by rewrite split_go_none.
  destruct Htail as [-> | [Ht | Ht]].
  - exists a, [], []. by rewrite append_empty_r, split_go_none.
  - destruct tail as [|x t]; [done |].
    unfold startsWith in Ht. cbn [String.prefix] in Ht.
    destruct (Ascii.ascii_dec _ x) as [<- |]; [| done].
    exists a. do 2 eexists. split; [| exact Hone].
    by apply (split_go_first "?" a t "" ltac:(done)), no_match_before_char.
  - destruct tail as [|x t]; [done |].
    unfold startsWith in Ht. cbn [String.prefix] in Ht.
    destruct (Ascii.ascii_dec _ x) as [<- |]; [| done].
    rewrite (split_go_pass "?") by by apply no_match_before_char.
    rewrite append_empty_l. cbn [split_go].
    change (String.prefix "?" (String _ t)) with false. cbn iota.
    destruct (split_go_head "?" t (a +:+ "/")) as (y & more & ->).
    exists ((a +:+ "/") +:+ y), more. eexists. split; [done |].
    rewrite append_snoc.
    by apply (split_go_first "/" a y "" ltac:(done)), no_match_before_char.
Qed.

(** The component that [getChannelId] takes from a channel URL
    [pre ++ "youtube.com/channel/" ++ component ++ tail]. *)
Lemma path_component_of_url (pre component tail : string) :
  no_match_before channel_path pre (channel_path +:+ (component +:+ tail)) = true ->
  includes (component +:+ tail) channel_path = false ->
  includes component "?" = false ->
  includes component "/" = false ->
  tail = "" \/ startsWith tail "?" = true \/ startsWith tail "/" = true ->
  path_component (pre +:+ (channel_path +:+ (component +:+ tail))) channel_path
  = Ok component.
Proof.
  intros Hfirst Hlast Hq Hs Htail. unfold path_component, split.
  rewrite (split_go_first channel_path) by done.
  rewrite split_go_none by done. cbn [at_index lookup list_lookup rbind].
  rewrite !append_empty_l.
  destruct (split_component component tail Hq Hs Htail)
    as (path & more & more' & Hpath & Hcomp).
  unfold split in *. by rewrite Hpath; cbn; rewrite Hcomp.
Qed.

Lemma includes_first (pre sep rest : string) :
  includes (pre +:+ (sep +:+ rest)) sep = true.
Proof.
  induction pre as [|c pre IH].
  - rewrite append_empty_l. destruct sep; [by destruct rest |].
    rewrite append_cons. cbn [includes]. rewrite <- append_cons.
    by rewrite prefix_append.
  - rewrite append_cons. cbn [includes]. rewrite IH. apply orb_true_r.
Qed.

(** C8 as the specification has it, at one input: the component of the
    URL is returned without a call exactly when it has the canonical
    shape. *)
Definition returned_iff_canonical (input : string) : Prop :=
  forall component reply w,
    path_component input channel_path = Ok component ->
    getChannelId reply (VStr input) w = (Returned (VStr component), w)
    <-> canonical component = true.

(** C8, counterexample. The component [UCshort] has 7 characters, not
    24, and is returned without a call all the same. *)
Lemma short_component_is_returned :
  ~ returned_iff_canonical "https://www.youtube.com/channel/UCshort".
Proof.
  intros claim.
  assert (H : canonical "UCshort" = true); [| done].
  by apply (claim "UCshort" NoReply (start None)).
Qed.

(** C8, amended. Of a channel URL that is not itself of the canonical
    shape, [getChannelId] takes the component after the channel path, up
    to a query string or a further slash.  When the component starts with
    [UC], whatever its length, it is returned as it is and no call goes
    out; otherwise the channel search goes out with the component as its
    query. *)
Theorem channel_url_component
    (pre component tail : string) (reply : Reply) (w : World) :
  let input := pre +:+ (channel_path +:+ (component +:+ tail)) in
  canonical input = false ->
  no_match_before channel_path pre (channel_path +:+ (component +:+ tail)) = true ->
  includes (component +:+ tail) channel_path = false ->
  includes component "?" = false ->
  includes component "/" = false ->
  tail = "" \/ startsWith tail "?" = true \/ startsWith tail "/" = true ->
  if startsWith component "UC"
  then getChannelId reply (VStr input) w = (Returned (VStr component), w)
  else exists more,
      trace (world (getChannelId reply (VStr input) w))
      = (trace w ++ Call (SearchList (channel_query component)) :: more)%list.
Proof.
  intros input Hshape Hfirst Hlast Hq Hs Htail.
  pose proof (path_component_of_url pre component tail Hfirst Hlast Hq Hs Htail)
    as Hcomp.
  unfold getChannelId, try_catch. fold (canonical input). rewrite Hshape.
  unfold channelIdentifier. fold channel_path. fold input in Hcomp.
  rewrite (includes_first pre channel_path _ : includes input channel_path = true).
  rewrite Hcomp. cbn [rbind].
  destruct (startsWith component "UC"); [done |].
  cbn [lift ret bind]. fold (channel_query component).
  unfold youtube_search_list, bind, emit.
  match goal with |- context [await reply ?w'] =>
    destruct (await_trace reply w') as (more & Hmore) end.
  destruct (await reply _) as [[data | e |] w'] eqn:Hawait;
    cbn [trace] in Hmore.
  - destruct (Response.items data) as [[|first rest] |];
      cbn [throw lift]; try (eexists; rewrite <- app_assoc in Hmore; exact Hmore).
    destruct (prop _ _); cbn [lift throw ret world snd];
      eexists; rewrite <- app_assoc in Hmore; exact Hmore.
  - eexists. rewrite <- app_assoc in Hmore. exact Hmore.
  - eexists. rewrite <- app_assoc in Hmore. exact Hmore.
Qed.

Lemma channel_url_component_example :
  getChannelId NoReply
    (VStr "https://www.youtube.com/channel/UCBJycsmduvYEL83R_U4JriQ?si=abc")
    (start None)
  = (Returned (VStr "UCBJycsmduvYEL83R_U4JriQ"), start None).
Proof.
  apply (channel_url_component "https://www." "UCBJycsmduvYEL83R_U4JriQ"
           "?si=abc" NoReply (start None));
    [reflexivity | reflexivity | reflexivity | reflexivity | reflexivity |].
  right; left; reflexivity.
Defined.

End Resolver.

(** ** The merge of a page with its detail batch *)

Section Merge.
Import JsString Js Fetcher.

(** The fields of a record of [getVideoDetails]. *)
Definition detail_fields : list string :=
  ["id"; "title"; "description"; "publishedAt"; "thumbnail"; "duration";
   "viewCount"; "likeCount"; "commentCount"; "tags"].

(** The first record of the batch whose id is [id]. *)
Definition matching (batch : list JSObject) (id : JSVal) : option JSObject :=
  List.find (fun detail => strict_eq (field detail "id") id) batch.

(** The video id of a search result, as the API gives it: the [videoId]
    of its composite [id]. *)
Definition summary_key (summary : JSObject) : JSVal :=
  match summary !! "id" with
  | Some (VObj composite) => default VUndef (composite !! "videoId")
  | _ => VUndef
  end.

(** [video] is what is delivered for [summary] when its page came with
    [batch]: when the batch has a record whose [id] is the video id of the
    summary, the fields of the first such record over those of the
    summary, the ten detail fields among them; when it has none, the
    summary as it is. *)
Definition delivered_as (summary : JSObject) (batch : list JSObject)
    (video : JSObject) : Prop :=
  match matching batch (summary_key summary) with
  | Some detail =>
      video = detail ∪ summary /\
      Forall (fun k => is_Some (detail !! k) /\ video !! k = detail !! k)
        detail_fields
  | None => video = summary
  end.

(** The detail batch that [getVideoDetails] makes of the reply of a
    page. *)
Definition batch_of (page : Page) : list JSObject :=
  match details_reply page with
  | Resolve data =>
      match Response.items data with
      | Some videos =>
          match mapR videoDetail videos with
          | Ok batch => batch
          | Throw _ => []
          end
      | None => []
      end
  | _ => []
  end.

(** The search items of a page. *)
Definition summaries_of (data : ListData) : list JSObject :=
  default [] (Response.items data).

(** The summaries of a run, each with the detail batch of its page: the
    pages up to the first one without a continuation token. *)
Fixpoint summaries (pages : list Page) : list (JSObject * list JSObject) :=
  match pages with
  | [] => []
  | page :: rest =>
      match search_reply page with
      | Resolve data =>
          (map (fun summary => (summary, batch_of page)) (summaries_of data) ++
           if truthy (Response.nextPageToken data) then summaries rest else [])%list
      | _ => []
      end
  end.

Lemma videoDetail_fields (video detail : JSObject) :
  videoDetail video = Ok detail ->
  Forall (fun k => is_Some (detail !! k)) detail_fields.
Proof.
  unfold videoDetail. intros H.
  repeat match type of H with
         | rbind ?r _ = _ => destruct r; cbn [rbind] in H; [| done]
         end.
  injection H as <-.
  repeat constructor; by eexists.
Qed.

Lemma find_detail_matching (batch : list JSObject) (video : JSObject) id :
  videoId video = Ok id ->
  find_detail batch video = Ok (matching batch id).
Proof.
  intros Hid. induction batch as [|detail batch IH]; [done |].
  cbn [find_detail matching List.find]. rewrite Hid. cbn [rbind].
  by destruct (strict_eq (field detail "id") id).
Qed.

Lemma matching_elem (batch : list JSObject) id detail :
  matching batch id = Some detail ->
  detail ∈ batch /\ strict_eq (field detail "id") id = true.
Proof.
  unfold matching. intros H. apply find_some in H as [Hin Heq].
  by rewrite list_elem_of_In.
Qed.

(** The key that the code reads, [video.id.videoId], is the video id of
    the summary. *)
Lemma videoId_key (summary : JSObject) id :
  videoId summary = Ok id -> summary_key summary = id.
Proof.
  unfold videoId, prop, summary_key, field.
  destruct (summary !! "id") as [[] |]; cbn [default]; try done; by intros [= <-].
Qed.

(** One summary, merged. *)
Lemma merge_delivers (batch : list JSObject) (summary video : JSObject) id :
  Forall (fun detail => Forall (fun k => is_Some (detail !! k)) detail_fields) batch ->
  videoId summary = Ok id ->
  merge batch summary = Ok video ->
  delivered_as summary batch video.
Proof.
  intros Hbatch Hid Hmerge. unfold delivered_as. rewrite (videoId_key _ _ Hid).
  unfold merge in Hmerge. rewrite (find_detail_matching _ _ _ Hid) in Hmerge.
  cbn [rbind] in Hmerge. injection Hmerge as <-.
  destruct (matching batch id) as [detail |] eqn:Hm; cbn [spread default].
  - split; [done |].
    apply matching_elem in Hm as [Hin _].
    rewrite Forall_forall in Hbatch. specialize (Hbatch _ Hin).
    eapply Forall_impl; [exact Hbatch |].
    intros k [v Hv]. cbn beta. split; [by eexists |].
    by rewrite (lookup_union_Some_l _ _ _ _ Hv).
  - by rewrite (left_id_L ∅ (∪)).
Qed.

Lemma mapR_both {A B C} (f : A -> Result B) (g : A -> Result C)
    (R : A -> C -> Prop) (l : list A) (bs : list B) (cs : list C) :
  (forall a b c, f a = Ok b -> g a = Ok c -> R a c) ->
  mapR f l = Ok bs -> mapR g l = Ok cs -> Forall2 R l cs.
Proof.
  intros HR Hf Hg. apply mapR_Forall2 in Hf, Hg.
  revert bs Hf. induction Hg as [|a c l cs Ha Hg IH]; intros bs Hf;
    [constructor |].
  inversion Hf as [|? b ? bs' Hb Hf']; subst.
  constructor; [by eapply HR | by eapply IH].
Qed.

Lemma getVideoDetails_returned (reply : Reply) (videoIds : string)
    (w : World) batch w' :
  getVideoDetails reply videoIds w = (Returned batch, w') ->
  exists data videos,
    reply = Resolve data /\ Response.items data = Some videos /\
    mapR videoDetail videos = Ok batch.
Proof.
  unfold getVideoDetails. rewrite try_rethrow. intros H.
  apply bind_returned in H as (response & w1 & Hcall & H).
  apply bind_returned in Hcall as ([] & w2 & _ & Hawait).
  apply await_returned in Hawait as [-> _].
  destruct (Response.items response) as [videos |] eqn:Hitems; [| done].
  apply lift_returned in H as [H _]. by exists response, videos.
Qed.

Lemma batch_fields (videos batch : list JSObject) :
  mapR videoDetail videos = Ok batch ->
  Forall (fun detail => Forall (fun k => is_Some (detail !! k)) detail_fields) batch.
Proof.
  intros H. apply mapR_Forall2 in H.
  induction H as [|? ? ? ? Hd]; constructor; [| done].
  by eapply videoDetail_fields.
Qed.

(** One page, merged: every summary is there, once and in its place. *)
Lemma withDetails_returned (page : Page) (videos : list JSObject)
    (w : World) merged w' :
  withDetails (details_reply page) videos w = (Returned merged, w') ->
  Forall2 (fun summary video => delivered_as summary (batch_of page) video)
    videos merged.
Proof.
  unfold withDetails. intros H.
  apply bind_returned in H as (ids & w1 & Hids & H).
  apply lift_returned in Hids as [Hids ->].
  apply bind_returned in H as (batch & w2 & Hbatch & H).
  apply lift_returned in H as [Hmerge ->].
  apply getVideoDetails_returned in Hbatch as (data & raw & Hreply & Hitems & Hraw).
  assert (batch_of page = batch) as ->
    by by unfold batch_of; rewrite Hreply, Hitems, Hraw.
  eapply mapR_both; [| exact Hids | exact Hmerge].
  intros summary id video Hid Hm. eapply merge_delivers; [| done | done].
  by eapply batch_fields.
Qed.

Lemma fetchPage_returned (channelId : JSVal) (options : Options) (page : Page)
    (allVideos : list JSObject) (nextPageToken : JSVal) (w : World) turn w' :
  includeDetails options = true ->
  fetchPage channelId options page allVideos nextPageToken w = (Returned turn, w') ->
  exists data new,
    search_reply page = Resolve data /\
    turn = ((allVideos ++ new)%list, Response.nextPageToken data) /\
    Forall2 (fun summary video => delivered_as summary (batch_of page) video)
      (summaries_of data) new.
Proof.
  intros Hdetails H. unfold fetchPage in H. rewrite Hdetails in H.
  apply bind_returned in H as (response & w1 & Hcall & H).
  apply bind_returned in Hcall as ([] & w2 & _ & Hawait).
  apply await_returned in Hawait as [Hreply _].
  apply bind_returned in H as (all' & w3 & Hall & H).
  apply bind_returned in H as ([] & w4 & _ & H).
  injection H as <- _.
  exists response. unfold summaries_of.
  destruct (Response.items response) as [[|video videos] |].
  - injection Hall as <- _. exists []. by rewrite app_nil_r.
  - apply bind_returned in Hall as (merged & w5 & Hmerged & Hall).
    injection Hall as <- _. exists merged.
    repeat split; [done |]. by eapply withDetails_returned.
  - injection Hall as <- _. exists []. by rewrite app_nil_r.
Qed.

Lemma fetchLoop_returned (channelId : JSVal) (options : Options)
    (pages : list Page) (allVideos : list JSObject) (nextPageToken : JSVal)
    (w : World) out w' :
  includeDetails options = true ->
  fetchLoop channelId options pages allVideos nextPageToken w = (Returned out, w') ->
  exists new,
    out = (allVideos ++ new)%list /\
    Forall2 (fun '(summary, batch) video => delivered_as summary batch video)
      (summaries pages) new.
Proof.
  intros Hdetails. revert allVideos nextPageToken w.
  induction pages as [|page rest IH]; intros allVideos nextPageToken w H;
    cbn [fetchLoop] in H.
  - by apply bind_returned in H as (? & ? & _ & H).
  - apply bind_returned in H as (turn & w1 & Hpage & H).
    apply fetchPage_returned in Hpage as (data & new & Hreply & -> & Hnew);
      [| done].
    cbn [fst snd] in H. cbn [summaries]. rewrite Hreply.
    assert (Hhere :
      Forall2 (fun '(summary, batch) video => delivered_as summary batch video)
        (map (fun summary => (summary, batch_of page)) (summaries_of data)) new).
    { clear -Hnew. induction Hnew; constructor; done. }
    destruct (truthy (Response.nextPageToken data)).
    + apply IH in H as (more & -> & Hmore).
      exists (new ++ more)%list. split; [by rewrite app_assoc |].
      by apply Forall2_app.
    + injection H as <- _. exists new. split; [done |].
      by rewrite app_nil_r.
Qed.

Lemma getAllChannelVideos_returned
    (pages : list Page) (channelId : JSVal) (options : Options)
    (w : World) (videos : list JSObject) (w' : World) :
  includeDetails options = true ->
  getAllChannelVideos pages channelId options w = (Returned videos, w') ->
  Forall2 (fun '(summary, batch) video => delivered_as summary batch video)
    (summaries pages) videos.
Proof.
  intros Hdetails H. unfold getAllChannelVideos in H. rewrite try_rethrow in H.
  by apply fetchLoop_returned in H as (new & -> & Hnew).
Qed.

(** C3. When [getAllChannelVideos] returns with details included, its
    array matches the summaries of the pages one for one and in order:
    every summary of every page is delivered exactly once.  The delivered
    video has the ten detail fields, with the values of the record, when
    the detail batch of its page has a record whose [id] is the video id
    of the summary, the [videoId] of its composite [id]; otherwise it is
    the summary as it came, without detail fields.  No summary is dropped
    for want of a detail record. *)
Theorem every_summary_is_delivered_once
    (pages : list Page) (channelId : JSVal) (options : Options)
    (w : World) (videos : list JSObject) (w' : World) :
  includeDetails options = true ->
  getAllChannelVideos pages channelId options w = (Returned videos, w') ->
  Forall2 (fun '(summary, batch) video => delivered_as summary batch video)
    (summaries pages) videos
  /\ length videos = length (summaries pages).
Proof.
  intros Hdetails H.
  pose proof (getAllChannelVideos_returned _ _ _ _ _ _ Hdetails H) as Hall.
  split; [done |]. symmetry. by eapply Forall2_length.
Qed.

(** Two summaries, a detail record for the second one only: both are
    delivered, the first as it came, without a duration or a view count,
    the second with those of its record and with its own [kind]. *)
Lemma every_summary_is_delivered_once_example :
  let run :=
    getAllChannelVideos [Sample.page ["a"; "b"] ["b"] VUndef]
      (VStr "UCBJycsmduvYEL83R_U4JriQ") default_options (start None) in
  (Forall2 (fun '(summary, batch) video => delivered_as summary batch video)
     (summaries [Sample.page ["a"; "b"] ["b"] VUndef]) (value [] run)
   /\ length (value [] run) = length (summaries [Sample.page ["a"; "b"] ["b"] VUndef]))
  /\ map (fun video => (video !! "duration", video !! "viewCount", video !! "kind"))
       (value [] run)
     = [ (None, None, Some (VStr "youtube#searchResult"));
         (Some (VStr "PT1M"), Some (VStr "10"), Some (VStr "youtube#searchResult")) ].
Proof.
  intros run. split.
  - apply (every_summary_is_delivered_once
             [Sample.page ["a"; "b"] ["b"] VUndef] (VStr "UCBJycsmduvYEL83R_U4JriQ")
             default_options (start None) (value [] run) (world run));
      [reflexivity | apply returned_value; vm_compute; reflexivity].
  - vm_compute; reflexivity.
Defined.

(** The id of a record is the string [id]. *)
Definition has_id (id : string) (detail : JSObject) : Prop :=
  field detail "id" = VStr id.

Lemma strict_eq_string (v : JSVal) (id : string) :
  strict_eq v (VStr id) = true <-> v = VStr id.
Proof.
  destruct v; cbn; try (split; [done | discriminate]).
  rewrite String.eqb_eq. split; [by intros -> | by intros [= ->]].
Qed.

Lemma matching_Some (batch : list JSObject) (id : string) detail :
  matching batch (VStr id) = Some detail -> has_id id detail.
Proof.
  intros H. apply matching_elem in H as [_ H]. by apply strict_eq_string.
Qed.

Lemma matching_None (batch : list JSObject) (id : string) :
  matching batch (VStr id) = None -> Forall (fun detail => ~ has_id id detail) batch.
Proof.
  intros H. apply Forall_forall. intros detail Hin Hid.
  apply list_elem_of_In in Hin.
  apply (find_none _ _ H) in Hin. apply strict_eq_string in Hid. congruence.
Qed.

(** The search result keeps its video id in a composite object. *)
Lemma videoId_composite (summary : JSObject) (id : string) :
  videoId summary = Ok (VStr id) ->
  exists composite,
    field summary "id" = VObj composite /\ field composite "videoId" = VStr id.
Proof.
  unfold videoId, prop. destruct (field summary "id"); try done.
  intros [= H]. by eexists.
Qed.

(** The shape of the [id] of what is delivered for a summary whose video
    id is the string [id]. *)
Definition id_shape (summary : JSObject) (batch : list JSObject)
    (video : JSObject) : Prop :=
  forall id,
    videoId summary = Ok (VStr id) ->
    (Exists (has_id id) batch -> field video "id" = VStr id) /\
    (Forall (fun detail => ~ has_id id detail) batch ->
     field video "id" = field summary "id" /\
     exists composite,
       field video "id" = VObj composite /\ field composite "videoId" = VStr id).

Lemma delivered_id_shape (summary : JSObject) (batch : list JSObject)
    (video : JSObject) :
  delivered_as summary batch video -> id_shape summary batch video.
Proof.
  intros H id Hid. unfold delivered_as in H. rewrite (videoId_key _ _ Hid) in H.
  destruct (matching batch (VStr id)) as [detail |] eqn:Hm.
  - destruct H as [-> _]. pose proof (matching_Some _ _ _ Hm) as Hdetail.
    split.
    + intros _. unfold has_id, field in *.
      destruct (detail !! "id") as [v |] eqn:Hv; [| done].
      by rewrite (lookup_union_Some_l _ _ _ _ Hv).
    + intros Hnone. apply matching_elem in Hm as [Hin _].
      rewrite Forall_forall in Hnone. by destruct (Hnone _ Hin).
  - subst video. split.
    + intros Hsome. apply matching_None in Hm.
      apply Exists_exists in Hsome as (detail & Hin & Hdetail).
      rewrite Forall_forall in Hm. by destruct (Hm _ Hin).
    + intros _. split; [done |]. by apply videoId_composite.
Qed.

(** C9. Of the videos that [getAllChannelVideos] returns with details
    included, the [id] is the plain video id string where the detail
    batch of the page has a record with that id (the [id] of the record
    replaces the composite [id] of the search result), and stays the
    composite object of the search result, [{kind, videoId}], where it
    has none: the [id] of the delivered videos has no single type. *)
Theorem id_field_follows_the_merge
    (pages : list Page) (channelId : JSVal) (options : Options)
    (w : World) (videos : list JSObject) (w' : World) :
  includeDetails options = true ->
  getAllChannelVideos pages channelId options w = (Returned videos, w') ->
  Forall2 (fun '(summary, batch) video => id_shape summary batch video)
    (summaries pages) videos.
Proof.
  intros Hdetails H.
  eapply Forall2_impl; [by eapply getAllChannelVideos_returned |].
  intros [summary batch] video. apply delivered_id_shape.
Qed.

(** Two videos of one page: the first has no detail record and keeps the
    composite [id], the second has one and gets the string. *)
Lemma id_field_follows_the_merge_example :
  let run :=
    getAllChannelVideos [Sample.page ["a"; "b"] ["b"] VUndef]
      (VStr "UCBJycsmduvYEL83R_U4JriQ") default_options (start None) in
  Forall2 (fun '(summary, batch) video => id_shape summary batch video)
    (summaries [Sample.page ["a"; "b"] ["b"] VUndef]) (value [] run)
  /\ map (fun video => field video "id") (value [] run)
     = [ VObj (<["kind" := VStr "youtube#video"]> (<["videoId" := VStr "a"]> ∅));
         VStr "b" ].
Proof.
  intros run. split.
  - apply (id_field_follows_the_merge
             [Sample.page ["a"; "b"] ["b"] VUndef] (VStr "UCBJycsmduvYEL83R_U4JriQ")
             default_options (start None) (value [] run) (world run));
      [reflexivity | apply returned_value; vm_compute; reflexivity].
  - vm_compute; reflexivity.
Defined.

End Merge.

(** ** Pagination *)

Section Pagination.
Import Js Fetcher.

Definition is_search (a : Action) : bool :=
  match a with
  | Call (SearchList _) => true
  | _ => false
  end.

(** The number of search calls made so far. *)
Definition search_calls (w : World) : nat :=
  length (List.filter is_search (trace w)).

(** The reply to the search of the page carries a continuation cursor:
    a [nextPageToken] that the loop takes for one. *)
Definition has_cursor (page : Page) : bool :=
  match search_reply page with
  | Resolve data => truthy (Response.nextPageToken data)
  | _ => false
  end.

Definition cursor (page : Page) : JSVal :=
  match search_reply page with
  | Resolve data => Response.nextPageToken data
  | _ => VUndef
  end.

(** The detail call for [videos] succeeds: every search item has an
    [id], upstream resolves with a list, and every record of it has the
    parts that [getVideoDetails] reads. *)
Definition details_answered (page : Page) (videos : list JSObject) : bool :=
  match mapR videoId videos, details_reply page with
  | Ok _, Resolve data =>
      match Response.items data with
      | Some raw =>
          match mapR videoDetail raw with
          | Ok _ => true
          | Throw _ => false
          end
      | None => false
      end
  | _, _ => false
  end.

(** The calls of the page succeed. *)
Definition answered (options : Options) (page : Page) : bool :=
  match search_reply page with
  | Resolve data =>
      match Response.items data with
      | Some ((_ :: _) as videos) =>
          if includeDetails options then details_answered page videos else true
      | _ => true
      end
  | _ => false
  end.

(** The number of search items of the page. *)
Definition page_size (page : Page) : nat :=
  match search_reply page with
  | Resolve data => length (summaries_of data)
  | _ => 0
  end.

(** The videos that a turn of the loop adds for the page. *)
Definition delivered (options : Options) (page : Page) : list JSObject :=
  match search_reply page with
  | Resolve data =>
      match Response.items data with
      | Some ((_ :: _) as videos) =>
          if includeDetails options then
            match mapR (merge (batch_of page)) videos with
            | Ok merged => merged
            | Throw _ => []
            end
          else videos
      | _ => []
      end
  | _ => []
  end.

Lemma mapR_length {A B} (f : A -> Result B) (l : list A) (l' : list B) :
  mapR f l = Ok l' -> length l' = length l.
Proof. intros H. apply mapR_Forall2 in H. symmetry. by eapply Forall2_length. Qed.

Lemma merge_total (batch videos : list JSObject) ids :
  mapR videoId videos = Ok ids ->
  exists merged, mapR (merge batch) videos = Ok merged.
Proof.
  revert ids. induction videos as [|video videos IH]; intros ids H; [by eexists |].
  cbn [mapR] in *. destruct (videoId video) as [id |] eqn:Hid; [| done].
  cbn [rbind] in H. destruct (mapR videoId videos) as [ids' |]; [| done].
  destruct (IH _ eq_refl) as (merged & ->).
  unfold merge. rewrite (find_detail_matching _ _ _ Hid). by eexists.
Qed.

Lemma search_calls_emit (a : Action) (w : World) :
  search_calls (world (emit a w)) = search_calls w + (if is_search a then 1 else 0).
Proof.
  unfold search_calls. cbn. rewrite List.filter_app, length_app. cbn.
  by destruct (is_search a).
Qed.

Lemma search_calls_suspend (w : World) :
  search_calls (world (suspend w)) = search_calls w.
Proof.
  unfold suspend, on_close. destruct (clientLeaves w) as [[|n] |]; [| done | done].
  rewrite search_calls_emit. cbn. unfold search_calls. cbn. lia.
Qed.

Definition same_search_calls (w w' : World) : Prop :=
  search_calls w' = search_calls w.

Definition not_search (a : Action) : Prop := is_search a = false.

#[local] Program Instance search_calls_observing : Observing same_search_calls :=
  {| quiet := not_search |}.
Next Obligation. done. Qed.
Next Obligation. unfold same_search_calls. intros; congruence. Qed.
Next Obligation.
  unfold same_search_calls, not_search. intros a w Ha.
  rewrite search_calls_emit, Ha. lia.
Qed.
Next Obligation. apply search_calls_suspend. Qed.

(** Every turn of the loop makes one search call, whatever comes of
    it. *)
Lemma fetchPage_search_calls (channelId : JSVal) (options : Options)
    (page : Page) (allVideos : list JSObject) (nextPageToken : JSVal) (w : World) :
  search_calls
    (world (fetchPage channelId options page allVideos nextPageToken w))
  = S (search_calls w).
Proof.
  unfold fetchPage, youtube_search_list. rewrite !bind_assoc.
  set (rest := bind (await _) _).
  assert (Hrest : steps same_search_calls rest).
  { apply (steps_bind _); [apply (steps_await _) |].
    intros response. by apply (steps_fetchPage_rest _). }
  unfold bind at 1. cbn [emit]. rewrite Hrest.
  unfold search_calls. cbn. rewrite List.filter_app, length_app. cbn. lia.
Qed.

Lemma withDetails_answered (page : Page) (videos : list JSObject) (w : World) :
  details_answered page videos = true ->
  exists merged,
    mapR (merge (batch_of page)) videos = Ok merged /\
    outcome (withDetails (details_reply page) videos w) = Returned merged.
Proof.
  unfold details_answered, batch_of. intros H.
  destruct (mapR videoId videos) as [ids |] eqn:Hids; [| done].
  destruct (details_reply page) as [data | |] eqn:Hreply; try done.
  destruct (Response.items data) as [raw |] eqn:Hraw; [| done].
  destruct (mapR videoDetail raw) as [batch |] eqn:Hbatch; [| done].
  destruct (merge_total batch videos ids Hids) as (merged & Hmerged).
  exists merged. split; [done |].
  unfold withDetails, getVideoDetails, youtube_videos_list, await, try_catch, bind.
  rewrite Hids. run. rewrite Hraw, Hbatch. run. by rewrite Hmerged.
Qed.

Lemma delivered_length (options : Options) (page : Page) :
  answered options page = true ->
  length (delivered options page) = page_size page.
Proof.
  unfold answered, delivered, page_size, summaries_of. intros H.
  destruct (search_reply page) as [data | |]; try done.
  destruct (Response.items data) as [[|video videos] |]; try done.
  destruct (includeDetails options); [| done].
  destruct (withDetails_answered page (video :: videos) (start None) H)
    as (merged & Hmerged & _).
  rewrite Hmerged. by eapply mapR_length.
Qed.

(** A turn of the loop on a page whose calls succeed. *)
Lemma fetchPage_answered (channelId : JSVal) (options : Options) (page : Page)
    (allVideos : list JSObject) (nextPageToken : JSVal) (w : World) :
  answered options page = true ->
  outcome (fetchPage channelId options page allVideos nextPageToken w)
  = Returned ((allVideos ++ delivered options page)%list, cursor page).
Proof.
  unfold answered, delivered, cursor. intros H.
  destruct (search_reply page) as [data | |] eqn:Hreply; try done.
  unfold fetchPage, youtube_search_list, await. rewrite Hreply.
  assert (Hdelay : forall w0,
    outcome ((if truthy (Response.nextPageToken data) then delay 100 else ret tt) w0)
    = Returned tt).
  { intros w0. destruct (truthy _); [| done]. unfold delay. by run. }
  run.
  destruct (Response.items data) as [[|video videos] |].
  - run. rewrite Hdelay. run. by rewrite app_nil_r.
  - destruct (includeDetails options).
    + run.
      match goal with |- context [withDetails _ _ ?w0] =>
        destruct (withDetails_answered page (video :: videos) w0 H)
          as (merged & -> & ->) end.
      run. rewrite Hdelay. by run.
    + run. rewrite Hdelay. by run.
  - run. rewrite Hdelay. run. by rewrite app_nil_r.
Qed.

Lemma fetchLoop_answered (channelId : JSVal) (options : Options)
    (pages : list Page) (last : Page) (beyond : list Page)
    (allVideos : list JSObject) (nextPageToken : JSVal) (w : World) :
  Forall (fun page => answered options page = true /\ has_cursor page = true) pages ->
  answered options last = true ->
  has_cursor last = false ->
  let run :=
    fetchLoop channelId options (pages ++ last :: beyond) allVideos nextPageToken w in
  search_calls (world run) = search_calls w + S (length pages) /\
  outcome run
  = Returned (allVideos ++ flat_map (delivered options) (pages ++ [last]))%list.
Proof.
  intros Hpages Hlast Hend. revert allVideos nextPageToken w.
  induction Hpages as [|page pages [Hpage Hmore] _ IH];
    intros allVideos nextPageToken w; cbn zeta; cbn [app fetchLoop].
  - pose proof (fetchPage_answered channelId options last allVideos nextPageToken w Hlast)
      as Hturn.
    pose proof (fetchPage_search_calls channelId options last allVideos nextPageToken w)
      as Hcalls.
    rewrite outcome_bind, world_bind, Hturn. cbn [fst snd].
    replace (truthy (cursor last)) with false
      by (unfold has_cursor, cursor in *; by destruct (search_reply last)).
    run. rewrite Hcalls. split; [cbn [length]; lia |].
    cbn [flat_map]. by rewrite app_nil_r.
  - pose proof (fetchPage_answered channelId options page allVideos nextPageToken w Hpage)
      as Hturn.
    pose proof (fetchPage_search_calls channelId options page allVideos nextPageToken w)
      as Hcalls.
    rewrite outcome_bind, world_bind, Hturn. cbn [fst snd].
    replace (truthy (cursor page)) with true
      by (unfold has_cursor, cursor in *; by destruct (search_reply page)).
    destruct (IH (allVideos ++ delivered options page)%list (cursor page)
                (world (fetchPage channelId options page allVideos nextPageToken w)))
      as [IHcalls IHout].
    rewrite IHcalls, IHout, Hcalls. split; [cbn [length]; lia |].
    cbn [flat_map]. by rewrite app_assoc.
Qed.

(** C4. When the replies to the first [N-1] pages each carry a
    continuation cursor, the reply to page [N] carries none, and the
    calls of these pages succeed, [getAllChannelVideos] makes exactly [N]
    search calls (whatever upstream would have replied to more) and
    returns: the videos of the [N] pages in order, as many as the pages
    have search items. *)
Theorem one_search_call_per_page
    (pages : list Page) (last : Page) (beyond : list Page)
    (channelId : JSVal) (options : Options) (w : World) :
  Forall (fun page => answered options page = true /\ has_cursor page = true) pages ->
  answered options last = true ->
  has_cursor last = false ->
  let run := getAllChannelVideos (pages ++ last :: beyond) channelId options w in
  search_calls (world run) = search_calls w + S (length pages) /\
  exists videos,
    outcome run = Returned videos /\
    videos = flat_map (delivered options) (pages ++ [last]) /\
    length videos = sum_list (map page_size (pages ++ [last])).
Proof.
  intros Hpages Hlast Hend run. subst run.
  unfold getAllChannelVideos. rewrite try_rethrow.
  destruct (fetchLoop_answered channelId options pages last beyond [] VNull w
              Hpages Hlast Hend) as [Hcalls Hout].
  split; [done |]. eexists. split; [exact Hout |]. split; [done |].
  cbn [app]. assert (Hall : Forall (fun page => answered options page = true)
                              (pages ++ [last])).
  { apply Forall_app. split; [| by constructor].
    eapply Forall_impl; [exact Hpages | by intros ? []]. }
  clear -Hall. induction Hall as [|page rest Hpage _ IH]; [done |].
  cbn [flat_map map sum_list]. by rewrite length_app, IH, delivered_length.
Qed.

(** A channel of 73 videos at 50 to a page: two search calls, 73
    videos. *)
Lemma one_search_call_per_page_example :
  let run :=
    getAllChannelVideos Sample.pages73 (VStr "UCBJycsmduvYEL83R_U4JriQ")
      default_options (start None) in
  search_calls (world run) = 2 /\
  exists videos, outcome run = Returned videos /\ length videos = 73.
Proof.
  destruct (one_search_call_per_page
              [Sample.page (Sample.ids 0 50) (Sample.ids 0 50) (VStr "CDIQAA")]
              (Sample.page (Sample.ids 50 23) (Sample.ids 50 23) VUndef) []
              (VStr "UCBJycsmduvYEL83R_U4JriQ") default_options (start None))
    as [Hcalls (videos & Hout & _ & Hlen)].
  - repeat constructor.
  - reflexivity.
  - reflexivity.
  - split; [exact Hcalls |]. exists videos. split; [exact Hout |].
    rewrite Hlen. reflexivity.
Defined.

End Pagination.

(** ** The client goes away *)

Section Disconnect.
Import Js Fetcher Lib Router.

Definition is_console (a : Action) : bool :=
  match a with
  | ConsoleLog _ => true
  | _ => false
  end.

(** What the process did, the console apart: the calls to upstream, the
    timers and what was written to the response. *)
Definition deeds (w : World) : list Action :=
  List.filter (fun a => negb (is_console a)) (trace w).

(** The requests sent to upstream, in order. *)
Definition upstream_calls (w : World) : list Request :=
  omap (fun a => match a with Call request => Some request | _ => None end)
    (trace w).

Definition same_deeds (w w' : World) : Prop :=
  deeds w = deeds w' /\ videoCount w = videoCount w'.

Lemma deeds_emit (a : Action) (w : World) :
  deeds (world (emit a w)) = (deeds w ++ if is_console a then [] else [a])%list.
Proof.
  unfold deeds. cbn. rewrite List.filter_app. cbn. by destruct (is_console a).
Qed.

Lemma deeds_suspend (w : World) : deeds (world (suspend w)) = deeds w.
Proof.
  unfold suspend, on_close. destruct (clientLeaves w) as [[|n] |]; [| done | done].
  rewrite deeds_emit. cbn. by rewrite app_nil_r.
Qed.

#[local] Instance same_deeds_simulating : Simulating same_deeds.
Proof.
  split; unfold same_deeds.
  - intros a w w' [Hd Hv]. by rewrite !deeds_emit, Hd.
  - intros w w' [Hd Hv]. by rewrite !deeds_suspend, !suspend_videoCount.
Qed.

Lemma upstream_calls_deeds (w w' : World) :
  deeds w = deeds w' -> upstream_calls w = upstream_calls w'.
Proof.
  unfold deeds, upstream_calls.
  assert (H : forall t,
    omap (fun a => match a with Call request => Some request | _ => None end) t
    = omap (fun a => match a with Call request => Some request | _ => None end)
        (List.filter (fun a => negb (is_console a)) t)).
  { induction t as [|a t IH]; [done |]. destruct a; cbn; by rewrite ?IH. }
  intros Heq. by rewrite (H (trace w)), (H (trace w')), Heq.
Qed.

Lemma related_write_video (video : JSObject) :
  related same_deeds (write_video video) (write_video video).
Proof.
  intros w w' [Hd Hv]. unfold write_video, get_videoCount, set_videoCount, bind.
  cbn. split; [done |]. unfold same_deeds, deeds in *. cbn.
  by rewrite !List.filter_app, Hd, Hv.
Qed.

Lemma related_write_complete (result : JSObject) :
  related same_deeds (write_complete result) (write_complete result).
Proof.
  intros w w' [Hd Hv]. unfold write_complete, get_videoCount, bind.
  cbn. split; [done |]. unfold same_deeds, deeds in *. cbn.
  by rewrite !List.filter_app, Hd, Hv.
Qed.

Lemma related_forEach {A} (f : A -> M unit) (l : list A) :
  (forall a, related same_deeds (f a) (f a)) ->
  related same_deeds (forEach f l) (forEach f l).
Proof.
  intros Hf. induction l as [|a l IH]; cbn [forEach];
    [apply (related_ret _) | by apply (related_bind _)].
Qed.

Lemma related_get_stream (upstream : Upstream) (channelInput : JSVal) :
  related same_deeds
    (get_stream upstream channelInput) (get_stream upstream channelInput).
Proof.
  unfold get_stream. destruct (negb _); [apply (related_emit _) |].
  apply (related_bind _).
  { unfold open_stream. repeat (apply (related_bind _); [apply (related_emit _) |];
      intros _).
    intros w w' [Hd Hv]. by split. }
  intros _. unfold streamYoutubeVideos, streamSession, write_progress, write_error.
  apply (related_try_catch _).
  - repeat first
      [ apply (related_emit _)
      | apply (related_getChannelId _)
      | apply (related_getChannelInfo _)
      | apply (related_write_complete)
      | (apply (related_streamAllChannelVideos _); cbn;
         [intros; apply (related_emit _)
         | intros; apply related_forEach, related_write_video])
      | (apply (related_bind _); [| intros ?]) ].
  - intros e. apply (related_bind _); [| intros]; apply (related_emit _).
Qed.

(** C2 as the specification has it, on a trace: once the listener has
    noted that the client is gone, no further search call is made. *)
Definition stops_after_close (t : list Action) : Prop :=
  forall before after,
    t = (before ++ ConsoleLog "Client disconnected from stream" :: after)%list ->
    List.filter is_search after = [].

(** C2, counterexample. The client goes away while the search of the
    first of three pages is in flight; the searches of the second and the
    third page are made all the same. *)
Lemma searches_go_on_after_close :
  ~ stops_after_close
      (trace (world (get_stream Sample.three_pages
                       (VStr "UCBJycsmduvYEL83R_U4JriQ") (start (Some 1))))).
Proof.
  intros claim.
  set (t := trace _) in claim.
  assert (Hsplit :
    t = (take 9 t ++ ConsoleLog "Client disconnected from stream" :: drop 10 t)%list)
    by (vm_compute; reflexivity).
  apply claim in Hsplit. vm_compute in Hsplit. discriminate.
Qed.

End Disconnect.

(** ** What a trace shows

    A view of the trace: every action shows the items [f] makes of it. *)

Section Seen.
Context {X : Type} (f : Action -> list X).
Hypothesis console_unseen : forall text, f (ConsoleLog text) = [].

Definition seen (w : World) : list X := flat_map f (trace w).

Lemma seen_added (a : Action) (w : World) : seen (added a w) = (seen w ++ f a)%list.
Proof. unfold seen, added. cbn. by rewrite flat_map_app; cbn; rewrite app_nil_r. Qed.

Lemma seen_resumed (w : World) : seen (resumed w) = seen w.
Proof.
  unfold resumed, suspend, on_close. destruct (clientLeaves w) as [[|n] |];
    [| done | done].
  change (world (emit ?a ?w0)) with (added a w0). rewrite seen_added.
  by rewrite console_unseen, app_nil_r.
Qed.

(** The view is the same after as before. *)
Definition same_view (w w' : World) : Prop := seen w' = seen w.

#[local] Program Instance same_view_observing : Observing same_view :=
  {| quiet := fun a => f a = [] |}.
Next Obligation. done. Qed.
Next Obligation. unfold same_view. intros; congruence. Qed.
Next Obligation.
  unfold same_view. intros a w Ha. change (world (emit a w)) with (added a w).
  by rewrite seen_added, Ha, app_nil_r.
Qed.
Next Obligation. intros w. apply seen_resumed. Qed.

End Seen.

(** ** The streaming loop, as its callbacks see it *)

Section StreamOrder.
Import Js Fetcher.

(** The notifications handed to the callbacks and the search calls. *)
Definition notable (a : Action) : list Action :=
  match a with
  | Handed _ | Call (SearchList _) => [a]
  | _ => []
  end.

Definition notes (w : World) : list Action := seen notable w.

(** The videos of the batches handed to [onVideos]. *)
Definition batch_videos (a : Action) : list JSObject :=
  match a with
  | Handed (Videos batch) => batch
  | _ => []
  end.

Definition handed_videos (w : World) : list JSObject := seen batch_videos w.

#[local] Instance notes_observing : Observing (same_view notable) :=
  same_view_observing notable (fun _ => eq_refl).

(** The turns of the loop from page [page] on, [total] videos being
    accumulated: the progress notification with that page number and that
    total, then the search call of the page, then the batch of the page
    if one is delivered; the total of the next turn counts that batch. *)
Inductive turns : nat -> nat -> list Action -> Prop :=
  | turns_end (page total : nat) : turns page total []
  | turns_next (page total : nat) (info params : JSObject) (rest : list Action) :
      field info "page" = VNum (Z.of_nat page) ->
      field info "totalFetched" = VNum (Z.of_nat total) ->
      turns (S page) total rest ->
      turns page total
        (Handed (Progress info) :: Call (SearchList params) :: rest)
  | turns_batch (page total : nat) (info params : JSObject)
      (batch : list JSObject) (rest : list Action) :
      field info "page" = VNum (Z.of_nat page) ->
      field info "totalFetched" = VNum (Z.of_nat total) ->
      turns (S page) (total + length batch) rest ->
      turns page total
        (Handed (Progress info) :: Call (SearchList params) ::
         Handed (Videos batch) :: rest).

Variable channelId : JSVal.
Variable base : Options.

(** One turn with the recording callbacks. *)
Lemma streamPage_notes (page : Page) (allVideos : list JSObject)
    (nextPageToken : JSVal) (pageCount : nat) (w : World) :
  let run :=
    streamPage channelId (Spy.options base) page allVideos nextPageToken pageCount w in
  exists batch : option (list JSObject),
    notes (world run)
    = (notes w ++
       Handed (Progress (progress_info pageCount allVideos nextPageToken)) ::
       Call (SearchList (searchParams channelId base nextPageToken)) ::
       match batch with
       | Some videos => [Handed (Videos videos)]
       | None => []
       end)%list
    /\ forall turn,
        outcome run = Returned turn -> fst turn = (allVideos ++ default [] batch)%list.
Proof.
  intros run. subst run.
  unfold streamPage, youtube_search_list, await, bind.
  cbn [Spy.options onProgress onVideos includeDetails].
  unfold Spy.onProgress, Spy.onVideos.
  rewrite !emit_run, suspend_total.
  set (P := Handed (Progress _)). set (S := Call (SearchList _)).
  set (W := resumed (added S (added P w))).
  assert (HW : notes W = (notes w ++ [P; S])%list).
  { unfold W, notes. rewrite seen_resumed by done. rewrite !seen_added.
    by rewrite <- app_assoc. }
  assert (Htail : forall (b : bool) w0,
    exists w1, (if b then delay 100 else ret tt) w0 = (Returned tt, w1)
               /\ notes w1 = notes w0).
  { intros b w0. destruct b; [| by exists w0].
    unfold delay, bind. rewrite emit_run, suspend_total. eexists. split; [done |].
    unfold notes. rewrite seen_resumed by done. by rewrite seen_added, app_nil_r. }
  destruct (search_reply page) as [data | e |];
    rewrite ?ret_run, ?throw_run, ?pending_run; cbn [world outcome fst snd];
    [| by exists None; rewrite HW | by exists None; rewrite HW].
  destruct (Response.items data) as [[|video videos] |].
  - rewrite ret_run. cbn [world outcome fst snd].
    destruct (Htail (truthy (Response.nextPageToken data)) W) as (w1 & -> & Hw1).
    exists None. rewrite !ret_run. cbn [world outcome fst snd].
    rewrite Hw1, HW. split; [done |].
    intros turn [= <-]. cbn. by rewrite app_nil_r.
  - destruct (includeDetails base).
    + assert (Hwd : notes (world (withDetails (details_reply page) (video :: videos) W))
                    = notes W)
        by (apply (steps_withDetails (same_view notable)); intros; reflexivity).
      destruct (withDetails (details_reply page) (video :: videos) W)
        as [[merged | e |] w0]; cbn [world outcome fst snd] in *;
        [| by exists None; rewrite Hwd, HW | by exists None; rewrite Hwd, HW].
      rewrite emit_run, ret_run. cbn [world outcome fst snd].
      destruct (Htail (truthy (Response.nextPageToken data))
                  (added (Handed (Videos merged)) w0)) as (w1 & -> & Hw1).
      exists (Some merged). rewrite !ret_run. cbn [world outcome fst snd].
      rewrite Hw1. unfold notes. rewrite seen_added. fold (notes w0).
      rewrite Hwd, HW, <- app_assoc. split; [done |]. by intros turn [= <-].
    + rewrite ret_run, emit_run, ret_run. cbn [world outcome fst snd].
      destruct (Htail (truthy (Response.nextPageToken data))
                  (added (Handed (Videos (video :: videos))) W)) as (w1 & -> & Hw1).
      exists (Some (video :: videos)). rewrite !ret_run. cbn [world outcome fst snd].
      rewrite Hw1. unfold notes. rewrite seen_added. fold (notes W).
      rewrite HW, <- app_assoc. split; [done |]. by intros turn [= <-].
  - rewrite ret_run. cbn [world outcome fst snd].
    destruct (Htail (truthy (Response.nextPageToken data)) W) as (w1 & -> & Hw1).
    exists None. rewrite !ret_run. cbn [world outcome fst snd].
    rewrite Hw1, HW. split; [done |].
    intros turn [= <-]. cbn. by rewrite app_nil_r.
Qed.

Lemma progress_info_fields (pageCount : nat) (allVideos : list JSObject)
    (nextPageToken : JSVal) :
  field (progress_info pageCount allVideos nextPageToken) "page"
  = VNum (Z.of_nat pageCount)
  /\ field (progress_info pageCount allVideos nextPageToken) "totalFetched"
     = VNum (Z.of_nat (length allVideos)).
Proof. by split. Qed.

(** The loop with the recording callbacks. *)
Lemma streamLoop_notes (pages : list Page) (allVideos : list JSObject)
    (nextPageToken : JSVal) (pageCount : nat) (w : World) :
  let run :=
    streamLoop channelId (Spy.options base) pages allVideos nextPageToken pageCount w in
  exists new,
    notes (world run) = (notes w ++ new)%list
    /\ turns (S pageCount) (length allVideos) new
    /\ match outcome run with
       | Returned videos => videos = (allVideos ++ flat_map batch_videos new)%list
       | _ => True
       end.
Proof.
  revert allVideos nextPageToken pageCount w.
  induction pages as [|page rest IH]; intros allVideos nextPageToken pageCount w;
    cbn zeta; cbn [streamLoop]; rewrite outcome_bind, world_bind;
    destruct (progress_info_fields (S pageCount) allVideos nextPageToken)
      as [Hpage Htotal].
  - destruct (streamPage_notes silence allVideos nextPageToken (S pageCount) w)
      as (batch & Hnotes & Hturn).
    eexists. split; [| split].
    + destruct (outcome (streamPage _ _ _ _ _ _ _)); exact Hnotes.
    + destruct batch; [apply turns_batch | apply turns_next];
        try done; apply turns_end.
    + by destruct (outcome (streamPage _ _ _ _ _ _ _)).
  - destruct (streamPage_notes page allVideos nextPageToken (S pageCount) w)
      as (batch & Hnotes & Hturn).
    destruct (outcome (streamPage _ _ _ _ _ _ _)) as [turn | e |] eqn:Hout.
    + specialize (Hturn turn eq_refl).
      destruct (truthy (snd turn)).
      * destruct (IH (fst turn) (snd turn) (S pageCount)
                    (world (streamPage channelId (Spy.options base) page allVideos
                              nextPageToken (S pageCount) w)))
          as (more & Hmore & Hturns & Hvideos).
        rewrite Hnotes in Hmore.
        destruct (outcome (streamLoop _ _ _ _ _ _ _)) as [videos0 | e0 |].
        all: rewrite Hturn in Hturns; rewrite length_app in Hturns.
        all: exists (Handed (Progress (progress_info (S pageCount) allVideos nextPageToken))
                :: Call (SearchList (searchParams channelId base nextPageToken))
                :: match batch with
                   | Some videos => [Handed (Videos videos)]
                   | None => []
                   end ++ more)%list.
        all: split; [by rewrite Hmore, <- app_assoc | split].
        all: try (destruct batch as [videos |]; cbn [app default length] in *;
                  [by apply turns_batch
                  | apply turns_next; [done | done |];
                    by rewrite Nat.add_0_r in Hturns]).
        all: try exact I.
        rewrite Hvideos, Hturn, <- app_assoc. f_equal.
        destruct batch; cbn; by rewrite ?app_nil_r.
      * eexists. split; [exact Hnotes | split].
        -- destruct batch; [apply turns_batch | apply turns_next];
             try done; apply turns_end.
        -- run. rewrite Hturn. f_equal. destruct batch; cbn; by rewrite ?app_nil_r.
    + eexists. split; [exact Hnotes | split; [| done]].
      destruct batch; [apply turns_batch | apply turns_next];
        try done; apply turns_end.
    + eexists. split; [exact Hnotes | split; [| done]].
      destruct batch; [apply turns_batch | apply turns_next];
        try done; apply turns_end.
Qed.

(** C6, amended. With recording callbacks, what [streamAllChannelVideos]
    hands to them and the search calls it makes come in turns, page after
    page from page 1 and total 0: the progress notification with the
    number of the page about to be fetched and the number of videos
    accumulated from the pages before it, then the search call of that
    page, then, when the page delivers videos, their batch, which the
    total of the next turn counts.  The total of every progress
    notification is the number of videos of the completed pages, and
    every search call comes right after the notification of its page;
    no notification follows the batch of the last page. *)
Theorem progress_announces_each_page (pages : list Page) (w : World) :
  let run := streamAllChannelVideos pages channelId (Spy.options base) w in
  exists new, notes (world run) = (notes w ++ new)%list /\ turns 1 0 new.
Proof.
  cbn zeta. unfold streamAllChannelVideos. rewrite try_rethrow.
  destruct (streamLoop_notes pages [] VNull 0 w) as (new & Hnotes & Hturns & _).
  by exists new.
Qed.

Definition anything (w w' : World) : Prop := True.

#[local] Instance anything_simulating : Simulating anything.
Proof. by split. Qed.

Lemma handed_of_notes (t : list Action) :
  flat_map batch_videos (flat_map notable t) = flat_map batch_videos t.
Proof.
  induction t as [|a t IH]; [done |]. cbn [flat_map]. rewrite flat_map_app, IH.
  f_equal. destruct a as [[] | | | | | | |]; cbn; by rewrite ?app_nil_r.
Qed.

(** A turn of the streaming loop and a turn of the batch loop come to
    the same. *)
Lemma streamPage_fetchPage (page : Page) (allVideos : list JSObject)
    (nextPageToken : JSVal) (pageCount : nat) :
  related anything
    (streamPage channelId (Spy.options base) page allVideos nextPageToken pageCount)
    (fetchPage channelId base page allVideos nextPageToken).
Proof.
  unfold streamPage, fetchPage.
  apply (related_left anything); [done | done |].
  apply (related_bind anything); [apply (related_search_list anything) |].
  intros response. apply (related_bind anything).
  - destruct (Response.items response) as [[|video videos] |];
      try apply (related_ret anything).
    apply (related_bind anything).
    + cbn [Spy.options includeDetails]. destruct (includeDetails base);
        [apply (related_withDetails anything) | apply (related_ret anything)].
    + intros merged. apply (related_left anything); [done | done |].
      apply (related_ret anything).
  - intros all'. apply (related_bind anything); [| intros; apply (related_ret anything)].
    destruct (truthy _); [apply (related_delay anything) | apply (related_ret anything)].
Qed.

Lemma streamLoop_fetchLoop (pages : list Page) (allVideos : list JSObject)
    (nextPageToken : JSVal) (pageCount : nat) :
  related anything
    (streamLoop channelId (Spy.options base) pages allVideos nextPageToken pageCount)
    (fetchLoop channelId base pages allVideos nextPageToken).
Proof.
  revert allVideos nextPageToken pageCount.
  induction pages as [|page rest IH]; intros allVideos nextPageToken pageCount;
    cbn [streamLoop fetchLoop].
  - apply (related_bind anything); [apply streamPage_fetchPage |].
    intros; apply (related_pending anything).
  - apply (related_bind anything); [apply streamPage_fetchPage |]. intros turn.
    destruct (truthy _); [apply IH | apply (related_ret anything)].
Qed.

(** C10. For the same replies and options, [streamAllChannelVideos]
    (with recording callbacks) and [getAllChannelVideos] end the same
    way: both return the same array, both throw the same error, or both
    wait for a reply that does not come.  When [streamAllChannelVideos]
    returns, its array is the concatenation, in order, of the batches it
    handed to [onVideos]. *)
Theorem stream_and_batch_agree (pages : list Page) (w w' : World) :
  let streamed := streamAllChannelVideos pages channelId (Spy.options base) w in
  let fetched := getAllChannelVideos pages channelId base w' in
  outcome streamed = outcome fetched
  /\ match outcome streamed with
     | Returned videos =>
         handed_videos (world streamed) = (handed_videos w ++ videos)%list
     | _ => True
     end.
Proof.
  cbn zeta. unfold streamAllChannelVideos, getAllChannelVideos.
  rewrite !try_rethrow. split.
  - by apply (streamLoop_fetchLoop pages [] VNull 0 w w').
  - destruct (streamLoop_notes pages [] VNull 0 w) as (new & Hnotes & _ & Hvideos).
    destruct (outcome (streamLoop _ _ _ _ _ _ _)) as [videos | |]; [| done | done].
    subst videos. unfold handed_videos, seen. unfold notes, seen in Hnotes.
    rewrite <- (handed_of_notes (trace (world _))), Hnotes, flat_map_app.
    by rewrite handed_of_notes.
Qed.

End StreamOrder.

Section StreamOrderExamples.
Import Js Fetcher.

(** C6 as the specification has it, on a trace: after the batch of a
    page has been delivered, a progress notification follows. *)
Definition progress_follows_delivery (t : list Action) : Prop :=
  forall i batch,
    t !! i = Some (Handed (Videos batch)) ->
    exists j info, i < j /\ t !! j = Some (Handed (Progress info)).

(** C6, counterexample. A channel of two videos on one page: the one
    progress notification (page 1, total 0) comes before the search call;
    after the batch of the page is delivered there is none. *)
Lemma no_progress_after_the_last_page :
  ~ progress_follows_delivery
      (trace (world (streamAllChannelVideos
                       [Sample.page ["a"; "b"] ["a"; "b"] VUndef]
                       (VStr "UCBJycsmduvYEL83R_U4JriQ")
                       (Spy.options default_options) (start None)))).
Proof.
  intros claim.
  set (run := streamAllChannelVideos _ _ _ _) in claim.
  destruct (claim 3 (value [] run)) as (j & info & Hlt & Hj);
    [vm_compute; reflexivity |].
  do 4 (destruct j as [|j]; [lia |]).
  vm_compute in Hj. discriminate.
Qed.

End StreamOrderExamples.

(** ** The events of the stream route *)

Section StreamEvents.
Import Js Fetcher Lib Router.

(** What [res.write] sent. *)
Definition written (a : Action) : list JSObject :=
  match a with
  | ResWrite event => [event]
  | _ => []
  end.

Definition events (w : World) : list JSObject := seen written w.

Definition kind (event : JSObject) : JSVal := field event "type".

Definition connected : JSObject :=
  <["type" := VStr "connected"]> (<["message" := VStr "Stream started"]> ∅).

(** A [progress] or a [video] event. *)
Definition in_flight (event : JSObject) : Prop :=
  kind event = VStr "progress" \/ kind event = VStr "video".

(** The [count] of the [video] events, in order. *)
Definition counts (sent : list JSObject) : list JSVal :=
  flat_map
    (fun event =>
       if strict_eq (kind event) (VStr "video") then [field event "count"] else [])
    sent.

Definition numbers (from count : nat) : list JSVal :=
  map (fun n => VNum (Z.of_nat n)) (seq from count).

(** From [w] to [w'] only [progress] and [video] events were written, and
    the [video] events count on from the counter of [w] to that of [w']. *)
Definition streams (w w' : World) : Prop :=
  exists sent,
    events w' = (events w ++ sent)%list
    /\ Forall in_flight sent
    /\ videoCount w <= videoCount w'
    /\ counts sent = numbers (S (videoCount w)) (videoCount w' - videoCount w).

Lemma streams_refl (w : World) : streams w w.
Proof.
  exists []. rewrite app_nil_r, Nat.sub_diag. by repeat split.
Qed.

Lemma streams_trans (w1 w2 w3 : World) :
  streams w1 w2 -> streams w2 w3 -> streams w1 w3.
Proof.
  intros (s1 & He1 & Hf1 & Hle1 & Hc1) (s2 & He2 & Hf2 & Hle2 & Hc2).
  exists (s1 ++ s2)%list. repeat split.
  - by rewrite He2, He1, app_assoc.
  - by apply Forall_app.
  - lia.
  - unfold counts in *. rewrite flat_map_app, Hc1, Hc2. unfold numbers.
    replace (videoCount w3 - videoCount w1)
      with ((videoCount w2 - videoCount w1) + (videoCount w3 - videoCount w2))
      by lia.
    rewrite seq_app, map_app. do 3 f_equal. lia.
Qed.

Lemma streams_same (w w' : World) :
  events w' = events w -> videoCount w' = videoCount w -> streams w w'.
Proof.
  intros He Hv. exists []. rewrite app_nil_r, Hv, Nat.sub_diag. by repeat split.
Qed.

#[local] Instance streams_observing : Observing streams :=
  {| quiet := fun a => written a = [];
     observing_refl := streams_refl;
     observing_trans := streams_trans;
     observing_emit := fun a w Ha =>
       streams_same w (world (emit a w))
         (eq_trans (seen_added written a w)
            (eq_trans (f_equal (app (events w)) Ha) (app_nil_r _)))
         eq_refl;
     observing_suspend := fun w =>
       streams_same w (world (suspend w))
         (seen_resumed written (fun _ => eq_refl) w) (suspend_videoCount w) |}.

Lemma steps_write_progress (progress : JSObject) :
  progress !! "type" = None -> steps streams (write_progress progress).
Proof.
  intros Htype w. unfold write_progress. rewrite emit_run. cbn [world snd].
  exists [progress ∪ {["type" := VStr "progress"]}]. repeat split.
  - exact (seen_added written (ResWrite _) w).
  - repeat constructor. unfold kind, field.
    by rewrite lookup_union_r, lookup_singleton_eq.
  - done.
  - cbn [videoCount added world snd emit]. rewrite Nat.sub_diag.
    unfold counts, kind, field. cbn [flat_map].
    by rewrite lookup_union_r, lookup_singleton_eq.
Qed.

Lemma steps_write_video (video : JSObject) : steps streams (write_video video).
Proof.
  intros w. unfold write_video, get_videoCount, set_videoCount, bind.
  rewrite emit_run. cbn [world snd].
  eexists [_]. repeat split.
  - exact (seen_added written (ResWrite _) _).
  - constructor; [by right | constructor].
  - cbn. lia.
  - cbn [videoCount added world snd emit].
    replace (S (videoCount w) - videoCount w) with 1 by lia. done.
Qed.

Lemma steps_forEach_write_video (videos : list JSObject) :
  steps streams (forEach write_video videos).
Proof.
  induction videos as [|video videos IH]; cbn [forEach];
    [apply (steps_ret streams) |].
  apply (steps_bind streams); [apply steps_write_video | by intros].
Qed.

Variable upstream : Upstream.
Variable channelInput : JSVal.

(** The session up to the last event: the lookups and the loop. *)
Definition fetching : M JSObject :=
  write_progress
    (<["stage" := VStr "channel_lookup"]>
       (<["message" := VStr ("Looking up channel: " +:+ toStr channelInput)]> ∅)) ;;
  channelId <- getChannelId (channel_search upstream) channelInput ;;
  write_progress
    (<["stage" := VStr "channel_info"]>
       (<["message" := VStr "Fetching channel information..."]> ∅)) ;;
  channelInfo <- getChannelInfo (channel_lookup upstream) channelId ;;
  write_progress
    (<["stage" := VStr "channel_ready"]>
       (<["message" := VStr ("Channel found: " +:+ toStr (field channelInfo "title"))]>
          (<["channelInfo" := VObj channelInfo]> ∅))) ;;
  write_progress
    (<["stage" := VStr "videos_start"]>
       (<["message" := VStr "Starting video fetch..."]> ∅)) ;;
  streamAllChannelVideos (video_pages upstream) channelId
    {| maxResults := 50;
       order := VStr "date";
       publishedAfter := publishedAfter default_options;
       publishedBefore := publishedBefore default_options;
       includeDetails := true;
       Fetcher.onProgress := fun progress =>
         write_progress
           (progress ∪
              <["stage" := VStr "videos_progress"]>
                (<["message" :=
                     VStr ("Fetching page " +:+ toStr (field progress "page") +:+
                           "... (" +:+ toStr (field progress "totalFetched") +:+
                           " videos so far)")]> ∅));
       onVideos := fun videos => forEach write_video videos |} ;;
  ret channelInfo.

Lemma bind_ext {A B} (m : M A) (k k' : A -> M B) (w : World) :
  (forall a w0, k a w0 = k' a w0) -> bind m k w = bind m k' w.
Proof.
  intros H. unfold bind. destruct (m w) as [[a | e |] w1]; [apply H | done | done].
Qed.

(** The session is the fetching followed by the [complete] event. *)
Lemma streamSession_fetching (w : World) :
  streamSession upstream channelInput write_progress write_video write_complete w
  = bind fetching
      (fun channelInfo =>
         write_complete
           (<["message" := VStr "All videos fetched successfully"]>
              (<["channelInfo" := VObj channelInfo]> ∅))) w.
Proof.
  unfold streamSession, fetching.
  repeat (rewrite bind_assoc; apply bind_ext; intros ? ?).
  reflexivity.
Qed.

Lemma steps_fetching : steps streams fetching.
Proof.
  unfold fetching.
  repeat first
    [ (apply steps_write_progress; reflexivity)
    | (apply (steps_getChannelId streams); intros; reflexivity)
    | (apply (steps_getChannelInfo streams); intros; reflexivity)
    | apply (steps_ret streams)
    | (apply (steps_streamAllChannelVideos streams);
       [ intros; reflexivity | intros; reflexivity | intros; reflexivity
       | intros; cbn [onProgress]; apply steps_write_progress; reflexivity
       | intros; cbn [onVideos]; apply steps_forEach_write_video ])
    | (apply (steps_bind streams); [| intros ?]) ].
Qed.

Lemma numbers_length (from count : nat) : length (numbers from count) = count.
Proof. unfold numbers. by rewrite length_map, length_seq. Qed.

(** C5. The events written by a streaming session are [connected],
    then [progress] and [video] events, the [video] events counting 1,
    2, 3, ..., then one last event: [complete] when the session has
    succeeded, [error] when it has failed, and none while a call to
    upstream is not answered.  So there is one [connected], at most one
    of [complete] and [error], and nothing after it. *)
Theorem stream_events_in_order (clientLeaves : option nat) :
  truthy channelInput = true ->
  let session :=
    streamSession upstream channelInput write_progress write_video write_complete
      (world (open_stream (start clientLeaves))) in
  let run := get_stream upstream channelInput (start clientLeaves) in
  exists middle last,
    events (world run) = (connected :: middle ++ last)%list
    /\ Forall in_flight middle
    /\ counts middle = numbers 1 (length (counts middle))
    /\ match outcome session with
       | Returned _ => exists event, last = [event] /\ kind event = VStr "complete"
       | Thrown _ => exists event, last = [event] /\ kind event = VStr "error"
       | Pending => last = []
       end.
Proof.
  intros Htruthy. cbn zeta. unfold get_stream. rewrite Htruthy. cbn [negb].
  rewrite world_bind.
  set (w0 := world (open_stream (start clientLeaves))).
  assert (Hopen : outcome (open_stream (start clientLeaves)) = Returned tt) by done.
  rewrite Hopen. clear Hopen.
  assert (Hw0 : events w0 = [connected] /\ videoCount w0 = 0) by done.
  destruct Hw0 as [Hevents Hcount].
  unfold streamYoutubeVideos, try_catch. rewrite streamSession_fetching.
  destruct (steps_fetching w0) as (sent & He & Hf & Hle & Hc).
  rewrite Hevents, Hcount, Nat.sub_0_r in *. cbn [app] in He.
  assert (Hcounts : counts sent = numbers 1 (length (counts sent)))
    by (by rewrite Hc, numbers_length).
  unfold bind. destruct (fetching w0) as [[channelInfo | e |] w1];
    cbn [world outcome fst snd] in *.
  - unfold write_complete, get_videoCount, bind. rewrite !emit_run.
    cbn [world outcome fst snd]. eexists sent, [_]. repeat split; try done.
    + unfold events. rewrite !seen_added. fold (events w1). rewrite He.
      cbn [written]. by rewrite app_nil_r.
    + by eexists.
  - unfold write_error, bind. rewrite !emit_run.
    cbn [world outcome fst snd]. eexists sent, [_]. repeat split; try done.
    + unfold events. rewrite !seen_added. fold (events w1). rewrite He.
      cbn [written]. by rewrite app_nil_r.
    + by eexists.
  - exists sent, []. rewrite app_nil_r. by repeat split.
Qed.

End StreamEvents.

(** Three pages of one video each, the client staying: a session that
    succeeds. *)
Lemma stream_events_in_order_example :
  let session :=
    Lib.streamSession Sample.three_pages (VStr "UCBJycsmduvYEL83R_U4JriQ")
      Router.write_progress Router.write_video Router.write_complete
      (world (Router.open_stream (start None))) in
  let run :=
    Router.get_stream Sample.three_pages (VStr "UCBJycsmduvYEL83R_U4JriQ") (start None) in
  exists middle last,
    events (world run) = (connected :: middle ++ last)%list
    /\ Forall in_flight middle
    /\ counts middle = numbers 1 (length (counts middle))
    /\ match outcome session with
       | Returned _ => exists event, last = [event] /\ kind event = VStr "complete"
       | Thrown _ => exists event, last = [event] /\ kind event = VStr "error"
       | Pending => last = []
       end.
Proof.
  apply (stream_events_in_order Sample.three_pages (VStr "UCBJycsmduvYEL83R_U4JriQ") None).
  reflexivity.
Defined.

(** ** The batch route *)

Section BatchRoute.
Import Js Fetcher Lib Router.

(** C1. A channel that upstream does not know: the channel search of
    [getChannelId] comes back empty, [getChannelId] throws [Channel not
    found], the [catch] of [fetchYoutubeVideos] takes the error and
    returns [undefined], and the route answers [res.json(undefined)] with
    status 200: no error reaches the client. *)
Theorem unknown_channel_is_answered_200 :
  get_videos Sample.three_pages (VStr "nosuchchannel") (start None)
  = (Returned tt,
     {| trace :=
          [ Call (SearchList (channel_query "nosuchchannel"));
            ResJson 200 VUndef ];
        videoCount := 0;
        clientLeaves := None |})
  /\ getChannelId (channel_search Sample.three_pages) (VStr "nosuchchannel") (start None)
     = (Thrown (Error "Channel not found: nosuchchannel"),
        {| trace := [Call (SearchList (channel_query "nosuchchannel"))];
           videoCount := 0;
           clientLeaves := None |}).
Proof. split; vm_compute; reflexivity. Qed.

End BatchRoute.


(** * Further properties of the code *)

(** ** The calls a computation makes *)

Section Calls.
Import Js Fetcher.

Definition request_of (a : Action) : list Request :=
  match a with
  | Call request => [request]
  | _ => []
  end.

(** The requests sent to upstream so far, oldest first. *)
Definition calls (w : World) : list Request := seen request_of w.

Lemma calls_added (a : Action) (w : World) :
  calls (added a w) = (calls w ++ request_of a)%list.
Proof. apply seen_added. Qed.

Lemma calls_resumed (w : World) : calls (resumed w) = calls w.
Proof. by apply seen_resumed. Qed.

(** The outcome of awaiting a reply. *)
Definition settle {A} (reply : Reply) (k : ListData -> Outcome A) : Outcome A :=
  match reply with
  | Resolve data => k data
  | Reject e => Thrown e
  | NoReply => Pending
  end.

Lemma await_run (reply : Reply) (w : World) :
  await reply w = (settle reply Returned, resumed w).
Proof. unfold await, bind. rewrite suspend_total. by destruct reply. Qed.

End Calls.

(** ** The channel resolver, the search path *)

Section ResolverSearch.
Import JsString Js Fetcher.

(** What [getChannelId] makes of the reply to its channel search. *)
Definition found_channel (input : string) (data : ListData) : Outcome JSVal :=
  match Response.items data with
  | Some (first :: _) =>
      match prop (field first "id") "channelId" with
      | Ok channelId => Returned channelId
      | Throw e => Thrown e
      end
  | _ => Thrown (Error ("Channel not found: " +:+ input))
  end.

(** An input that [getChannelId] reduces to the query [q]. *)
Lemma getChannelId_query (reply : Reply) (input q : string) (w : World) :
  canonical input = false ->
  channelIdentifier input = Ok (Query q) ->
  getChannelId reply (VStr input) w
  = (settle reply (found_channel input),
     resumed (added (Call (SearchList (channel_query q))) w)).
Proof.
  intros Hshape Hquery. unfold getChannelId. rewrite try_rethrow.
  fold (canonical input). rewrite Hshape, Hquery.
  unfold youtube_search_list, bind. rewrite lift_ok, emit_run, await_run.
  fold (channel_query q). unfold settle, found_channel.
  destruct reply as [data | e |]; [| done | done].
  destruct (Response.items data) as [[|first rest] |]; [done | | done].
  by destruct (prop (field first "id") "channelId").
Qed.

(** X1. An input that is neither of the canonical shape nor a URL of a
    channel, custom or handle page is searched for as it is: one call, the
    channel search for the whole input limited to one result.  The first
    result's [id.channelId] is returned; without results the error is
    [Channel not found: <input>]; an error of upstream is thrown on as it
    is. *)
Theorem plain_name_is_searched (reply : Reply) (input : string) (w : World) :
  canonical input = false ->
  includes input "youtube.com/channel/" = false ->
  includes input "youtube.com/c/" = false ->
  includes input "youtube.com/@" = false ->
  let run := getChannelId reply (VStr input) w in
  calls (world run) = (calls w ++ [SearchList (channel_query input)])%list
  /\ field (channel_query input) "q" = VStr input
  /\ field (channel_query input) "maxResults" = VNum 1
  /\ outcome run = settle reply (found_channel input).
Proof.
  intros Hshape Hchannel Hcustom Hhandle. cbn zeta.
  rewrite (getChannelId_query reply input input w Hshape).
  - cbn [world outcome fst snd]. by rewrite calls_resumed, calls_added.
  - unfold channelIdentifier. by rewrite Hchannel, Hcustom, Hhandle.
Qed.

Lemma plain_name_is_searched_example :
  let run :=
    getChannelId Sample.no_items (VStr "Marques Brownlee") (start None) in
  calls (world run)
  = (calls (start None) ++ [SearchList (channel_query "Marques Brownlee")])%list
  /\ field (channel_query "Marques Brownlee") "q" = VStr "Marques Brownlee"
  /\ field (channel_query "Marques Brownlee") "maxResults" = VNum 1
  /\ outcome run = settle Sample.no_items (found_channel "Marques Brownlee").
Proof.
  apply (plain_name_is_searched Sample.no_items "Marques Brownlee" (start None));
    reflexivity.
Defined.

End ResolverSearch.

(** ** The channel resolver, handle and custom URLs *)

Section ResolverUrls.
Import JsString Js Fetcher.

(** The site in a URL. *)
Definition site : string := "youtube.com/".

(** The component after any marker, as for the channel path. *)
Lemma path_component_after (marker pre component tail : string) :
  marker <> "" ->
  no_match_before marker pre (marker +:+ (component +:+ tail)) = true ->
  includes (component +:+ tail) marker = false ->
  includes component "?" = false ->
  includes component "/" = false ->
  tail = "" \/ startsWith tail "?" = true \/ startsWith tail "/" = true ->
  path_component (pre +:+ (marker +:+ (component +:+ tail))) marker = Ok component.
Proof.
  intros Hmarker Hfirst Hlast Hq Hs Htail. unfold path_component, split.
  rewrite (split_go_first marker) by done.
  rewrite split_go_none by done. cbn [at_index lookup list_lookup rbind].
  rewrite !append_empty_l.
  destruct (split_component component tail Hq Hs Htail)
    as (path & more & more' & Hpath & Hcomp).
  unfold split in *. by rewrite Hpath; cbn; rewrite Hcomp.
Qed.

Lemma substring_all (s : string) : String.substring 0 (String.length s) s = s.
Proof. induction s as [|c s IH]; [done |]. cbn. by rewrite IH. Qed.

Lemma substring_tail (c : Ascii.ascii) (s : string) :
  substring (String c s) 1 = s.
Proof.
  unfold substring. cbn [String.length]. rewrite Nat.sub_succ, Nat.sub_0_r.
  cbn [String.substring]. apply substring_all.
Qed.

(** X2. A handle URL, [...youtube.com/@name] with or without a query
    string or a further path: the channel is searched for by the handle
    without its [@]; one call, and the outcome as for any search. *)
Theorem handle_url_is_searched_by_name
    (pre name tail : string) (reply : Reply) (w : World) :
  let input := pre +:+ (site +:+ ("@" +:+ name +:+ tail)) in
  canonical input = false ->
  includes input "youtube.com/channel/" = false ->
  no_match_before site pre (site +:+ ("@" +:+ name +:+ tail)) = true ->
  includes ("@" +:+ name +:+ tail) site = false ->
  includes name "?" = false ->
  includes name "/" = false ->
  tail = "" \/ startsWith tail "?" = true \/ startsWith tail "/" = true ->
  let run := getChannelId reply (VStr input) w in
  calls (world run) = (calls w ++ [SearchList (channel_query name)])%list
  /\ outcome run = settle reply (found_channel input).
Proof.
  intros input Hshape Hchannel Hfirst Hlast Hq Hs Htail. cbn zeta.
  assert (Hhandle : includes input "youtube.com/@" = true)
    by apply (includes_first pre "youtube.com/@" (name +:+ tail)).
  assert (Hcomp : path_component input site = Ok ("@" +:+ name)).
  { by apply (path_component_after site pre ("@" +:+ name) tail). }
  rewrite (getChannelId_query reply input name w Hshape).
  - cbn [world outcome fst snd]. by rewrite calls_resumed, calls_added.
  - unfold channelIdentifier. rewrite Hchannel, Hhandle, orb_true_r.
    fold site. rewrite Hcomp. cbn [rbind].
    rewrite (prefix_append "@" name : startsWith ("@" +:+ name) "@" = true).
    by rewrite append_cons, append_empty_l, substring_tail.
Qed.

Lemma handle_url_is_searched_by_name_example :
  let run :=
    getChannelId Sample.no_items (VStr "https://www.youtube.com/@mkbhd/videos")
      (start None) in
  calls (world run) = (calls (start None) ++ [SearchList (channel_query "mkbhd")])%list
  /\ outcome run
     = settle Sample.no_items (found_channel "https://www.youtube.com/@mkbhd/videos").
Proof.
  apply (handle_url_is_searched_by_name "https://www." "mkbhd" "/videos"
           Sample.no_items (start None));
    [reflexivity | reflexivity | reflexivity | reflexivity | reflexivity
    | reflexivity |].
  right; right; reflexivity.
Defined.

(** X3. A custom URL, [...youtube.com/c/Name]: the component that
    [getChannelId] takes after [youtube.com/] stops at the slash of [c/],
    so the channel is searched for by the letter [c] and not by [Name]. *)
Theorem custom_url_is_searched_by_c
    (pre name : string) (reply : Reply) (w : World) :
  let input := pre +:+ (site +:+ ("c/" +:+ name)) in
  canonical input = false ->
  includes input "youtube.com/channel/" = false ->
  no_match_before site pre (site +:+ ("c/" +:+ name)) = true ->
  includes ("c/" +:+ name) site = false ->
  let run := getChannelId reply (VStr input) w in
  calls (world run) = (calls w ++ [SearchList (channel_query "c")])%list
  /\ outcome run = settle reply (found_channel input).
Proof.
  intros input Hshape Hchannel Hfirst Hlast. cbn zeta.
  assert (Hcustom : includes input "youtube.com/c/" = true)
    by apply (includes_first pre "youtube.com/c/" name).
  assert (Hcomp : path_component input site = Ok "c").
  { apply (path_component_after site pre "c" ("/" +:+ name)); try done.
    right; right. apply (prefix_append "/" name). }
  rewrite (getChannelId_query reply input "c" w Hshape).
  - cbn [world outcome fst snd]. by rewrite calls_resumed, calls_added.
  - unfold channelIdentifier. rewrite Hchannel, Hcustom. cbn [orb].
    fold site. by rewrite Hcomp.
Qed.

Lemma custom_url_is_searched_by_c_example :
  let run :=
    getChannelId Sample.no_items (VStr "https://www.youtube.com/c/mkbhd") (start None) in
  calls (world run) = (calls (start None) ++ [SearchList (channel_query "c")])%list
  /\ outcome run
     = settle Sample.no_items (found_channel "https://www.youtube.com/c/mkbhd").
Proof.
  apply (custom_url_is_searched_by_c "https://www." "mkbhd" Sample.no_items (start None));
    reflexivity.
Defined.

End ResolverUrls.

(** ** Channel information *)

Section ChannelInfo.
Import JsString Js Fetcher.

(** The parameters of the [channels.list] call for [channelId]. *)
Definition channel_params (channelId : JSVal) : JSObject :=
  <["part" := VStr "snippet,statistics"]> (<["id" := channelId]> ∅).

Lemma getChannelInfo_run (reply : Reply) (channelId : JSVal) (w : World) :
  exists result,
    getChannelInfo reply channelId w
    = (result, resumed (added (Call (ChannelsList (channel_params channelId))) w)).
Proof.
  unfold getChannelInfo. rewrite try_rethrow.
  unfold youtube_channels_list, bind. rewrite emit_run, await_run.
  fold (channel_params channelId).
  destruct reply as [data | e |]; cbn [settle]; [| by eexists | by eexists].
  destruct (Response.items data) as [[|channel more] |]; try by eexists.
  match goal with |- context [lift ?r] => destruct r end; by eexists.
Qed.

(** X4. [getChannelInfo] makes one call, [channels.list] for the given
    id.  For a channel with a snippet, a default thumbnail and statistics
    it returns the seven fields [id], [title], [description], [thumbnail]
    (the URL of the default thumbnail), [subscriberCount], [videoCount] and
    [viewCount], taken as upstream gave them.  When upstream lists no
    channel the error is [Channel not found: <id>], and an error of
    upstream is thrown on as it is. *)
Theorem channel_info_of_the_first_channel
    (reply : Reply) (channelId : JSVal) (w : World) :
  let run := getChannelInfo reply channelId w in
  calls (world run) = (calls w ++ [ChannelsList (channel_params channelId)])%list
  /\ match reply with
     | Resolve data =>
         match Response.items data with
         | Some (channel :: _) =>
             forall snippet thumbnails default_ statistics,
               field channel "snippet" = VObj snippet ->
               field snippet "thumbnails" = VObj thumbnails ->
               field thumbnails "default" = VObj default_ ->
               field channel "statistics" = VObj statistics ->
               outcome run
               = Returned
                   (<["id" := field channel "id"]>
                      (<["title" := field snippet "title"]>
                         (<["description" := field snippet "description"]>
                            (<["thumbnail" := field default_ "url"]>
                               (<["subscriberCount" := field statistics "subscriberCount"]>
                                  (<["videoCount" := field statistics "videoCount"]>
                                     (<["viewCount" := field statistics "viewCount"]> ∅)))))))
         | _ =>
             outcome run
             = Thrown (Error ("Channel not found: " +:+ toStr channelId))
         end
     | Reject e => outcome run = Thrown e
     | NoReply => outcome run = Pending
     end.
Proof.
  cbn zeta. split.
  - destruct (getChannelInfo_run reply channelId w) as (result & ->).
    cbn [world snd]. by rewrite calls_resumed, calls_added.
  - unfold getChannelInfo. rewrite try_rethrow.
    unfold youtube_channels_list, bind. rewrite emit_run, await_run.
    destruct reply as [data | e |]; cbn [settle]; [| done | done].
    destruct (Response.items data) as [[|channel more] |]; [done | | done].
    intros snippet thumbnails default_ statistics Hs Ht Hd Hst.
    rewrite Hs, Hst. cbn [prop rbind]. rewrite Ht. cbn [prop rbind].
    rewrite Hd. by cbn [prop rbind].
Qed.

(** X5. A channel whose snippet has no default thumbnail: [getChannelInfo]
    does not return a record without a thumbnail, it throws a
    [TypeError]. *)
Theorem channel_without_thumbnail_throws
    (data : ListData) (channel : JSObject) (more : list JSObject)
    (snippet thumbnails : JSObject) (channelId : JSVal) (w : World) :
  Response.items data = Some (channel :: more) ->
  field channel "snippet" = VObj snippet ->
  field snippet "thumbnails" = VObj thumbnails ->
  field thumbnails "default" = VUndef ->
  exists text,
    outcome (getChannelInfo (Resolve data) channelId w) = Thrown (TypeError text).
Proof.
  intros Hitems Hs Ht Hd. unfold getChannelInfo. rewrite try_rethrow.
  unfold youtube_channels_list, bind. rewrite emit_run, await_run.
  cbn [settle]. rewrite Hitems, Hs. cbn [prop rbind]. rewrite Ht.
  cbn [prop rbind]. rewrite Hd. cbn [prop rbind lift]. by eexists.
Qed.

Lemma channel_without_thumbnail_throws_example :
  exists text,
    outcome
      (getChannelInfo
         (Resolve {| Response.items :=
                       Some [ <["id" := VStr "UCBJycsmduvYEL83R_U4JriQ"]>
                                (<["snippet" :=
                                     VObj (<["title" := VStr "A channel"]>
                                             (<["thumbnails" := VObj ∅]> ∅))]> ∅) ];
                     Response.nextPageToken := VUndef |})
         (VStr "UCBJycsmduvYEL83R_U4JriQ") (start None))
    = Thrown (TypeError text).
Proof.
  eapply (channel_without_thumbnail_throws _ _ []
            (<["title" := VStr "A channel"]> (<["thumbnails" := VObj ∅]> ∅)) ∅);
    reflexivity.
Defined.

End ChannelInfo.

(** ** Video details *)

Section VideoDetails.
Import JsString Js Fetcher.

(** The parameters of the [videos.list] call for [videoIds]. *)
Definition details_params (videoIds : string) : JSObject :=
  <["part" := VStr "snippet,statistics,contentDetails"]>
    (<["id" := VStr videoIds]> ∅).

Lemma bind_run {A B} (m : M A) (k : A -> M B) (w : World) a w' :
  m w = (Returned a, w') -> bind m k w = k a w'.
Proof. unfold bind. by intros ->. Qed.

Lemma videos_list_run (reply : Reply) (videoIds : string) (w : World) :
  youtube_videos_list reply (details_params videoIds) w
  = (settle reply Returned,
     resumed (added (Call (VideosList (details_params videoIds))) w)).
Proof. unfold youtube_videos_list, bind. by rewrite emit_run, await_run. Qed.





(** What [getVideoDetails] makes of the reply to its call. *)
Definition details_of (data : ListData) : Outcome (list JSObject) :=
  match Response.items data with
  | Some videos =>
      match mapR videoDetail videos with
      | Ok batch => Returned batch
      | Throw e => Thrown e
      end
  | None => Thrown (TypeError "Cannot read properties of undefined (reading 'map')")
  end.

Lemma getVideoDetails_run (reply : Reply) (videoIds : string) (w : World) :
  getVideoDetails reply videoIds w
  = (settle reply details_of,
     resumed (added (Call (VideosList (details_params videoIds))) w)).
Proof.
  unfold getVideoDetails. rewrite try_rethrow.
  fold (details_params videoIds). unfold bind at 1. rewrite videos_list_run.
  unfold details_of.
  destruct reply as [data | e |]; cbn [settle]; [| done | done].
  destruct (Response.items data) as [videos |]; [| done].
  by destruct (mapR videoDetail videos).
Qed.


End VideoDetails.

(** ** The traffic of the batch loop *)

Section Traffic.
Import JsString Js Fetcher.

(** The calls to upstream and the timers, in order. *)
Definition traffic_of (a : Action) : list Action :=
  match a with
  | Call _ | Timer _ => [a]
  | _ => []
  end.

Definition traffic (w : World) : list Action := seen traffic_of w.

Lemma traffic_added (a : Action) (w : World) :
  traffic (added a w) = (traffic w ++ traffic_of a)%list.
Proof. apply seen_added. Qed.

Lemma traffic_resumed (w : World) : traffic (resumed w) = traffic w.
Proof. by apply seen_resumed. Qed.

(** A view of the traffic is a view of the trace. *)
Lemma seen_traffic {X} (f : Action -> list X) (w : World) :
  (forall a, traffic_of a = [] -> f a = []) ->
  seen f w = flat_map f (traffic w).
Proof.
  intros Hf. unfold traffic, seen.
  induction (trace w) as [|a t IH]; [done |]. cbn [flat_map].
  rewrite flat_map_app, IH. f_equal.
  destruct a as [request | ms | | | | | |]; cbn [traffic_of flat_map];
    rewrite ?app_nil_r; try done; by apply Hf.
Qed.

(** The id lists that the turn for [page] asks the details of: the video
    ids of its search items, joined by commas, when it has items and
    details are included. *)
Definition wanted (options : Options) (page : Page) : list string :=
  match search_reply page with
  | Resolve data =>
      match Response.items data with
      | Some ((_ :: _) as videos) =>
          if includeDetails options then
            match mapR videoId videos with
            | Ok ids => [join "," (map joinStr ids)]
            | Throw _ => []
            end
          else []
      | _ => []
      end
  | _ => []
  end.

(** The traffic of the turn for a page whose calls succeed. *)
Definition page_traffic (channelId : JSVal) (options : Options)
    (nextPageToken : JSVal) (page : Page) : list Action :=
  (Call (SearchList (searchParams channelId options nextPageToken))
   :: map (fun videoIds => Call (VideosList (details_params videoIds)))
        (wanted options page)
   ++ (if has_cursor page then [Timer 100] else []))%list.

Fixpoint loop_traffic (channelId : JSVal) (options : Options)
    (nextPageToken : JSVal) (pages : list Page) : list Action :=
  match pages with
  | [] => []
  | page :: rest =>
      (page_traffic channelId options nextPageToken page
       ++ loop_traffic channelId options (cursor page) rest)%list
  end.

(** The cursor after the turns for [pages]. *)
Definition last_cursor (nextPageToken : JSVal) (pages : list Page) : JSVal :=
  foldl (fun _ page => cursor page) nextPageToken pages.

Lemma search_list_run (reply : Reply) (params : JSObject) (w : World) :
  youtube_search_list reply params w
  = (settle reply Returned, resumed (added (Call (SearchList params)) w)).
Proof. unfold youtube_search_list, bind. by rewrite emit_run, await_run. Qed.

Lemma delay_run (ms : Z) (w : World) :
  delay ms w = (Returned tt, resumed (added (Timer ms) w)).
Proof. unfold delay, bind. by rewrite emit_run, suspend_total. Qed.

Lemma withDetails_run (page : Page) (videos : list JSObject) (w : World) :
  details_answered page videos = true ->
  exists ids merged,
    mapR videoId videos = Ok ids
    /\ mapR (merge (batch_of page)) videos = Ok merged
    /\ withDetails (details_reply page) videos w
       = (Returned merged,
          resumed
            (added (Call (VideosList (details_params (join "," (map joinStr ids))))) w)).
Proof.
  unfold details_answered, batch_of. intros H.
  destruct (mapR videoId videos) as [ids |] eqn:Hids; [| done].
  destruct (details_reply page) as [data | |] eqn:Hreply; try done.
  destruct (Response.items data) as [raw |] eqn:Hraw; [| done].
  destruct (mapR videoDetail raw) as [batch |] eqn:Hbatch; [| done].
  destruct (merge_total batch videos ids Hids) as (merged & Hmerged).
  exists ids, merged. split; [done |]. split; [done |].
  unfold withDetails. rewrite Hids.
  erewrite bind_run by apply lift_ok.
  erewrite bind_run;
    [| rewrite getVideoDetails_run; cbn [settle]; unfold details_of;
       rewrite Hraw, Hbatch; reflexivity].
  rewrite Hmerged. apply lift_ok.
Qed.

(** The turn for a page whose calls succeed. *)
Lemma fetchPage_run (channelId : JSVal) (options : Options) (page : Page)
    (allVideos : list JSObject) (nextPageToken : JSVal) (w : World) :
  answered options page = true ->
  exists w',
    fetchPage channelId options page allVideos nextPageToken w
    = (Returned ((allVideos ++ delivered options page)%list, cursor page), w')
    /\ traffic w'
       = (traffic w ++ page_traffic channelId options nextPageToken page)%list.
Proof.
  unfold answered, delivered, cursor, page_traffic, wanted, has_cursor. intros H.
  destruct (search_reply page) as [data | |] eqn:Hreply; try done.
  unfold fetchPage. rewrite Hreply.
  erewrite bind_run by (rewrite search_list_run; reflexivity).
  set (S := Call (SearchList _)).
  assert (Htail : forall (all' : list JSObject) w0, exists w1,
    ((if truthy (Response.nextPageToken data) then delay 100 else ret tt) ;;
     ret (all', Response.nextPageToken data)) w0
    = (Returned (all', Response.nextPageToken data), w1)
    /\ traffic w1
       = (traffic w0
          ++ (if truthy (Response.nextPageToken data) then [Timer 100] else []))%list).
  { intros all' w0. destruct (truthy (Response.nextPageToken data)).
    - erewrite bind_run by apply delay_run. rewrite ret_run.
      eexists. split; [done |]. by rewrite traffic_resumed, traffic_added.
    - erewrite bind_run by apply ret_run. rewrite ret_run.
      eexists. split; [done |]. by rewrite app_nil_r. }
  destruct (Response.items data) as [[|video videos] |].
  - erewrite bind_run by apply ret_run.
    destruct (Htail allVideos (resumed (added S w))) as (w1 & -> & Hw1).
    exists w1. rewrite app_nil_r. split; [done |].
    rewrite Hw1, traffic_resumed, traffic_added. cbn [traffic_of S map app].
    by rewrite <- app_assoc.
  - destruct (includeDetails options).
    + destruct (withDetails_run page (video :: videos) (resumed (added S w)) H)
        as (ids & merged & -> & -> & Hrun).
      erewrite (bind_run (bind _ _));
        [| erewrite bind_run by exact Hrun; apply ret_run].
      match goal with |- context [bind _ _ ?w0] =>
        destruct (Htail (allVideos ++ merged)%list w0) as (w1 & -> & Hw1) end.
      exists w1. split; [done |].
      rewrite Hw1, traffic_resumed, traffic_added, traffic_resumed, traffic_added.
      cbn [traffic_of S map app]. by rewrite <- !app_assoc.
    + erewrite (bind_run (bind _ _));
        [| erewrite bind_run by apply ret_run; apply ret_run].
      destruct (Htail (allVideos ++ video :: videos)%list (resumed (added S w)))
        as (w1 & -> & Hw1).
      exists w1. split; [done |].
      rewrite Hw1, traffic_resumed, traffic_added. cbn [traffic_of S map app].
      by rewrite <- app_assoc.
  - erewrite bind_run by apply ret_run.
    destruct (Htail allVideos (resumed (added S w))) as (w1 & -> & Hw1).
    exists w1. rewrite app_nil_r. split; [done |].
    rewrite Hw1, traffic_resumed, traffic_added. cbn [traffic_of S map app].
    by rewrite <- app_assoc.
Qed.

(** The loop runs through the pages whose calls succeed and whose replies
    carry a cursor. *)
Lemma fetchLoop_prefix (channelId : JSVal) (options : Options)
    (pages rest : list Page) (allVideos : list JSObject) (nextPageToken : JSVal)
    (w : World) :
  Forall (fun page => answered options page = true /\ has_cursor page = true) pages ->
  exists w',
    fetchLoop channelId options (pages ++ rest) allVideos nextPageToken w
    = fetchLoop channelId options rest
        (allVideos ++ flat_map (delivered options) pages)%list
        (last_cursor nextPageToken pages) w'
    /\ traffic w'
       = (traffic w ++ loop_traffic channelId options nextPageToken pages)%list
    /\ search_calls w' = search_calls w + length pages.
Proof.
  intros Hpages. revert allVideos nextPageToken w.
  induction Hpages as [|page pages [Hpage Hmore] _ IH];
    intros allVideos nextPageToken w.
  - exists w. cbn. rewrite !app_nil_r. split; [done |]. split; [done | lia].
  - cbn [app fetchLoop].
    destruct (fetchPage_run channelId options page allVideos nextPageToken w Hpage)
      as (w1 & Hrun & Htraffic).
    pose proof (fetchPage_search_calls channelId options page allVideos nextPageToken w)
      as Hcalls.
    rewrite Hrun in Hcalls. cbn [world snd] in Hcalls.
    erewrite bind_run by exact Hrun. cbn [fst snd].
    replace (truthy (cursor page)) with true
      by (unfold has_cursor, cursor in *; by destruct (search_reply page)).
    destruct (IH (allVideos ++ delivered options page)%list (cursor page) w1)
      as (w' & Heq & Htraffic' & Hcalls').
    exists w'. split; [| split].
    + rewrite Heq. cbn [flat_map last_cursor foldl]. by rewrite app_assoc.
    + rewrite Htraffic', Htraffic. cbn [loop_traffic]. by rewrite app_assoc.
    + rewrite Hcalls', Hcalls. cbn [length]. lia.
Qed.

Lemma loop_traffic_snoc (channelId : JSVal) (options : Options)
    (nextPageToken : JSVal) (pages : list Page) (last : Page) :
  loop_traffic channelId options nextPageToken (pages ++ [last])
  = (loop_traffic channelId options nextPageToken pages
     ++ page_traffic channelId options (last_cursor nextPageToken pages) last)%list.
Proof.
  revert nextPageToken. induction pages as [|page pages IH]; intros nextPageToken.
  - cbn. by rewrite app_nil_r.
  - cbn [app loop_traffic last_cursor foldl]. rewrite IH. by rewrite app_assoc.
Qed.

(** The traffic of a run that succeeds. *)
Lemma getAllChannelVideos_traffic
    (pages : list Page) (last : Page) (beyond : list Page)
    (channelId : JSVal) (options : Options) (w : World) :
  Forall (fun page => answered options page = true /\ has_cursor page = true) pages ->
  answered options last = true ->
  has_cursor last = false ->
  traffic (world (getAllChannelVideos (pages ++ last :: beyond) channelId options w))
  = (traffic w ++ loop_traffic channelId options VNull (pages ++ [last]))%list.
Proof.
  intros Hpages Hlast Hend. unfold getAllChannelVideos. rewrite try_rethrow.
  destruct (fetchLoop_prefix channelId options pages (last :: beyond) [] VNull w Hpages)
    as (w' & -> & Htraffic & _).
  cbn [fetchLoop].
  destruct (fetchPage_run channelId options last
              ([] ++ flat_map (delivered options) pages)%list
              (last_cursor VNull pages) w' Hlast) as (w1 & Hrun & Htraffic1).
  erewrite bind_run by exact Hrun. cbn [fst snd].
  replace (truthy (cursor last)) with false
    by (unfold has_cursor, cursor in *; by destruct (search_reply last)).
  rewrite ret_run. cbn [world snd].
  by rewrite Htraffic1, Htraffic, loop_traffic_snoc, app_assoc.
Qed.

End Traffic.

(** ** The cursor, the pauses and the detail calls of the batch loop *)

Section Pacing.
Import JsString Js Fetcher.

(** A search call, with the [pageToken] it carries, or a timer. *)
Inductive Beat : Type :=
  | Search (pageToken : JSVal)
  | Wait (ms : Z).

Definition beat_of (a : Action) : list Beat :=
  match a with
  | Call (SearchList params) => [Search (field params "pageToken")]
  | Timer ms => [Wait ms]
  | _ => []
  end.

(** The search calls and the timers so far, oldest first. *)
Definition beats (w : World) : list Beat := seen beat_of w.

(** The [id] parameter of a detail call. *)
Definition asked_of (a : Action) : list JSVal :=
  match a with
  | Call (VideosList params) => [field params "id"]
  | _ => []
  end.

(** The [id] parameters of the detail calls so far, oldest first. *)
Definition asked (w : World) : list JSVal := seen asked_of w.

Lemma searchParams_pageToken (channelId : JSVal) (options : Options)
    (nextPageToken : JSVal) :
  field (searchParams channelId options nextPageToken) "pageToken" = nextPageToken.
Proof.
  unfold searchParams, field.
  destruct (truthy (publishedAfter options)), (truthy (publishedBefore options));
    rewrite !lookup_insert_ne by done; by rewrite lookup_insert_eq.
Qed.

Lemma beats_of_details (lists : list string) :
  flat_map beat_of
    (map (fun videoIds => Call (VideosList (details_params videoIds))) lists) = [].
Proof. by induction lists. Qed.

Lemma beats_of_page (channelId : JSVal) (options : Options)
    (nextPageToken : JSVal) (page : Page) :
  flat_map beat_of (page_traffic channelId options nextPageToken page)
  = Search nextPageToken :: (if has_cursor page then [Wait 100] else []).
Proof.
  unfold page_traffic. cbn [flat_map beat_of app].
  rewrite searchParams_pageToken, flat_map_app, beats_of_details.
  by destruct (has_cursor page).
Qed.

Lemma beats_of_loop (channelId : JSVal) (options : Options)
    (nextPageToken : JSVal) (pages : list Page) (last : Page) :
  Forall (fun page => has_cursor page = true) pages ->
  has_cursor last = false ->
  flat_map beat_of (loop_traffic channelId options nextPageToken (pages ++ [last]))
  = Search nextPageToken
    :: flat_map (fun page => [Wait 100; Search (cursor page)]) pages.
Proof.
  intros Hpages Hlast. revert nextPageToken.
  induction Hpages as [|page pages Hpage _ IH]; intros nextPageToken;
    cbn [app loop_traffic flat_map]; rewrite flat_map_app, beats_of_page.
  - by rewrite Hlast.
  - by rewrite Hpage, IH.
Qed.

(** X7. In a run of [getAllChannelVideos] that succeeds, the first search
    call carries the page token [null]; after every page whose reply
    carries a cursor the loop waits 100 ms, once, and then searches with
    that cursor as page token; after the last page there is neither a
    timer nor a search. *)
Theorem cursor_is_passed_on
    (pages : list Page) (last : Page) (beyond : list Page)
    (channelId : JSVal) (options : Options) (w : World) :
  Forall (fun page => answered options page = true /\ has_cursor page = true) pages ->
  answered options last = true ->
  has_cursor last = false ->
  let run := getAllChannelVideos (pages ++ last :: beyond) channelId options w in
  beats (world run)
  = (beats w
     ++ Search VNull :: flat_map (fun page => [Wait 100; Search (cursor page)]) pages)%list.
Proof.
  intros Hpages Hlast Hend. cbn zeta. unfold beats.
  assert (Hview : forall a, traffic_of a = [] -> beat_of a = [])
    by (by intros [[] | | | | | | |]).
  rewrite !(seen_traffic beat_of _ Hview).
  rewrite (getAllChannelVideos_traffic _ _ _ _ _ _ Hpages Hlast Hend), flat_map_app.
  rewrite beats_of_loop; [done | | done].
  eapply Forall_impl; [exact Hpages | by intros ? []].
Qed.

(** Three pages of one video: [null], then the cursors of the first and
    of the second page, a pause before each. *)
Lemma cursor_is_passed_on_example :
  let run :=
    getAllChannelVideos (Lib.video_pages Sample.three_pages)
      (VStr "UCBJycsmduvYEL83R_U4JriQ") default_options (start None) in
  beats (world run)
  = (beats (start None)
     ++ Search VNull
        :: flat_map (fun page => [Wait 100; Search (cursor page)])
             [ Sample.page ["a"] ["a"] (VStr "CAEQAA");
               Sample.page ["b"] ["b"] (VStr "CAIQAA") ])%list.
Proof.
  apply (cursor_is_passed_on
           [ Sample.page ["a"] ["a"] (VStr "CAEQAA");
             Sample.page ["b"] ["b"] (VStr "CAIQAA") ]
           (Sample.page ["c"] ["c"] VUndef) []
           (VStr "UCBJycsmduvYEL83R_U4JriQ") default_options (start None)).
  - repeat constructor.
  - reflexivity.
  - reflexivity.
Defined.

Lemma asked_of_page (channelId : JSVal) (options : Options)
    (nextPageToken : JSVal) (page : Page) :
  flat_map asked_of (page_traffic channelId options nextPageToken page)
  = map VStr (wanted options page).
Proof.
  unfold page_traffic. cbn [flat_map asked_of app]. rewrite flat_map_app.
  replace (flat_map asked_of (if has_cursor page then [Timer 100] else []))
    with (@nil JSVal) by (by destruct (has_cursor page)).
  rewrite app_nil_r. induction (wanted options page) as [|videoIds lists IH]; [done |].
  cbn [map flat_map asked_of app]. by rewrite IH.
Qed.

Lemma asked_of_loop (channelId : JSVal) (options : Options)
    (nextPageToken : JSVal) (pages : list Page) :
  flat_map asked_of (loop_traffic channelId options nextPageToken pages)
  = map VStr (flat_map (wanted options) pages).
Proof.
  revert nextPageToken. induction pages as [|page pages IH]; intros nextPageToken;
    [done |].
  cbn [loop_traffic flat_map]. by rewrite flat_map_app, asked_of_page, IH, map_app.
Qed.

(** X8. In a run of [getAllChannelVideos] that succeeds, the detail
    calls are, in the order of the pages, one for every page that has
    search items when details are included, asking for the video ids of
    the items of that page, in their order and joined by commas; a page
    without items gets no detail call. *)
Theorem details_are_asked_page_by_page
    (pages : list Page) (last : Page) (beyond : list Page)
    (channelId : JSVal) (options : Options) (w : World) :
  Forall (fun page => answered options page = true /\ has_cursor page = true) pages ->
  answered options last = true ->
  has_cursor last = false ->
  let run := getAllChannelVideos (pages ++ last :: beyond) channelId options w in
  asked (world run)
  = (asked w ++ map VStr (flat_map (wanted options) (pages ++ [last])))%list.
Proof.
  intros Hpages Hlast Hend. cbn zeta. unfold asked.
  assert (Hview : forall a, traffic_of a = [] -> asked_of a = [])
    by (by intros [[] | | | | | | |]).
  rewrite !(seen_traffic asked_of _ Hview).
  rewrite (getAllChannelVideos_traffic _ _ _ _ _ _ Hpages Hlast Hend), flat_map_app.
  by rewrite asked_of_loop.
Qed.

(** A page of three videos, then an empty page, then a page of two: two
    detail calls. *)
Lemma details_are_asked_page_by_page_example :
  let run :=
    getAllChannelVideos
      [ Sample.page ["a"; "b"; "c"] ["a"; "b"; "c"] (VStr "CAEQAA");
        Sample.page [] [] (VStr "CAIQAA");
        Sample.page ["d"; "e"] ["d"; "e"] VUndef ]
      (VStr "UCBJycsmduvYEL83R_U4JriQ") default_options (start None) in
  asked (world run) = (asked (start None) ++ map VStr ["a,b,c"; "d,e"])%list.
Proof.
  apply (details_are_asked_page_by_page
           [ Sample.page ["a"; "b"; "c"] ["a"; "b"; "c"] (VStr "CAEQAA");
             Sample.page [] [] (VStr "CAIQAA") ]
           (Sample.page ["d"; "e"] ["d"; "e"] VUndef) []
           (VStr "UCBJycsmduvYEL83R_U4JriQ") default_options (start None)).
  - repeat constructor.
  - reflexivity.
  - reflexivity.
Defined.

(** The search items of a page. *)
Definition found (page : Page) : list JSObject :=
  match search_reply page with
  | Resolve data => summaries_of data
  | _ => []
  end.

Lemma without_details (options : Options) (page : Page) data :
  includeDetails options = false ->
  search_reply page = Resolve data ->
  answered options page = true
  /\ delivered options page = found page
  /\ wanted options page = [].
Proof.
  unfold answered, delivered, found, wanted, summaries_of. intros -> ->.
  by destruct (Response.items data) as [[|video videos] |].
Qed.

(** X9. With [includeDetails] false, a run of [getAllChannelVideos]
    whose searches succeed makes no detail call and returns the search
    items of the pages, in order, as upstream gave them. *)
Theorem without_details_the_items_are_returned
    (pages : list Page) (last : Page) (beyond : list Page) (data : ListData)
    (channelId : JSVal) (options : Options) (w : World) :
  includeDetails options = false ->
  Forall (fun page => has_cursor page = true) pages ->
  search_reply last = Resolve data ->
  truthy (Response.nextPageToken data) = false ->
  let run := getAllChannelVideos (pages ++ last :: beyond) channelId options w in
  outcome run = Returned (flat_map found (pages ++ [last]))
  /\ asked (world run) = asked w.
Proof.
  intros Hoff Hpages Hlast Hend. cbn zeta.
  assert (Hgood :
    Forall (fun page => answered options page = true /\ has_cursor page = true) pages).
  { eapply Forall_impl; [exact Hpages |]. intros page Hpage. split; [| done].
    unfold has_cursor in Hpage.
    destruct (search_reply page) as [data' | |] eqn:Hreply; try done.
    by destruct (without_details options page data' Hoff Hreply). }
  destruct (without_details options last data Hoff Hlast) as (Hans & _ & _).
  assert (Hnone : has_cursor last = false) by (unfold has_cursor; by rewrite Hlast).
  assert (Hall : Forall (fun page => exists data', search_reply page = Resolve data')
                   (pages ++ [last])).
  { apply Forall_app. split; [| by repeat econstructor].
    eapply Forall_impl; [exact Hpages |]. intros page Hpage. unfold has_cursor in Hpage.
    destruct (search_reply page); try done. by eexists. }
  split.
  - unfold getAllChannelVideos. rewrite try_rethrow.
    destruct (fetchLoop_answered channelId options pages last beyond [] VNull w
                Hgood Hans Hnone) as [_ ->].
    cbn [app]. f_equal. induction Hall as [|page rest [data' Hpage] _ IH]; [done |].
    cbn [flat_map]. rewrite IH.
    by destruct (without_details options page data' Hoff Hpage) as (_ & -> & _).
  - unfold asked.
    assert (Hview : forall a, traffic_of a = [] -> asked_of a = [])
      by (by intros [[] | | | | | | |]).
    rewrite !(seen_traffic asked_of _ Hview).
    rewrite (getAllChannelVideos_traffic _ _ _ _ _ _ Hgood Hans Hnone), flat_map_app.
    rewrite asked_of_loop.
    replace (flat_map (wanted options) (pages ++ [last])) with (@nil string);
      [by rewrite app_nil_r |].
    induction Hall as [|page rest [data' Hpage] _ IH]; [done |].
    cbn [flat_map]. rewrite <- IH.
    by destruct (without_details options page data' Hoff Hpage) as (_ & _ & ->).
Qed.

Lemma without_details_the_items_are_returned_example :
  let options :=
    {| maxResults := 50;
       order := VStr "date";
       publishedAfter := VNull;
       publishedBefore := VNull;
       includeDetails := false;
       onProgress := fun _ => ret tt;
       onVideos := fun _ => ret tt |} in
  let run :=
    getAllChannelVideos
      [ Sample.page ["a"; "b"] [] (VStr "CAEQAA"); Sample.page ["c"] [] VUndef ]
      (VStr "UCBJycsmduvYEL83R_U4JriQ") options (start None) in
  outcome run
  = Returned
      (flat_map found
         [ Sample.page ["a"; "b"] [] (VStr "CAEQAA"); Sample.page ["c"] [] VUndef ])
  /\ asked (world run) = asked (start None).
Proof.
  intros options.
  apply (without_details_the_items_are_returned
           [ Sample.page ["a"; "b"] [] (VStr "CAEQAA") ] (Sample.page ["c"] [] VUndef) []
           {| Response.items := Some (map Sample.search_item ["c"]);
              Response.nextPageToken := VUndef |}
           (VStr "UCBJycsmduvYEL83R_U4JriQ") options (start None)).
  - reflexivity.
  - repeat constructor.
  - reflexivity.
  - reflexivity.
Defined.

End Pacing.

(** ** A page that fails *)

Section Failure.
Import JsString Js Fetcher.

(** Upstream rejects a call of the turn for [page] with [e]: the search,
    or the detail call that the turn makes for the items of the page. *)
Definition rejected (options : Options) (page : Page) (e : JSError) : Prop :=
  search_reply page = Reject e
  \/ exists data video videos ids,
       search_reply page = Resolve data
       /\ Response.items data = Some (video :: videos)
       /\ includeDetails options = true
       /\ mapR videoId (video :: videos) = Ok ids
       /\ details_reply page = Reject e.

Lemma bind_thrown {A B} (m : M A) (k : A -> M B) (w : World) e w' :
  m w = (Thrown e, w') -> bind m k w = (Thrown e, w').
Proof. unfold bind. by intros ->. Qed.

Lemma fetchPage_rejected (channelId : JSVal) (options : Options) (page : Page)
    (allVideos : list JSObject) (nextPageToken : JSVal) (w : World) e :
  rejected options page e ->
  outcome (fetchPage channelId options page allVideos nextPageToken w) = Thrown e.
Proof.
  unfold fetchPage.
  intros [Hreply | (data & video & videos & ids & Hreply & Hitems & Hon & Hids & Hdetails)];
    rewrite Hreply.
  - erewrite bind_thrown; [done |]. by rewrite search_list_run.
  - erewrite bind_run by (rewrite search_list_run; reflexivity).
    rewrite Hitems, Hon, Hdetails.
    erewrite bind_thrown; [done |].
    erewrite bind_thrown; [done |].
    unfold withDetails. rewrite Hids.
    erewrite bind_run by apply lift_ok.
    erewrite bind_thrown; [done |]. by rewrite getVideoDetails_run.
Qed.

(** X10. When the pages before page [k] succeed and carry a cursor, and
    upstream rejects the search of page [k], or the detail call for its
    items, with an error, [getAllChannelVideos] throws that error: the
    videos of the pages before are not returned, and no search is made
    after the [k]-th. *)
Theorem a_rejected_page_fails_the_fetch
    (pages : list Page) (bad : Page) (beyond : list Page) (e : JSError)
    (channelId : JSVal) (options : Options) (w : World) :
  Forall (fun page => answered options page = true /\ has_cursor page = true) pages ->
  rejected options bad e ->
  let run := getAllChannelVideos (pages ++ bad :: beyond) channelId options w in
  outcome run = Thrown e
  /\ search_calls (world run) = search_calls w + S (length pages).
Proof.
  intros Hpages Hbad. cbn zeta. unfold getAllChannelVideos. rewrite try_rethrow.
  destruct (fetchLoop_prefix channelId options pages (bad :: beyond) [] VNull w Hpages)
    as (w' & -> & _ & Hcalls).
  cbn [fetchLoop]. rewrite outcome_bind, world_bind.
  rewrite (fetchPage_rejected _ _ _ _ _ _ _ Hbad), fetchPage_search_calls.
  split; [done | lia].
Qed.

(** Fifty videos, then the quota runs out: nothing is returned. *)
Lemma a_rejected_page_fails_the_fetch_example :
  let run :=
    getAllChannelVideos
      [ Sample.page (Sample.ids 0 50) (Sample.ids 0 50) (VStr "CDIQAA");
        {| search_reply := Reject (Error "quotaExceeded"); details_reply := NoReply |};
        Sample.page ["z"] ["z"] VUndef ]
      (VStr "UCBJycsmduvYEL83R_U4JriQ") default_options (start None) in
  outcome run = Thrown (Error "quotaExceeded")
  /\ search_calls (world run) = search_calls (start None) + 2.
Proof.
  apply (a_rejected_page_fails_the_fetch
           [ Sample.page (Sample.ids 0 50) (Sample.ids 0 50) (VStr "CDIQAA") ]
           {| search_reply := Reject (Error "quotaExceeded"); details_reply := NoReply |}
           [ Sample.page ["z"] ["z"] VUndef ]
           (Error "quotaExceeded")
           (VStr "UCBJycsmduvYEL83R_U4JriQ") default_options (start None)).
  - repeat constructor.
  - by left.
Defined.

End Failure.

(** ** What the batch loop does to the world *)

Section StepsBatch.
Import Js Fetcher.

Context (I : World -> World -> Prop) `{Hobserving : !Observing I}.
Hypothesis quiet_call : forall request, quiet (Call request).
Hypothesis quiet_timer : forall ms, quiet (Timer ms).

Lemma steps_fetchPage (channelId : JSVal) (options : Options) (page : Page)
    (allVideos : list JSObject) (nextPageToken : JSVal) :
  steps I (fetchPage channelId options page allVideos nextPageToken).
Proof.
  apply (steps_bind I); [by apply (steps_search_list I) |].
  intros response. apply (steps_fetchPage_rest I); [intros; apply quiet_call | done].
Qed.

Lemma steps_fetchLoop (channelId : JSVal) (options : Options) (pages : list Page)
    (allVideos : list JSObject) (nextPageToken : JSVal) :
  steps I (fetchLoop channelId options pages allVideos nextPageToken).
Proof.
  revert allVideos nextPageToken.
  induction pages as [|page rest IH]; intros allVideos nextPageToken;
    cbn [fetchLoop].
  - apply (steps_bind I); [apply steps_fetchPage | intros; apply (steps_pending I)].
  - apply (steps_bind I); [apply steps_fetchPage |]. intros turn.
    destruct (truthy _); [apply IH | apply (steps_ret I)].
Qed.

Lemma steps_getAllChannelVideos (pages : list Page) (channelId : JSVal)
    (options : Options) :
  steps I (getAllChannelVideos pages channelId options).
Proof.
  apply (steps_try_catch I); [apply steps_fetchLoop | intros; apply (steps_throw I)].
Qed.

End StepsBatch.

(** ** The batch route, whatever upstream does *)

Section BatchAnswers.
Import JsString Js Fetcher Lib Router.

(** What [res.json] sent, with the status. *)
Definition answer_of (a : Action) : list (Z * JSVal) :=
  match a with
  | ResJson status body => [(status, body)]
  | _ => []
  end.

(** The answers so far, oldest first. *)
Definition answers (w : World) : list (Z * JSVal) := seen answer_of w.

(** The [try] block of [fetchYoutubeVideos] (66-102). *)
Definition batch_session (upstream : Upstream) (channelInput : JSVal)
  : M (list JSObject) :=
  channelId <- getChannelId (channel_search upstream) channelInput ;;
  channelInfo <- getChannelInfo (channel_lookup upstream) channelId ;;
  getAllChannelVideos (video_pages upstream) channelId
    {| maxResults := 50;
       order := VStr "date";
       publishedAfter := publishedAfter default_options;
       publishedBefore := publishedBefore default_options;
       includeDetails := true;
       onProgress := onProgress default_options;
       onVideos := onVideos default_options |}.

Lemma bind_ret {A} (m : M A) (w : World) : bind m (fun a => ret a) w = m w.
Proof. unfold bind. by destruct (m w) as [[a | e |] w1]. Qed.

Lemma get_videos_run (upstream : Upstream) (channel : JSVal) (w : World) :
  get_videos upstream channel w
  = match batch_session upstream channel w with
    | (Returned videos, w1) =>
        (Returned tt, added (ResJson 200 (VArr (map VObj videos))) w1)
    | (Thrown e, w1) => (Returned tt, added (ResJson 200 VUndef) w1)
    | (Pending, w1) => (Pending, w1)
    end.
Proof.
  unfold get_videos, fetchYoutubeVideos, try_catch. unfold bind at 1.
  match goal with |- context [bind (getChannelId ?r ?c) ?k w] =>
    replace (bind (getChannelId r c) k w)
      with (bind (batch_session upstream channel) (fun videos => ret (Some videos)) w)
      by (unfold batch_session; rewrite bind_assoc; apply bind_ext; intros ? ?;
          by rewrite bind_assoc)
  end.
  unfold bind at 1.
  by destruct (batch_session upstream channel w) as [[videos | e |] w1].
Qed.

Lemma steps_batch_session {X} (f : Action -> list X)
    (upstream : Upstream) (channel : JSVal) (w : World) :
  (forall text, f (ConsoleLog text) = []) ->
  (forall request, f (Call request) = []) ->
  (forall ms, f (Timer ms) = []) ->
  seen f (world (batch_session upstream channel w)) = seen f w.
Proof.
  intros Hconsole Hcall Htimer.
  pose (Hview := same_view_observing f Hconsole).
  assert (H : steps (same_view f) (batch_session upstream channel)); [| apply H].
  apply (steps_bind (same_view f)); [by apply (steps_getChannelId (same_view f)) |].
  intros channelId.
  apply (steps_bind (same_view f)); [by apply (steps_getChannelInfo (same_view f)) |].
  intros channelInfo. by apply (steps_getAllChannelVideos (same_view f)).
Qed.

(** X11. The batch route answers once the lookups and the loop have
    settled, and always with status 200: with the array of the videos
    when everything succeeded, and with no body ([res.json(undefined)])
    when anything failed, be it the channel lookup, the channel
    information or any page.  No error status and no error message is
    sent, and the route itself never throws; while upstream is silent
    nothing is answered. *)
Theorem batch_route_always_answers_200
    (upstream : Upstream) (channel : JSVal) (w : World) :
  let session := batch_session upstream channel w in
  let run := get_videos upstream channel w in
  match outcome session with
  | Returned videos =>
      outcome run = Returned tt
      /\ answers (world run) = (answers w ++ [(200%Z, VArr (map VObj videos))])%list
  | Thrown _ =>
      outcome run = Returned tt
      /\ answers (world run) = (answers w ++ [(200%Z, VUndef)])%list
  | Pending =>
      outcome run = Pending /\ answers (world run) = answers w
  end.
Proof.
  cbn zeta. rewrite get_videos_run.
  pose proof (steps_batch_session answer_of upstream channel w
                (fun _ => eq_refl) (fun _ => eq_refl) (fun _ => eq_refl)) as Hsame.
  destruct (batch_session upstream channel w) as [[videos | e |] w1];
    cbn [outcome world fst snd] in *; (split; [done |]); unfold answers;
    by rewrite ?seen_added, Hsame.
Qed.

(** X12. A channel parameter that is not a string (a missing parameter
    is [undefined]) never reaches upstream on the batch route:
    [getChannelId] throws a [TypeError] on [input.startsWith], and the
    route answers 200 with no body. *)
Theorem batch_route_without_a_channel
    (upstream : Upstream) (channel : JSVal) (w : World) :
  (forall text, channel <> VStr text) ->
  let run := get_videos upstream channel w in
  outcome run = Returned tt
  /\ calls (world run) = calls w
  /\ answers (world run) = (answers w ++ [(200%Z, VUndef)])%list.
Proof.
  intros Hchannel. cbn zeta. rewrite get_videos_run.
  assert (Hsession :
    batch_session upstream channel w = (Thrown (not_a_string channel), w)).
  { unfold batch_session. apply bind_thrown. unfold getChannelId.
    rewrite try_rethrow. destruct channel; try done. by destruct (Hchannel s). }
  rewrite Hsession. cbn [outcome world fst snd]. split; [done |].
  unfold answers. by rewrite calls_added, seen_added, app_nil_r.
Qed.

Lemma batch_route_without_a_channel_example :
  let run := get_videos Sample.three_pages VUndef (start None) in
  outcome run = Returned tt
  /\ calls (world run) = calls (start None)
  /\ answers (world run) = (answers (start None) ++ [(200%Z, VUndef)])%list.
Proof.
  apply (batch_route_without_a_channel Sample.three_pages VUndef (start None)).
  intros text. discriminate.
Defined.

End BatchAnswers.

(** ** The stream route, whatever upstream does *)

Section StreamRoute.
Import JsString Js Fetcher Lib Router.

(** What [res.writeHead] sent. *)
Definition head_of (a : Action) : list (Z * JSObject) :=
  match a with
  | ResWriteHead status headers => [(status, headers)]
  | _ => []
  end.

Definition heads (w : World) : list (Z * JSObject) := seen head_of w.

Definition end_of (a : Action) : list unit :=
  match a with
  | ResEnd => [()]
  | _ => []
  end.

(** How many times [res.end] was called. *)
Definition ended (w : World) : nat := length (seen end_of w).

(** The world when the stream has been opened. *)
Definition opened (w : World) : World := world (open_stream w).

Lemma seen_opened {X} (f : Action -> list X) (w : World) :
  seen f (opened w)
  = (seen f w ++ f (ResWriteHead 200 sse_headers) ++ f (ResWrite connected))%list.
Proof.
  unfold opened, open_stream, set_videoCount, bind. rewrite !emit_run.
  cbn [world snd]. unfold seen. cbn [trace added world snd emit].
  rewrite !flat_map_app. cbn [flat_map]. by rewrite !app_nil_r, app_assoc.
Qed.

Lemma seen_write_video {X} (f : Action -> list X) (video : JSObject) (w : World) :
  (forall event, f (ResWrite event) = []) ->
  seen f (world (write_video video w)) = seen f w.
Proof.
  intros Hwrite. unfold write_video, get_videoCount, set_videoCount, bind.
  rewrite emit_run. cbn [world snd]. unfold seen. cbn [trace added world snd emit].
  rewrite flat_map_app. cbn [flat_map]. by rewrite Hwrite, !app_nil_r.
Qed.

(** The lookups and the loop make calls, start timers and write events,
    nothing else. *)
Lemma seen_fetching {X} (f : Action -> list X)
    (upstream : Upstream) (channel : JSVal) (w : World) :
  (forall text, f (ConsoleLog text) = []) ->
  (forall request, f (Call request) = []) ->
  (forall ms, f (Timer ms) = []) ->
  (forall event, f (ResWrite event) = []) ->
  seen f (world (fetching upstream channel w)) = seen f w.
Proof.
  intros Hconsole Hcall Htimer Hwrite.
  pose (Hview := same_view_observing f Hconsole).
  assert (Hprogress : forall progress, steps (same_view f) (write_progress progress))
    by (intros progress; apply (steps_emit (same_view f)); apply Hwrite).
  assert (Hvideos : forall videos, steps (same_view f) (forEach write_video videos)).
  { intros videos. induction videos as [|video videos IH]; cbn [forEach];
      [apply (steps_ret (same_view f)) |].
    apply (steps_bind (same_view f)); [| by intros].
    intros w0. by apply seen_write_video. }
  assert (H : steps (same_view f) (fetching upstream channel)); [| apply H].
  unfold fetching.
  repeat first
    [ apply Hprogress
    | (apply (steps_getChannelId (same_view f)); intros; apply Hcall)
    | (apply (steps_getChannelInfo (same_view f)); intros; apply Hcall)
    | apply (steps_ret (same_view f))
    | (apply (steps_streamAllChannelVideos (same_view f));
       [ intros; apply Hcall | intros; apply Htimer | intros; apply Hcall
       | intros; cbn [onProgress]; apply Hprogress
       | intros; cbn [onVideos]; apply Hvideos ])
    | (apply (steps_bind (same_view f)); [| intros ?]) ].
Qed.

(** The last event of a session that succeeded with [channelInfo]. *)
Definition complete_event (channelInfo : JSObject) (videoCount : nat) : JSObject :=
  <["totalVideos" := VNum (Z.of_nat videoCount)]>
    (<["message" := VStr "All videos fetched successfully"]>
       (<["channelInfo" := VObj channelInfo]> ∅) ∪ {["type" := VStr "complete"]}).

Definition error_event (error : JSError) : JSObject :=
  <["type" := VStr "error"]> (<["message" := VStr (message error)]> ∅).

Lemma get_stream_run (upstream : Upstream) (channel : JSVal) (w : World) :
  truthy channel = true ->
  get_stream upstream channel w
  = match fetching upstream channel (opened w) with
    | (Returned channelInfo, w1) =>
        (Returned tt,
         added ResEnd
           (added (ResWrite (complete_event channelInfo (videoCount w1))) w1))
    | (Thrown e, w1) =>
        (Returned tt, added ResEnd (added (ResWrite (error_event e)) w1))
    | (Pending, w1) => (Pending, w1)
    end.
Proof.
  intros Hchannel. unfold get_stream. rewrite Hchannel. cbn [negb].
  assert (Hopen : open_stream w = (Returned tt, opened w)) by reflexivity.
  erewrite bind_run by exact Hopen.
  unfold streamYoutubeVideos, try_catch. rewrite streamSession_fetching.
  unfold bind at 1.
  by destruct (fetching upstream channel (opened w)) as [[channelInfo | e |] w1].
Qed.

(** X13. The stream route either answers or streams.  A channel
    parameter that is missing or falsy (the empty string is) is answered
    400 with an [error] body, and nothing else is done: no header of the
    event stream, no event, no call to upstream.  Any other parameter gets
    the headers of the event stream with status 200, once, and no JSON
    answer, whatever upstream does afterwards. *)
Theorem stream_route_answers_or_streams
    (upstream : Upstream) (channel : JSVal) (w : World) :
  let run := get_stream upstream channel w in
  if truthy channel then
    answers (world run) = answers w
    /\ heads (world run) = (heads w ++ [(200%Z, sse_headers)])%list
  else
    outcome run = Returned tt
    /\ answers (world run)
       = (answers w
          ++ [(400%Z, VObj {["error" := VStr "Channel parameter is required"]})])%list
    /\ heads (world run) = heads w
    /\ events (world run) = events w
    /\ calls (world run) = calls w.
Proof.
  cbn zeta. destruct (truthy channel) eqn:Hchannel.
  - rewrite (get_stream_run _ _ _ Hchannel).
    pose proof (seen_fetching answer_of upstream channel (opened w)
                  (fun _ => eq_refl) (fun _ => eq_refl) (fun _ => eq_refl)
                  (fun _ => eq_refl)) as Hanswers.
    pose proof (seen_fetching head_of upstream channel (opened w)
                  (fun _ => eq_refl) (fun _ => eq_refl) (fun _ => eq_refl)
                  (fun _ => eq_refl)) as Hheads.
    rewrite seen_opened in Hanswers. rewrite seen_opened in Hheads.
    cbn [answer_of head_of app] in *.
    rewrite app_nil_r in Hanswers.
    destruct (fetching upstream channel (opened w)) as [[channelInfo | e |] w1];
      cbn [outcome world fst snd] in *; unfold answers, heads;
      by rewrite ?seen_added, ?app_nil_r, Hanswers, Hheads.
  - unfold get_stream. rewrite Hchannel. cbn [negb]. rewrite emit_run.
    cbn [outcome world fst snd]. unfold answers, heads, events.
    by rewrite calls_added, !seen_added, !app_nil_r.
Qed.

(** What the route did to the response. *)
Definition response_of (a : Action) : list Action :=
  match a with
  | ResJson _ _ | ResWriteHead _ _ | ResWrite _ | ResEnd => [a]
  | _ => []
  end.

(** What was done to the response so far, oldest first. *)
Definition responses (w : World) : list Action := seen response_of w.

(** X14. The stream route never throws.  When the session settles, by
    success or by failure, [res.end] is called once, and of what is done
    to the response it comes last, right after the last event is written;
    while upstream is silent the stream stays open. *)
Theorem stream_is_ended_once
    (upstream : Upstream) (channel : JSVal) (w : World) :
  truthy channel = true ->
  let run := get_stream upstream channel w in
  match outcome run with
  | Returned _ =>
      ended (world run) = S (ended w)
      /\ exists before event,
           responses (world run) = (before ++ [ResWrite event; ResEnd])%list
  | Thrown _ => False
  | Pending => ended (world run) = ended w
  end.
Proof.
  intros Hchannel. cbn zeta. rewrite (get_stream_run _ _ _ Hchannel).
  pose proof (seen_fetching end_of upstream channel (opened w)
                (fun _ => eq_refl) (fun _ => eq_refl) (fun _ => eq_refl)
                (fun _ => eq_refl)) as Hends.
  rewrite seen_opened in Hends. cbn [end_of app] in Hends.
  rewrite app_nil_r in Hends.
  destruct (fetching upstream channel (opened w)) as [[channelInfo | e |] w1];
    cbn [outcome world fst snd] in *; unfold ended, responses.
  - split.
    + rewrite !seen_added, Hends. cbn [end_of]. rewrite app_nil_r, length_app.
      cbn [length]. lia.
    + eexists (seen response_of w1), _. rewrite !seen_added. cbn [response_of].
      by rewrite <- app_assoc.
  - split.
    + rewrite !seen_added, Hends. cbn [end_of]. rewrite app_nil_r, length_app.
      cbn [length]. lia.
    + eexists (seen response_of w1), _. rewrite !seen_added. cbn [response_of].
      by rewrite <- app_assoc.
  - by rewrite Hends.
Qed.

Lemma stream_is_ended_once_example :
  let run :=
    get_stream Sample.three_pages (VStr "UCBJycsmduvYEL83R_U4JriQ") (start None) in
  match outcome run with
  | Returned _ =>
      ended (world run) = S (ended (start None))
      /\ exists before event,
           responses (world run) = (before ++ [ResWrite event; ResEnd])%list
  | Thrown _ => False
  | Pending => ended (world run) = ended (start None)
  end.
Proof.
  apply (stream_is_ended_once Sample.three_pages (VStr "UCBJycsmduvYEL83R_U4JriQ")
           (start None)).
  reflexivity.
Defined.

(** X15. The last event of the stream reports the session: a [complete]
    event whose [totalVideos] is the number of [video] events sent before
    it, or an [error] event that carries the message of the error that
    made the session fail, and nothing more of it. *)
Theorem last_event_reports_the_session
    (upstream : Upstream) (channel : JSVal) (w : World) :
  truthy channel = true ->
  let session :=
    streamSession upstream channel write_progress write_video write_complete
      (opened w) in
  let run := get_stream upstream channel w in
  exists middle,
    Forall in_flight middle
    /\ match outcome session with
       | Returned _ =>
           exists event,
             events (world run) = (events w ++ connected :: middle ++ [event])%list
             /\ kind event = VStr "complete"
             /\ field event "totalVideos" = VNum (Z.of_nat (length (counts middle)))
       | Thrown e =>
           events (world run)
           = (events w ++ connected :: middle ++ [error_event e])%list
       | Pending =>
           events (world run) = (events w ++ connected :: middle)%list
       end.
Proof.
  intros Hchannel. cbn zeta. rewrite (get_stream_run _ _ _ Hchannel).
  rewrite streamSession_fetching, outcome_bind.
  destruct (steps_fetching upstream channel (opened w)) as (sent & He & Hf & Hle & Hc).
  assert (Hcount : videoCount (opened w) = 0) by done.
  rewrite Hcount, Nat.sub_0_r in Hc.
  unfold events in He. rewrite seen_opened in He. cbn [written app] in He.
  fold (events w) in He. rewrite <- app_assoc in He. cbn [app] in He.
  exists sent. split; [done |].
  destruct (fetching upstream channel (opened w)) as [[channelInfo | e |] w1];
    cbn [outcome world fst snd] in *.
  - unfold write_complete, get_videoCount, bind. rewrite !emit_run.
    cbn [outcome fst]. eexists. split; [| split].
    + unfold events. rewrite !seen_added. cbn [written]. rewrite app_nil_r, He.
      by rewrite <- app_assoc.
    + done.
    + by rewrite Hc, numbers_length.
  - unfold events. rewrite !seen_added. cbn [written]. rewrite app_nil_r, He.
    by rewrite <- app_assoc.
  - done.
Qed.

(** A channel that upstream does not know: the stream ends with the
    message of [getChannelId]. *)
Lemma last_event_reports_the_session_example :
  let session :=
    streamSession Sample.three_pages (VStr "nosuchchannel")
      write_progress write_video write_complete (opened (start None)) in
  let run := get_stream Sample.three_pages (VStr "nosuchchannel") (start None) in
  exists middle,
    Forall in_flight middle
    /\ match outcome session with
       | Returned _ =>
           exists event,
             events (world run)
             = (events (start None) ++ connected :: middle ++ [event])%list
             /\ kind event = VStr "complete"
             /\ field event "totalVideos" = VNum (Z.of_nat (length (counts middle)))
       | Thrown e =>
           events (world run)
           = (events (start None) ++ connected :: middle ++ [error_event e])%list
       | Pending =>
           events (world run) = (events (start None) ++ connected :: middle)%list
       end.
Proof.
  apply (last_event_reports_the_session Sample.three_pages (VStr "nosuchchannel")
           (start None)).
  reflexivity.
Defined.

End StreamRoute.

(** ** The two routes deliver the same videos *)

Section RoutesAgree.
Import JsString Js Fetcher Lib Router.

(** The [video] of a [video] event. *)
Definition sent_of (a : Action) : list JSVal :=
  match a with
  | ResWrite event =>
      if strict_eq (kind event) (VStr "video") then [field event "video"] else []
  | _ => []
  end.

(** The videos sent in [video] events so far, oldest first. *)
Definition sent_videos (w : World) : list JSVal := seen sent_of w.

(** The options that [streamYoutubeVideos] passes, with the callbacks of
    the stream route, and those that [fetchYoutubeVideos] passes. *)
Definition route_options : Options :=
  {| maxResults := 50;
     order := VStr "date";
     publishedAfter := publishedAfter default_options;
     publishedBefore := publishedBefore default_options;
     includeDetails := true;
     Fetcher.onProgress := fun progress =>
       write_progress
         (progress ∪
            <["stage" := VStr "videos_progress"]>
              (<["message" :=
                   VStr ("Fetching page " +:+ toStr (field progress "page") +:+
                         "... (" +:+ toStr (field progress "totalFetched") +:+
                         " videos so far)")]> ∅));
     onVideos := fun videos => forEach write_video videos |}.

Definition batch_options : Options :=
  {| maxResults := 50;
     order := VStr "date";
     publishedAfter := publishedAfter default_options;
     publishedBefore := publishedBefore default_options;
     includeDetails := true;
     onProgress := onProgress default_options;
     onVideos := onVideos default_options |}.

#[local] Instance sent_observing : Observing (same_view sent_of) :=
  same_view_observing sent_of (fun _ => eq_refl).

#[local] Existing Instance anything_simulating.

Lemma same_view_run {A} (m : M A) (w : World) o w1 :
  steps (same_view sent_of) m -> m w = (o, w1) -> sent_videos w1 = sent_videos w.
Proof. intros Hm Hrun. specialize (Hm w). by rewrite Hrun in Hm. Qed.

Lemma sent_write_progress (progress : JSObject) (w : World) :
  progress !! "type" = None ->
  write_progress progress w
  = (Returned tt, added (ResWrite (progress ∪ {["type" := VStr "progress"]})) w)
  /\ sent_videos (added (ResWrite (progress ∪ {["type" := VStr "progress"]})) w)
     = sent_videos w.
Proof.
  intros Htype. split; [done |]. unfold sent_videos. rewrite seen_added.
  cbn [sent_of]. unfold kind, field. rewrite lookup_union_r, lookup_singleton_eq by done.
  by rewrite app_nil_r.
Qed.

Lemma sent_write_video (video : JSObject) (w : World) :
  outcome (write_video video w) = Returned tt
  /\ sent_videos (world (write_video video w)) = (sent_videos w ++ [VObj video])%list.
Proof.
  unfold write_video, get_videoCount, set_videoCount, bind. rewrite emit_run.
  split; [done |]. cbn [world snd]. unfold sent_videos, seen.
  cbn [trace added world snd emit]. by rewrite flat_map_app.
Qed.

Lemma sent_forEach (videos : list JSObject) (w : World) :
  outcome (forEach write_video videos w) = Returned tt
  /\ sent_videos (world (forEach write_video videos w))
     = (sent_videos w ++ map VObj videos)%list.
Proof.
  revert w. induction videos as [|video videos IH]; intros w; cbn [forEach map].
  - by rewrite app_nil_r.
  - rewrite outcome_bind, world_bind.
    destruct (sent_write_video video w) as [-> Hsent].
    destruct (IH (world (write_video video w))) as [-> ->].
    by rewrite Hsent, <- app_assoc.
Qed.

(** A turn of the streaming loop of the stream route: the videos that
    it adds are sent. *)
Lemma streamPage_sent (channelId : JSVal) (page : Page) (allVideos : list JSObject)
    (nextPageToken : JSVal) (pageCount : nat) (w : World) turn w' :
  streamPage channelId route_options page allVideos nextPageToken pageCount w
  = (Returned turn, w') ->
  exists batch,
    fst turn = (allVideos ++ batch)%list
    /\ sent_videos w' = (sent_videos w ++ map VObj batch)%list.
Proof.
  unfold streamPage. intros H.
  apply bind_returned in H as ([] & w1 & Hprogress & H).
  apply bind_returned in H as (response & w2 & Hsearch & H).
  apply bind_returned in H as (all' & w3 & Hall & H).
  apply bind_returned in H as ([] & w4 & Hdelay & H).
  injection H as <- <-. cbn [fst].
  assert (H1 : sent_videos w1 = sent_videos w).
  { cbn [onProgress route_options] in Hprogress.
    match type of Hprogress with write_progress ?p _ = _ =>
      destruct (sent_write_progress p w eq_refl) as [Hrun Hsent] end.
    rewrite Hrun in Hprogress. by injection Hprogress as <-. }
  assert (H2 : sent_videos w2 = sent_videos w1).
  { eapply same_view_run; [| exact Hsearch].
    apply (steps_search_list (same_view sent_of)). by intros. }
  assert (H4 : sent_videos w4 = sent_videos w3).
  { eapply same_view_run; [| exact Hdelay].
    destruct (truthy _);
      [apply (steps_delay (same_view sent_of)); by intros
      | apply (steps_ret (same_view sent_of))]. }
  destruct (Response.items response) as [[|video videos] |].
  - injection Hall as <- <-. exists []. by rewrite !app_nil_r, H4, H2, H1.
  - apply bind_returned in Hall as (merged & w5 & Hmerged & Hall).
    apply bind_returned in Hall as ([] & w6 & Hvideos & Hall).
    injection Hall as <- <-. exists merged. split; [done |].
    assert (H5 : sent_videos w5 = sent_videos w2).
    { eapply same_view_run; [| exact Hmerged].
      cbn [includeDetails route_options].
      apply (steps_withDetails (same_view sent_of)); by intros. }
    cbn [onVideos route_options] in Hvideos.
    destruct (sent_forEach merged w5) as [_ Hsent]. rewrite Hvideos in Hsent.
    cbn [world snd] in Hsent. by rewrite H4, Hsent, H5, H2, H1.
  - injection Hall as <- <-. exists []. by rewrite !app_nil_r, H4, H2, H1.
Qed.

Lemma streamLoop_sent (channelId : JSVal) (pages : list Page)
    (allVideos : list JSObject) (nextPageToken : JSVal) (pageCount : nat)
    (w : World) out w' :
  streamLoop channelId route_options pages allVideos nextPageToken pageCount w
  = (Returned out, w') ->
  exists new,
    out = (allVideos ++ new)%list
    /\ sent_videos w' = (sent_videos w ++ map VObj new)%list.
Proof.
  revert allVideos nextPageToken pageCount w.
  induction pages as [|page rest IH]; intros allVideos nextPageToken pageCount w H;
    cbn [streamLoop] in H.
  - by apply bind_returned in H as (? & ? & _ & H).
  - apply bind_returned in H as (turn & w1 & Hpage & H).
    apply streamPage_sent in Hpage as (batch & Hturn & Hsent).
    destruct (truthy (snd turn)).
    + apply IH in H as (more & -> & Hmore).
      exists (batch ++ more)%list.
      by rewrite Hturn, Hmore, Hsent, map_app, !app_assoc.
    + injection H as <- <-. by exists batch.
Qed.

(** The streaming loop of the stream route and the batch loop end the
    same way. *)
Lemma route_streamPage_fetchPage (channelId : JSVal) (page : Page)
    (allVideos : list JSObject) (nextPageToken : JSVal) (pageCount : nat) :
  related anything
    (streamPage channelId route_options page allVideos nextPageToken pageCount)
    (fetchPage channelId batch_options page allVideos nextPageToken).
Proof.
  unfold streamPage, fetchPage.
  apply (related_left anything); [done | done |].
  apply (related_bind anything); [apply (related_search_list anything) |].
  intros response. apply (related_bind anything).
  - destruct (Response.items response) as [[|video videos] |];
      try apply (related_ret anything).
    apply (related_bind anything); [apply (related_withDetails anything) |].
    intros merged. apply (related_left anything); [| done |].
    + intros w. apply sent_forEach.
    + apply (related_ret anything).
  - intros all'. apply (related_bind anything); [| intros; apply (related_ret anything)].
    destruct (truthy _); [apply (related_delay anything) | apply (related_ret anything)].
Qed.

Lemma route_streamLoop_fetchLoop (channelId : JSVal) (pages : list Page)
    (allVideos : list JSObject) (nextPageToken : JSVal) (pageCount : nat) :
  related anything
    (streamLoop channelId route_options pages allVideos nextPageToken pageCount)
    (fetchLoop channelId batch_options pages allVideos nextPageToken).
Proof.
  revert allVideos nextPageToken pageCount.
  induction pages as [|page rest IH]; intros allVideos nextPageToken pageCount;
    cbn [streamLoop fetchLoop].
  - apply (related_bind anything); [apply route_streamPage_fetchPage |].
    intros; apply (related_pending anything).
  - apply (related_bind anything); [apply route_streamPage_fetchPage |]. intros turn.
    destruct (truthy _); [apply IH | apply (related_ret anything)].
Qed.

(** The loop of the stream route against the loop of the batch route:
    the same end, and what the first returns it has sent. *)
Lemma route_loops_agree (pages : list Page) (channelId : JSVal) (w w' : World) :
  let streamed := streamAllChannelVideos pages channelId route_options w in
  let fetched := getAllChannelVideos pages channelId batch_options w' in
  outcome streamed = outcome fetched
  /\ match outcome fetched with
     | Returned videos =>
         sent_videos (world streamed) = (sent_videos w ++ map VObj videos)%list
     | _ => True
     end.
Proof.
  cbn zeta. unfold streamAllChannelVideos, getAllChannelVideos. rewrite !try_rethrow.
  destruct (route_streamLoop_fetchLoop channelId pages [] VNull 0 w w' I) as [Hsame _].
  split; [done |]. rewrite <- Hsame.
  destruct (streamLoop channelId route_options pages [] VNull 0 w)
    as [[videos | e |] w1] eqn:Hrun; [| done | done].
  by apply streamLoop_sent in Hrun as (new & -> & Hsent).
Qed.

Lemma anywhere_getChannelId (reply : Reply) (input : JSVal) (w w' : World) :
  outcome (getChannelId reply input w) = outcome (getChannelId reply input w').
Proof. by destruct (related_getChannelId anything reply input w w' I). Qed.

Lemma anywhere_getChannelInfo (reply : Reply) (channelId : JSVal) (w w' : World) :
  outcome (getChannelInfo reply channelId w)
  = outcome (getChannelInfo reply channelId w').
Proof. by destruct (related_getChannelInfo anything reply channelId w w' I). Qed.

Lemma progress_then {A} (progress : JSObject) (k : unit -> M A) (w : World) :
  bind (write_progress progress) k w
  = k tt (added (ResWrite (progress ∪ {["type" := VStr "progress"]})) w).
Proof. reflexivity. Qed.

Lemma bind_pending {A B} (m : M A) (k : A -> M B) (w : World) w' :
  m w = (Pending, w') -> bind m k w = (Pending, w').
Proof. unfold bind. by intros ->. Qed.

(** The session of the stream route against the session of the batch
    route. *)
Lemma sessions_agree (upstream : Upstream) (channel : JSVal) (w w' : World) :
  let streamed := fetching upstream channel w in
  let fetched := batch_session upstream channel w' in
  match outcome fetched with
  | Returned videos =>
      (exists channelInfo, outcome streamed = Returned channelInfo)
      /\ sent_videos (world streamed) = (sent_videos w ++ map VObj videos)%list
  | Thrown e => outcome streamed = Thrown e
  | Pending => outcome streamed = Pending
  end.
Proof.
  cbn zeta. unfold fetching, batch_session.
  fold route_options. fold batch_options.
  rewrite progress_then. set (w1 := added _ w).
  assert (H1 : sent_videos w1 = sent_videos w) by (by apply sent_write_progress).
  rewrite (outcome_bind (getChannelId (channel_search upstream) channel) _ w').
  pose proof (anywhere_getChannelId (channel_search upstream) channel w1 w') as Hsame.
  rewrite <- Hsame. clear Hsame.
  destruct (getChannelId (channel_search upstream) channel w1)
    as [[channelId | e |] w2] eqn:Hid; cbn [outcome fst];
    [| by rewrite (bind_thrown _ _ w1 _ _ Hid)
     | by rewrite (bind_pending _ _ w1 _ Hid)].
  assert (H2 : sent_videos w2 = sent_videos w1).
  { eapply same_view_run; [| exact Hid].
    apply (steps_getChannelId (same_view sent_of)). by intros. }
  rewrite (bind_run _ _ w1 _ _ Hid).
  rewrite progress_then. set (w3 := added _ w2).
  assert (H3 : sent_videos w3 = sent_videos w2) by (by apply sent_write_progress).
  set (v := world (getChannelId (channel_search upstream) channel w')).
  rewrite (outcome_bind (getChannelInfo (channel_lookup upstream) channelId) _ v).
  pose proof (anywhere_getChannelInfo (channel_lookup upstream) channelId w3 v) as Hsame.
  rewrite <- Hsame. clear Hsame.
  destruct (getChannelInfo (channel_lookup upstream) channelId w3)
    as [[channelInfo | e |] w4] eqn:Hinfo; cbn [outcome fst];
    [| by rewrite (bind_thrown _ _ w3 _ _ Hinfo)
     | by rewrite (bind_pending _ _ w3 _ Hinfo)].
  assert (H4 : sent_videos w4 = sent_videos w3).
  { eapply same_view_run; [| exact Hinfo].
    apply (steps_getChannelInfo (same_view sent_of)). by intros. }
  rewrite (bind_run _ _ w3 _ _ Hinfo).
  rewrite progress_then. set (w5 := added _ w4).
  assert (H5 : sent_videos w5 = sent_videos w4) by (by apply sent_write_progress).
  rewrite progress_then. set (w6 := added _ w5).
  assert (H6 : sent_videos w6 = sent_videos w5) by (by apply sent_write_progress).
  set (v' := world (getChannelInfo (channel_lookup upstream) channelId v)).
  destruct (route_loops_agree (video_pages upstream) channelId w6 v') as [Hsame Hsent].
  cbn zeta in Hsame, Hsent. rewrite outcome_bind, world_bind, Hsame.
  destruct (outcome (getAllChannelVideos _ _ _ v')) as [videos | e |]; [| done | done].
  split; [by eexists |]. rewrite ret_run. cbn [world snd].
  by rewrite Hsent, H6, H5, H4, H3, H2, H1.
Qed.

Lemma sent_opened (w : World) : sent_videos (opened w) = sent_videos w.
Proof. unfold sent_videos. rewrite seen_opened. cbn. by rewrite app_nil_r. Qed.

(** X16. The two routes deliver the same videos.  For the same replies
    of upstream, when the batch route would answer with an array of
    videos, the stream route sends those videos, each in one [video]
    event, all of them, in the order of the array, and completes; when the
    batch session fails with an error, the stream ends with the [error]
    event of that error; when the one waits for upstream, so does the
    other. *)
Theorem stream_route_sends_the_videos_of_the_batch_route
    (upstream : Upstream) (channel : JSVal) (w w' : World) :
  truthy channel = true ->
  let fetched := batch_session upstream channel w' in
  let run := get_stream upstream channel w in
  match outcome fetched with
  | Returned videos =>
      outcome run = Returned tt
      /\ sent_videos (world run) = (sent_videos w ++ map VObj videos)%list
  | Thrown e =>
      outcome run = Returned tt
      /\ exists before, events (world run) = (before ++ [error_event e])%list
  | Pending => outcome run = Pending
  end.
Proof.
  intros Hchannel. cbn zeta. rewrite (get_stream_run _ _ _ Hchannel).
  pose proof (sessions_agree upstream channel (opened w) w') as Hagree.
  cbn zeta in Hagree.
  destruct (outcome (batch_session upstream channel w')) as [videos | e |].
  - destruct Hagree as [[channelInfo Hout] Hsent].
    destruct (fetching upstream channel (opened w)) as [[info | e |] w1];
      cbn [outcome world fst snd] in *; try done.
    split; [done |]. unfold sent_videos in *.
    rewrite !seen_added, Hsent, sent_opened. cbn [sent_of].
    by rewrite !app_nil_r.
  - destruct (fetching upstream channel (opened w)) as [[info | e' |] w1];
      cbn [outcome world fst snd] in *; try done.
    injection Hagree as ->. split; [done |].
    exists (events w1). unfold events. rewrite !seen_added. cbn [written].
    by rewrite app_nil_r.
  - by destruct (fetching upstream channel (opened w)) as [[info | e' |] w1].
Qed.

(** Three pages of one video each: the three videos are sent. *)
Lemma stream_route_sends_the_videos_of_the_batch_route_example :
  let fetched :=
    batch_session Sample.three_pages (VStr "UCBJycsmduvYEL83R_U4JriQ") (start None) in
  let run :=
    get_stream Sample.three_pages (VStr "UCBJycsmduvYEL83R_U4JriQ") (start None) in
  match outcome fetched with
  | Returned videos =>
      outcome run = Returned tt
      /\ sent_videos (world run) = (sent_videos (start None) ++ map VObj videos)%list
  | Thrown e =>
      outcome run = Returned tt
      /\ exists before, events (world run) = (before ++ [error_event e])%list
  | Pending => outcome run = Pending
  end.
Proof.
  apply (stream_route_sends_the_videos_of_the_batch_route
           Sample.three_pages (VStr "UCBJycsmduvYEL83R_U4JriQ") (start None) (start None)).
  reflexivity.
Defined.

End RoutesAgree.

(** ** The parameters of the searches *)

Section SearchParameters.
Import JsString Js Fetcher.

Definition search_of (a : Action) : list JSObject :=
  match a with
  | Call (SearchList params) => [params]
  | _ => []
  end.

(** The parameters of the search calls so far, oldest first. *)
Definition searches (w : World) : list JSObject := seen search_of w.

(** The parameters of a video search for [channelId] under [options]:
    at most 50 results to a page, and a date bound only where the option
    has one. *)
Definition video_search (channelId : JSVal) (options : Options)
    (params : JSObject) : Prop :=
  field params "part" = VStr "snippet"
  /\ field params "type" = VStr "video"
  /\ field params "channelId" = channelId
  /\ field params "order" = order options
  /\ field params "maxResults" = VNum (Z.min (maxResults options) 50)
  /\ params !! "publishedAfter"
     = (if truthy (publishedAfter options) then Some (publishedAfter options) else None)
  /\ params !! "publishedBefore"
     = (if truthy (publishedBefore options) then Some (publishedBefore options) else None).

Variable channelId : JSVal.
Variable options : Options.

(** From [w] to [w'] only video searches for the channel were made. *)
Definition searching (w w' : World) : Prop :=
  exists new,
    searches w' = (searches w ++ new)%list
    /\ Forall (video_search channelId options) new.

#[local] Program Instance searching_observing : Observing searching :=
  {| quiet := fun a => search_of a = [] |}.
Next Obligation. intros w. exists []. by rewrite app_nil_r. Qed.
Next Obligation.
  intros w1 w2 w3 (new & H1 & Hnew) (more & H2 & Hmore).
  exists (new ++ more)%list. split; [by rewrite H2, H1, app_assoc |].
  by apply Forall_app.
Qed.
Next Obligation.
  intros a w Ha. exists []. split; [| done].
  change (world (emit a w)) with (added a w). unfold searches.
  by rewrite seen_added, Ha.
Qed.
Next Obligation.
  intros w. exists []. split; [| done]. unfold searches.
  change (world (suspend w)) with (resumed w). by rewrite seen_resumed, app_nil_r.
Qed.

Lemma searchParams_video_search (nextPageToken : JSVal) :
  video_search channelId options (searchParams channelId options nextPageToken).
Proof.
  unfold video_search, searchParams.
  destruct (truthy (publishedAfter options)), (truthy (publishedBefore options));
    by repeat split.
Qed.

Lemma searching_fetchPage (page : Page) (allVideos : list JSObject)
    (nextPageToken : JSVal) :
  steps searching (fetchPage channelId options page allVideos nextPageToken).
Proof.
  apply (steps_bind searching).
  - apply (steps_bind searching); [| intros; apply (steps_await searching)].
    intros w. exists [searchParams channelId options nextPageToken].
    split; [| by repeat constructor; apply searchParams_video_search].
    change (world (emit ?a w)) with (added a w). unfold searches.
    by rewrite seen_added.
  - intros response. by apply (steps_fetchPage_rest searching).
Qed.

(** X17. Every search that [getAllChannelVideos] makes, however the run
    ends, is a video search for the given channel, in the given order,
    that asks for at most 50 results to a page, whatever [maxResults]
    says, and that carries [publishedAfter] and [publishedBefore] only
    when the option has a value for it. *)
Theorem every_search_is_capped (pages : list Page) (w : World) :
  let run := getAllChannelVideos pages channelId options w in
  exists new,
    searches (world run) = (searches w ++ new)%list
    /\ Forall (video_search channelId options) new
    /\ Forall
         (fun params =>
            exists n, field params "maxResults" = VNum n /\ (n <= 50)%Z)
         new.
Proof.
  cbn zeta.
  assert (H : steps searching (getAllChannelVideos pages channelId options)).
  { apply (steps_try_catch searching); [| intros; apply (steps_throw searching)].
    generalize (@nil JSObject) VNull.
    induction pages as [|page rest IH]; intros allVideos nextPageToken;
      cbn [fetchLoop].
    - apply (steps_bind searching);
        [apply searching_fetchPage | intros; apply (steps_pending searching)].
    - apply (steps_bind searching); [apply searching_fetchPage |]. intros turn.
      destruct (truthy _); [apply IH | apply (steps_ret searching)]. }
  destruct (H w) as (new & Hnew & Hall). exists new. split; [done |].
  split; [done |]. eapply Forall_impl; [exact Hall |].
  intros params (_ & _ & _ & _ & Hmax & _). eexists. split; [exact Hmax | lia].
Qed.

End SearchParameters.

(** ** The [hasMore] of the progress notifications *)

Section HasMore.
Import JsString Js Fetcher.

Definition has_more_of (a : Action) : list JSVal :=
  match a with
  | Handed (Progress info) => [field info "hasMore"]
  | _ => []
  end.

(** The [hasMore] of the progress notifications so far, oldest first. *)
Definition has_more (w : World) : list JSVal := seen has_more_of w.

#[local] Instance has_more_observing : Observing (same_view has_more_of) :=
  same_view_observing has_more_of (fun _ => eq_refl).

Variable channelId : JSVal.
Variable base : Options.

(** The recording callbacks, without the one for progress. *)
Definition videos_only : Options :=
  {| maxResults := maxResults base;
     order := order base;
     publishedAfter := publishedAfter base;
     publishedBefore := publishedBefore base;
     includeDetails := includeDetails base;
     onProgress := fun _ => ret tt;
     onVideos := Spy.onVideos |}.

Lemma streamPage_has_more (page : Page) (allVideos : list JSObject)
    (nextPageToken : JSVal) (pageCount : nat) (w : World) :
  has_more
    (world (streamPage channelId (Spy.options base) page allVideos nextPageToken
              pageCount w))
  = (has_more w ++ [VBool (truthy nextPageToken)])%list.
Proof.
  set (P := Handed (Progress (progress_info pageCount allVideos nextPageToken))).
  change (streamPage channelId (Spy.options base) page allVideos nextPageToken
            pageCount w)
    with (streamPage channelId videos_only page allVideos nextPageToken pageCount
            (added P w)).
  assert (H : steps (same_view has_more_of)
                (streamPage channelId videos_only page allVideos nextPageToken
                   pageCount)).
  { apply (steps_streamPage (same_view has_more_of)); try (by intros);
      intros; cbn [onProgress onVideos videos_only];
      first [apply (steps_ret (same_view has_more_of))
            | by apply (steps_emit (same_view has_more_of))]. }
  unfold has_more. rewrite (H (added P w)). by rewrite seen_added.
Qed.

Lemma streamLoop_has_more (pages : list Page) (allVideos : list JSObject)
    (nextPageToken : JSVal) (pageCount : nat) (w : World) :
  exists n,
    has_more
      (world (streamLoop channelId (Spy.options base) pages allVideos nextPageToken
                pageCount w))
    = (has_more w ++ VBool (truthy nextPageToken) :: repeat (VBool true) n)%list.
Proof.
  revert allVideos nextPageToken pageCount w.
  induction pages as [|page rest IH]; intros allVideos nextPageToken pageCount w;
    cbn [streamLoop]; rewrite world_bind.
  - exists 0.
    pose proof (streamPage_has_more silence allVideos nextPageToken (S pageCount) w)
      as Hsilence.
    by destruct (outcome (streamPage _ _ _ _ _ _ _)).
  - pose proof (streamPage_has_more page allVideos nextPageToken (S pageCount) w)
      as Hpage.
    destruct (outcome (streamPage _ _ _ _ _ _ _)) as [turn | e |];
      [| by exists 0 | by exists 0].
    destruct (truthy (snd turn)) eqn:Hmore; [| by exists 0].
    destruct (IH (fst turn) (snd turn) (S pageCount)
                (world (streamPage channelId (Spy.options base) page allVideos
                          nextPageToken (S pageCount) w))) as (n & Hrest).
    exists (S n). rewrite Hrest, Hpage, Hmore, <- app_assoc. done.
Qed.

(** X18. The [hasMore] that [streamAllChannelVideos] reports with the
    progress of a page is made of the cursor that came with the page
    before: it is [false] for the first page, even when more pages follow,
    and [true] for every later page, the last one included. *)
Theorem has_more_looks_back (pages : list Page) (w : World) :
  let run := streamAllChannelVideos pages channelId (Spy.options base) w in
  exists n,
    has_more (world run)
    = (has_more w ++ VBool false :: repeat (VBool true) n)%list.
Proof.
  cbn zeta. unfold streamAllChannelVideos. rewrite try_rethrow.
  apply (streamLoop_has_more pages [] VNull 0 w).
Qed.

End HasMore.

(** ** The client goes away: how long the loop goes on *)

Section DisconnectCount.
Import JsString Js Fetcher Lib Router.

(** The number of searches that the loop makes on the replies [pages]:
    one for the first page, and one more for every page that follows a
    page whose calls succeeded and whose reply carried a continuation
    cursor.  The loop stops at the first page whose reply has no cursor,
    whose search or detail call fails, or that upstream does not answer;
    past the end of [pages] upstream is silent. *)
Fixpoint searches_made (options : Options) (pages : list Page) : nat :=
  match pages with
  | [] => 1
  | page :: rest =>
      if answered options page && has_cursor page
      then S (searches_made options rest)
      else 1
  end.

Lemma searches_made_ext (options options' : Options) (pages : list Page) :
  includeDetails options = includeDetails options' ->
  searches_made options pages = searches_made options' pages.
Proof.
  intros Hsame. induction pages as [|page rest IH]; [done |].
  cbn [searches_made]. unfold answered. by rewrite Hsame, IH.
Qed.

Lemma withDetails_goes (page : Page) (videos : list JSObject)
    (w : World) merged w' :
  withDetails (details_reply page) videos w = (Returned merged, w') ->
  details_answered page videos = true.
Proof.
  unfold withDetails. intros H.
  apply bind_returned in H as (ids & w1 & Hids & H).
  apply lift_returned in Hids as [Hids ->].
  apply bind_returned in H as (batch & w2 & Hbatch & H).
  apply getVideoDetails_returned in Hbatch as (data & raw & Hreply & Hitems & Hraw).
  unfold details_answered. by rewrite Hids, Hreply, Hitems, Hraw.
Qed.

(** The loop takes another turn only after a page whose calls succeeded
    and whose reply carried a cursor. *)
Lemma fetchPage_goes_on (channelId : JSVal) (options : Options) (page : Page)
    (allVideos : list JSObject) (nextPageToken : JSVal) (w : World) turn w' :
  fetchPage channelId options page allVideos nextPageToken w = (Returned turn, w') ->
  truthy (snd turn) = true ->
  answered options page = true /\ has_cursor page = true.
Proof.
  unfold fetchPage. intros H Hmore.
  apply bind_returned in H as (response & w1 & Hcall & H).
  apply bind_returned in Hcall as ([] & w2 & _ & Hawait).
  apply await_returned in Hawait as [Hreply _].
  apply bind_returned in H as (all' & w3 & Hall & H).
  apply bind_returned in H as ([] & w4 & _ & H).
  injection H as <- _. cbn [snd] in Hmore.
  unfold answered, has_cursor. rewrite Hreply. split; [| done].
  destruct (Response.items response) as [[|video videos] |]; try done.
  destruct (includeDetails options); [| done].
  apply bind_returned in Hall as (merged & w5 & Hmerged & _).
  by eapply withDetails_goes.
Qed.

Lemma fetchLoop_searches (channelId : JSVal) (options : Options)
    (pages : list Page) (allVideos : list JSObject) (nextPageToken : JSVal)
    (w : World) :
  search_calls (world (fetchLoop channelId options pages allVideos nextPageToken w))
  = search_calls w + searches_made options pages.
Proof.
  revert allVideos nextPageToken w.
  induction pages as [|page rest IH]; intros allVideos nextPageToken w;
    cbn [fetchLoop searches_made]; rewrite world_bind.
  - pose proof (fetchPage_search_calls channelId options silence allVideos
                  nextPageToken w) as Hcalls.
    destruct (outcome (fetchPage _ _ _ _ _ _)); cbn [pending world snd]; lia.
  - pose proof (fetchPage_search_calls channelId options page allVideos
                  nextPageToken w) as Hcalls.
    destruct (answered options page && has_cursor page) eqn:Hgo.
    + apply andb_true_iff in Hgo as [Hpage Hcursor].
      rewrite (fetchPage_answered _ _ _ _ _ _ Hpage). cbn [fst snd].
      replace (truthy (cursor page)) with true
        by (unfold has_cursor, cursor in *; by destruct (search_reply page)).
      rewrite IH, Hcalls. lia.
    + destruct (fetchPage channelId options page allVideos nextPageToken w)
        as [[turn | e |] w1] eqn:Hrun; cbn [outcome world fst snd] in *;
        [| lia | lia].
      destruct (truthy (snd turn)) eqn:Hmore; [| cbn [ret world snd]; lia].
      destruct (fetchPage_goes_on _ _ _ _ _ _ _ _ Hrun Hmore) as [Hpage Hcursor].
      by rewrite Hpage, Hcursor in Hgo.
Qed.

(** Two runs that have made as many searches. *)
Definition same_searches (w w' : World) : Prop := search_calls w = search_calls w'.

#[local] Instance same_searches_simulating : Simulating same_searches.
Proof.
  split; unfold same_searches.
  - intros a w w' H. by rewrite !search_calls_emit, H.
  - intros w w' H. by rewrite !search_calls_suspend.
Qed.

Lemma search_calls_forEach (videos : list JSObject) (w : World) :
  search_calls (world (forEach write_video videos w)) = search_calls w.
Proof.
  revert w. induction videos as [|video videos IH]; intros w; cbn [forEach];
    [done |].
  rewrite world_bind. destruct (sent_write_video video w) as [-> _].
  rewrite IH. unfold write_video, get_videoCount, set_videoCount, bind.
  rewrite emit_run. cbn [world snd].
  change (added ?a ?w0) with (world (emit a w0)). rewrite search_calls_emit.
  unfold search_calls. cbn. lia.
Qed.

(** The callbacks of the stream route make no search: a turn of its
    loop and a turn of the batch loop end the same way after as many
    searches. *)
Lemma searches_streamPage_fetchPage (channelId : JSVal) (page : Page)
    (allVideos : list JSObject) (nextPageToken : JSVal) (pageCount : nat) :
  related same_searches
    (streamPage channelId route_options page allVideos nextPageToken pageCount)
    (fetchPage channelId batch_options page allVideos nextPageToken).
Proof.
  unfold streamPage, fetchPage.
  apply (related_left same_searches); [done | |].
  { intros w w' H. unfold same_searches in *. cbn [onProgress route_options].
    unfold write_progress. rewrite search_calls_emit. cbn. lia. }
  apply (related_bind same_searches); [apply (related_search_list same_searches) |].
  intros response. apply (related_bind same_searches).
  - destruct (Response.items response) as [[|video videos] |];
      try apply (related_ret same_searches).
    apply (related_bind same_searches);
      [apply (related_withDetails same_searches) |].
    intros merged. apply (related_left same_searches).
    + intros w. apply sent_forEach.
    + intros w w' H. unfold same_searches in *. cbn [onVideos route_options].
      by rewrite search_calls_forEach.
    + apply (related_ret same_searches).
  - intros all'.
    apply (related_bind same_searches); [| intros; apply (related_ret same_searches)].
    destruct (truthy _);
      [apply (related_delay same_searches) | apply (related_ret same_searches)].
Qed.

Lemma searches_streamLoop_fetchLoop (channelId : JSVal) (pages : list Page)
    (allVideos : list JSObject) (nextPageToken : JSVal) (pageCount : nat) :
  related same_searches
    (streamLoop channelId route_options pages allVideos nextPageToken pageCount)
    (fetchLoop channelId batch_options pages allVideos nextPageToken).
Proof.
  revert allVideos nextPageToken pageCount.
  induction pages as [|page rest IH]; intros allVideos nextPageToken pageCount;
    cbn [streamLoop fetchLoop].
  - apply (related_bind same_searches); [apply searches_streamPage_fetchPage |].
    intros; apply (related_pending same_searches).
  - apply (related_bind same_searches); [apply searches_streamPage_fetchPage |].
    intros turn.
    destruct (truthy _); [apply IH | apply (related_ret same_searches)].
Qed.

(** C2, amended. When the client of a streaming session goes away, the
    listener writes a line to the console and nothing else: whenever the
    client goes, the session ends the same way, makes the same calls to
    upstream, sets the same timers and writes the same events as when the
    client stays.  The loop of the session, from any state of the world
    and so whether the client has gone or not, goes on as long as the
    calls of a page succeed and its reply carries a continuation cursor,
    and stops only at the first page whose reply has no cursor, whose
    search or detail call fails, or that upstream does not answer: it
    makes one search for the first page and one more for every page that
    follows such a page.  Nothing but the pages that upstream has bounds
    the searches after the client has gone. *)
Theorem close_changes_nothing
    (upstream : Upstream) (channelInput : JSVal) (clientLeaves : option nat)
    (channelId : JSVal) (w : World) :
  let gone := get_stream upstream channelInput (start clientLeaves) in
  let stays := get_stream upstream channelInput (start None) in
  let loop :=
    streamAllChannelVideos (video_pages upstream) channelId route_options w in
  outcome gone = outcome stays
  /\ upstream_calls (world gone) = upstream_calls (world stays)
  /\ deeds (world gone) = deeds (world stays)
  /\ search_calls (world loop)
     = search_calls w + searches_made route_options (video_pages upstream).
Proof.
  cbn zeta.
  destruct (related_get_stream upstream channelInput
              (start clientLeaves) (start None)) as [Ho [Hd _]]; [done |].
  split; [done |]. split; [by apply upstream_calls_deeds |]. split; [done |].
  unfold streamAllChannelVideos. rewrite try_rethrow.
  destruct (searches_streamLoop_fetchLoop channelId (video_pages upstream)
              [] VNull 0 w w eq_refl) as [_ ->].
  rewrite fetchLoop_searches. f_equal. by apply searches_made_ext.
Qed.

(** Three pages of one video each, the client gone during the first
    search or before the loop starts: three searches all the same. *)
Lemma close_changes_nothing_example :
  let channel := VStr "UCBJycsmduvYEL83R_U4JriQ" in
  let gone := get_stream Sample.three_pages channel (start (Some 1)) in
  let stays := get_stream Sample.three_pages channel (start None) in
  let loop :=
    streamAllChannelVideos (video_pages Sample.three_pages) channel route_options
      (start (Some 0)) in
  (outcome gone = outcome stays
   /\ upstream_calls (world gone) = upstream_calls (world stays)
   /\ deeds (world gone) = deeds (world stays)
   /\ search_calls (world loop)
      = search_calls (start (Some 0))
        + searches_made route_options (video_pages Sample.three_pages))
  /\ searches_made route_options (video_pages Sample.three_pages) = 3.
Proof.
  intros channel. split.
  - apply (close_changes_nothing Sample.three_pages channel (Some 1) channel
             (start (Some 0))).
  - reflexivity.
Defined.

End DisconnectCount.
